(** * MessageDict release script ([upload.py]): a shallow embedding

    The script is a linear sequence of calls against the terminal, the file
    system, [git] (through a shell) and the GitHub REST API.  It is embedded
    as a state-and-exception monad over a [world] that holds what the operator
    will type, what the files contain, how the shell and the remote server
    answer, and the log of everything the script did.

    Python [str] values are modelled as [string]: sequences of characters
    with code points below 256.  [isspace], [lower] and the regular
    expression classes follow Python on that range. *)

From Stdlib Require Import ZArith String Ascii List Lia Bool DecimalString.
From stdpp Require Import base tactics option list strings gmap.

#[local] Set Warnings "-register-all".
#[local] Open Scope Z_scope.

(** ** Characters and strings *)

Module Str.

Definition code (c : ascii) : nat := nat_of_ascii c.

Definition chr (n : nat) : ascii := ascii_of_nat n.

(** The double quote, the backslash and the line feed. *)
Definition dquote : ascii := chr 34.
Definition backslash : ascii := chr 92.
Definition LF : ascii := chr 10.

Definition str1 (c : ascii) : string := String c EmptyString.

Definition DQ : string := str1 dquote.
Definition BS : string := str1 backslash.
Definition NL : string := str1 LF.

(** [str.isspace] on one character: TAB..CR, FS..US, space, NEL, NBSP. *)
Definition isspace (c : ascii) : bool :=
  let n := code c in
  ((9 <=? n) && (n <=? 13) || (28 <=? n) && (n <=? 32)
   || (n =? 133) || (n =? 160))%nat.

Definition isdigit (c : ascii) : bool :=
  let n := code c in ((48 <=? n) && (n <=? 57))%nat.

Definition isoctdigit (c : ascii) : bool :=
  let n := code c in ((48 <=? n) && (n <=? 55))%nat.

Definition isupper_ascii (c : ascii) : bool :=
  let n := code c in ((65 <=? n) && (n <=? 90))%nat.

Definition islower_ascii (c : ascii) : bool :=
  let n := code c in ((97 <=? n) && (n <=? 122))%nat.

Definition isalpha_ascii (c : ascii) : bool :=
  isupper_ascii c || islower_ascii c.

(** [str.lower] on one character: A..Z and the Latin-1 capitals
    (U+00C0..U+00DE without the multiplication sign U+00D7). *)
Definition lower_char (c : ascii) : ascii :=
  let n := code c in
  if ((65 <=? n) && (n <=? 90)
      || (192 <=? n) && (n <=? 222) && negb (n =? 215))%nat
  then chr (n + 32) else c.

Fixpoint lower (s : string) : string :=
  match s with
  | EmptyString => EmptyString
  | String c s' => String (lower_char c) (lower s')
  end.

(** [s.startswith(p)]. *)
Definition startswith (s p : string) : bool := String.prefix p s.

(** [needle in hay]. *)
Fixpoint contains (needle hay : string) : bool :=
  String.prefix needle hay
  || match hay with
     | EmptyString => false
     | String _ hay' => contains needle hay'
     end.

Fixpoint lstrip (s : string) : string :=
  match s with
  | String c s' => if isspace c then lstrip s' else s
  | EmptyString => EmptyString
  end.

(** Drops trailing white space: a character is kept when anything kept
    follows it or when it is not white space itself. *)
Fixpoint rstrip (s : string) : string :=
  match s with
  | EmptyString => EmptyString
  | String c s' =>
      match rstrip s' with
      | EmptyString => if isspace c then EmptyString else str1 c
      | r => String c r
      end
  end.

(** [s.strip()]. *)
Definition strip (s : string) : string := rstrip (lstrip s).

(** Truth value of a [str]: the empty string is false. *)
Definition truthy (s : string) : bool :=
  match s with EmptyString => false | _ => true end.

(** [s.split(sep)] for a one-character separator. *)
Fixpoint split (sep : ascii) (s : string) : list string :=
  match s with
  | EmptyString => [EmptyString]
  | String c s' =>
      if Ascii.eqb c sep then EmptyString :: split sep s'
      else match split sep s' with
           | w :: ws => String c w :: ws
           | [] => [str1 c]
           end
  end.

(** [sep.join(parts)] with the empty separator. *)
Definition join (parts : list string) : string :=
  fold_right String.append EmptyString parts.

End Str.

(** ** Values exchanged with the outside *)

(** A decoded JSON document ([response.json()], the [json=] argument). *)
Inductive json :=
| JNull
| JBool (b : bool)
| JInt (z : Z)
| JStr (s : string)
| JArr (l : list json)
| JObj (o : gmap string json).

(** Python's truth value of a decoded JSON document. *)
Definition json_truthy (j : json) : bool :=
  match j with
  | JNull => false
  | JBool b => b
  | JInt z => negb (z =? 0)
  | JStr s => Str.truthy s
  | JArr l => match l with [] => false | _ => true end
  | JObj o => negb (bool_decide (o = ∅))
  end.

Inductive exn_class :=
| EOFError | FileNotFoundError | OSError | ValueError | AttributeError
| IndexError | KeyError | TypeError | JSONDecodeError | ConnectionError
| HTTPError | ReError | DataOverflowError.

(** A raised exception: its class and [str(e)]. *)
Record exn := Exn { exn_class_of : exn_class; exn_str : string }.

(** How a call ends: it returns, an exception propagates, or [sys.exit]
    unwinds the process ([SystemExit] is not an [Exception]). *)
Inductive outcome (A : Type) :=
| Ret (a : A)
| Raise (e : exn)
| Exit (code : Z).
Arguments Ret {A} a.
Arguments Raise {A} e.
Arguments Exit {A} code.

(** [subprocess.CompletedProcess] with captured text output. *)
Record CompletedProcess := Completed {
  returncode : Z;
  stdout : string;
  stderr : string
}.

Inductive method := GET | PUT | POST.

Inductive payload :=
| NoPayload
| JsonPayload (data : gmap string json)
| FilesPayload (field filename content content_type : string).

Record request := Request {
  req_method : method;
  req_url : string;
  req_headers : gmap string string;
  req_body : payload
}.

(** [requests.Response]: [body_json] is what [.json()] decodes, [None] when
    the body is not JSON. *)
Record response := Response {
  status_code : Z;
  text : string;
  content : string;
  body_json : option json
}.

(** What the script did to the outside, oldest first. *)
Inductive event :=
| EPrint (line : string)
| EInput (prompt : string) (reply : option string)
| ERun (cmd : string) (res : exn + CompletedProcess)
| EHttp (req : request) (res : exn + response).

(** ** The world

    [stdin] holds the lines the operator will type; [files] maps a path to
    the content of the file there; [log] records the events so far.  The
    shell, the server, the temporary-file namer and the QR encoder answer
    as functions of what they can observe. *)
Record world := World {
  stdin : list string;
  files : gmap string string;
  log : list event;
  shell : list event → gmap string string → string
          → exn + (CompletedProcess * gmap string string);
  server : list event → request → exn + response;
  mkstemp : list event → gmap string string → string;
  qr_image : string → exn + string
}.

Definition set_stdin (l : list string) (w : world) : world :=
  World l (files w) (log w) (shell w) (server w) (mkstemp w) (qr_image w).
Definition set_files (f : gmap string string) (w : world) : world :=
  World (stdin w) f (log w) (shell w) (server w) (mkstemp w) (qr_image w).
Definition record (e : event) (w : world) : world :=
  World (stdin w) (files w) (log w ++ [e]) (shell w) (server w) (mkstemp w)
        (qr_image w).

(** The same world with another server. *)
Definition set_server (srv : list event → request → exn + response)
    (w : world) : world :=
  World (stdin w) (files w) (log w) (shell w) srv (mkstemp w) (qr_image w).

(** ** The monad of the script *)

Definition M (A : Type) : Type := world → outcome A * world.

#[global] Instance M_ret : MRet M := λ A a w, (Ret a, w).

#[global] Instance M_bind : MBind M := λ A B k m w,
  match m w with
  | (Ret a, w') => k a w'
  | (Raise e, w') => (Raise e, w')
  | (Exit c, w') => (Exit c, w')
  end.

#[global] Instance M_fmap : FMap M := λ A B f m, a ← m; mret (f a).

Definition raise {A} (e : exn) : M A := λ w, (Raise e, w).

(** [sys.exit(code)]. *)
Definition sys_exit {A} (code : Z) : M A := λ w, (Exit code, w).

(** [try: m  except Exception as e: handler e]. *)
Definition try_except {A} (m : M A) (handler : exn → M A) : M A :=
  λ w, match m w with
       | (Raise e, w') => handler e w'
       | r => r
       end.

(** [try: m  except: handler], the bare clause that also stops [SystemExit]. *)
Definition try_bare {A} (m : M A) (handler : M A) : M A :=
  λ w, match m w with
       | (Ret a, w') => (Ret a, w')
       | (_, w') => handler w'
       end.

(** [print(line)]. *)
Definition print (line : string) : M unit :=
  λ w, (Ret tt, record (EPrint line) w).

(** [input(prompt)]: the next line of standard input, [EOFError] at its end. *)
Definition input (prompt : string) : M string :=
  λ w, match stdin w with
       | l :: rest => (Ret l, record (EInput prompt (Some l)) (set_stdin rest w))
       | [] => (Raise (Exn EOFError "EOF when reading a line"),
                record (EInput prompt None) w)
       end.

(** [subprocess.run(cmd, shell=True, capture_output=True, text=True)]. *)
Definition subprocess_run (cmd : string) : M CompletedProcess :=
  λ w, match shell w (log w) (files w) cmd with
       | inl e => (Raise e, record (ERun cmd (inl e)) w)
       | inr (p, fs) => (Ret p, record (ERun cmd (inr p)) (set_files fs w))
       end.

(** One call of [requests]: a response, or the transport's exception. *)
Definition requests_send (req : request) : M response :=
  λ w, match server w (log w) req with
       | inl e => (Raise e, record (EHttp req (inl e)) w)
       | inr r => (Ret r, record (EHttp req (inr r)) w)
       end.

(** [open(path).read()] and the like: the whole content of a file. *)
Definition read_file (path : string) : M string :=
  λ w, match files w !! path with
       | Some c => (Ret c, w)
       | None => (Raise (Exn FileNotFoundError
                          ("[Errno 2] No such file or directory: '"
                           +:+ path +:+ "'")), w)
       end.

(** [open(path, 'w')] followed by writing [c] and closing. *)
Definition write_file (path c : string) : M unit :=
  λ w, (Ret tt, set_files (<[path := c]> (files w)) w).

(** [response.json()]. *)
Definition response_json (r : response) : M json :=
  match body_json r with
  | Some j => mret j
  | None => raise (Exn JSONDecodeError
                     "Expecting value: line 1 column 1 (char 0)")
  end.

(** [j.get(key)] on a decoded document: only a dict has the method. *)
Definition json_get (j : json) (key : string) : M json :=
  match j with
  | JObj o => mret (default JNull (o !! key))
  | JArr _ => raise (Exn AttributeError "'list' object has no attribute 'get'")
  | JStr _ => raise (Exn AttributeError "'str' object has no attribute 'get'")
  | JInt _ => raise (Exn AttributeError "'int' object has no attribute 'get'")
  | JBool _ => raise (Exn AttributeError "'bool' object has no attribute 'get'")
  | JNull => raise (Exn AttributeError
                      "'NoneType' object has no attribute 'get'")
  end.

(** [urllib.parse.urlparse]: the two components the script reads. *)
Record ParseResult := Parsed { scheme : string; netloc : string }.

(** A library call that returns or raises, run inside the script. *)
Definition lift {A} (r : exn + A) : M A :=
  match r with
  | inl e => raise e
  | inr a => mret a
  end.

(** ** Regular expressions: the fragment of Python's [re] the script uses

    A backtracking matcher with Python's priorities: alternatives are tried
    in order, a greedy repetition takes the longest run first, a lazy one
    the shortest.  Repetition applies to character classes, which is all
    the script's patterns repeat. *)

Module Re.

Definition chars (s : string) : list ascii := list_ascii_of_string s.
Definition text (l : list ascii) : string := string_of_list_ascii l.

(** A character class. *)
Inductive cset :=
| OneOf (cs : list ascii)
| NoneOf (cs : list ascii)
| NotSpace.

Definition elem (c : ascii) (cs : list ascii) : bool :=
  existsb (Ascii.eqb c) cs.

Definition mem (cl : cset) (c : ascii) : bool :=
  match cl with
  | OneOf cs => elem c cs
  | NoneOf cs => negb (elem c cs)
  | NotSpace => negb (Str.isspace c)
  end.

Inductive regex :=
| Lit (l : string)
| In (cl : cset)
| Rep (cl : cset) (min : nat) (greedy : bool)
| Seq (r1 r2 : regex)
| Group (n : nat) (r : regex)
| Opt (r : regex)
| Eos.

(** A pattern written as the sequence of its items. *)
Definition seq (rs : list regex) : regex := foldr Seq (Lit EmptyString) rs.

(** The number of capturing groups. *)
Fixpoint groups (r : regex) : nat :=
  match r with
  | Seq r1 r2 => Nat.max (groups r1) (groups r2)
  | Group n r1 => Nat.max n (groups r1)
  | Opt r1 => groups r1
  | _ => 0%nat
  end.

(** [s] without the prefix [p], when it starts with it. *)
Fixpoint strip_prefix (p s : list ascii) : option (list ascii) :=
  match p, s with
  | [], _ => Some s
  | a :: p', b :: s' => if Ascii.eqb a b then strip_prefix p' s' else None
  | _ :: _, [] => None
  end.

Abbreviation groupmap := (gmap nat (list ascii)).

Section Matcher.

Context {R : Type}.

(** [cl{min,}] followed by [k]. *)
Fixpoint rep (cl : cset) (greedy : bool) (k : list ascii → option R)
    (min : nat) (s : list ascii) : option R :=
  if greedy then
    match
      match s with
      | c :: s' => if mem cl c then rep cl greedy k (Nat.pred min) s'
                   else None
      | [] => None
      end
    with
    | Some x => Some x
    | None => match min with O => k s | S _ => None end
    end
  else
    match match min with O => k s | S _ => None end with
    | Some x => Some x
    | None =>
        match s with
        | c :: s' => if mem cl c then rep cl greedy k (Nat.pred min) s'
                     else None
        | [] => None
        end
    end.

(** [r] at the start of [s], then [k] on the rest; [g] holds the groups
    closed so far. *)
Fixpoint run (r : regex) (s : list ascii) (g : groupmap)
    (k : list ascii → groupmap → option R) : option R :=
  match r with
  | Lit l =>
      match strip_prefix (chars l) s with
      | Some s' => k s' g
      | None => None
      end
  | In cl =>
      match s with
      | c :: s' => if mem cl c then k s' g else None
      | [] => None
      end
  | Rep cl min greedy => rep cl greedy (λ s', k s' g) min s
  | Seq r1 r2 => run r1 s g (λ s' g', run r2 s' g' k)
  | Group n r1 =>
      run r1 s g
        (λ s' g', k s' (<[n := take (length s - length s') s]> g'))
  | Opt r1 =>
      match run r1 s g k with
      | Some x => Some x
      | None => k s g
      end
  | Eos =>
      match s with
      | [] => k s g
      | [c] => if Ascii.eqb c Str.LF then k s g else None
      | _ => None
      end
  end.

End Matcher.

(** A match of [r] at the start of [s]: its length and groups, group 0
    being the whole match.  With [must_advance] an empty match is
    refused. *)
Definition match_here (must_advance : bool) (r : regex) (s : list ascii)
    : option (nat * groupmap) :=
  run r s ∅
    (λ s' g,
       if must_advance && (length s' =? length s)%nat then None
       else Some ((length s - length s')%nat,
                  <[0%nat := take (length s - length s') s]> g)).

(** The leftmost match at or after the start of [s], [i] characters in. *)
Fixpoint search_from (r : regex) (i : nat) (s : list ascii)
    : option (nat * nat * groupmap) :=
  match match_here false r s with
  | Some (n, g) => Some (i, n, g)
  | None =>
      match s with
      | _ :: s' => search_from r (S i) s'
      | [] => None
      end
  end.

(** [re.search(pattern, s)]: the groups of the leftmost match. *)
Definition search (r : regex) (s : string) : option groupmap :=
  match search_from r 0 (chars s) with
  | Some (_, _, g) => Some g
  | None => None
  end.

(** [match.group(n)]; [None] for a group that took no part. *)
Definition group (g : groupmap) (n : nat) : option string :=
  text <$> g !! n.

(** *** Replacement templates ([re._parser.parse_template], CPython 3.12) *)

Inductive piece :=
| PLit (c : ascii)
| PGroup (n : nat).

(** [re.error]; of its message the part before the position is kept. *)
Definition error (msg : string) : exn := Exn ReError msg.

Definition digit_val (c : ascii) : N := N.of_nat (Str.code c - 48).

Definition number (base : N) (ds : list ascii) : N :=
  fold_left (λ acc d, acc * base + digit_val d)%N ds 0%N.

Fixpoint span (p : ascii → bool) (s : list ascii)
    : list ascii * list ascii :=
  match s with
  | c :: s' =>
      if p c then let '(a, b) := span p s' in (c :: a, b) else ([], s)
  | [] => ([], [])
  end.

(** Letters of Latin-1 that may start an identifier, besides [A-Za-z_]. *)
Definition xid_start (c : ascii) : bool :=
  let n := Str.code c in
  (Str.isalpha_ascii c || (n =? 95) || (n =? 170) || (n =? 181)
   || (n =? 186) || (192 <=? n) && (n <=? 214)
   || (216 <=? n) && (n <=? 246) || (248 <=? n))%nat.

Definition xid_continue (c : ascii) : bool :=
  xid_start c || Str.isdigit c || (Str.code c =? 183)%nat.

Definition isidentifier (name : list ascii) : bool :=
  match name with
  | c :: rest => xid_start c && forallb xid_continue rest
  | [] => false
  end.

(** The character an escape letter stands for. *)
Definition escape (c : ascii) : option ascii :=
  match Str.code c with
  | 97 => Some (Str.chr 7)
  | 98 => Some (Str.chr 8)
  | 102 => Some (Str.chr 12)
  | 110 => Some (Str.chr 10)
  | 114 => Some (Str.chr 13)
  | 116 => Some (Str.chr 9)
  | 118 => Some (Str.chr 11)
  | 92 => Some Str.backslash
  | _ => None
  end%nat.

Definition add_group (ngroups : nat) (index : N)
    (rest : exn + list piece) : exn + list piece :=
  if (N.of_nat ngroups <? index)%N
  then inl (error "invalid group reference")
  else match rest with
       | inl e => inl e
       | inr ps => inr (PGroup (N.to_nat index) :: ps)
       end.

Definition add_lit (c : ascii) (rest : exn + list piece)
    : exn + list piece :=
  match rest with
  | inl e => inl e
  | inr ps => inr (PLit c :: ps)
  end.

(** The tokenizer reads one token ahead: the token after the one being
    taken is formed at once, and a backslash that ends the template has
    nothing to form it with. *)
Definition dangling (s : list ascii) : bool :=
  match s with
  | [c] => Ascii.eqb c Str.backslash
  | _ => false
  end.

Definition end_of_pattern : exn := error "bad escape (end of pattern)".

(** [Tokenizer.getuntil] up to the closing angle bracket: the name read
    so far is [name]; a backslash takes the next character with it. *)
Fixpoint getuntil (name s : list ascii)
    : exn + (list ascii * list ascii) :=
  match s with
  | [] =>
      match name with
      | [] => inl (error "missing group name")
      | _ => inl (error "missing >, unterminated name")
      end
  | c :: s1 =>
      if Ascii.eqb c Str.backslash then
        match s1 with
        | [] => inl end_of_pattern
        | c1 :: s2 =>
            if dangling s2 then inl end_of_pattern
            else getuntil (name ++ [c; c1]) s2
        end
      else if dangling s1 then inl end_of_pattern
      else if Ascii.eqb c ">" then
        match name with
        | [] => inl (error "missing group name")
        | _ => inr (name, s1)
        end
      else getuntil (name ++ [c]) s1
  end.

Definition octal (ds : list ascii) : ascii :=
  Str.chr (N.to_nat (number 8 ds mod 256)).

(** Every round consumes a character, so the length of the template
    bounds the rounds; [parse_template] below starts with more. *)
Fixpoint parse_template_rounds (rounds ngroups : nat) (s : list ascii)
    : exn + list piece :=
  match rounds with
  | O => inr []
  | S rounds =>
      let continue := parse_template_rounds rounds ngroups in
      match s with
      | [] => inr []
      | c :: s1 =>
          if negb (Ascii.eqb c Str.backslash) then
            if dangling s1 then inl end_of_pattern
            else add_lit c (continue s1)
          else
            match s1 with
            | [] => inl end_of_pattern
            | c1 :: s2 =>
                if dangling s2 then inl end_of_pattern
                else if Ascii.eqb c1 "g" then
                  match s2 with
                  | "<"%char :: s3 =>
                      if dangling s3 then inl end_of_pattern
                      else
                        match getuntil [] s3 with
                        | inl e => inl e
                        | inr (name, rest) =>
                            if forallb Str.isdigit name
                            then add_group ngroups (number 10 name)
                                   (continue rest)
                            else if isidentifier name
                            then inl (Exn IndexError "unknown group name")
                            else inl (error "bad character in group name")
                        end
                  | _ => inl (error "missing <")
                  end
                else if Ascii.eqb c1 "0" then
                  match s2 with
                  | d1 :: s3 =>
                      if Str.isoctdigit d1 then
                        if dangling s3 then inl end_of_pattern
                        else
                          match s3 with
                          | d2 :: s4 =>
                              if Str.isoctdigit d2 then
                                if dangling s4 then inl end_of_pattern
                                else add_lit (octal [d1; d2]) (continue s4)
                              else add_lit (octal [d1]) (continue s3)
                          | [] => add_lit (octal [d1]) (continue s3)
                          end
                      else add_lit (octal []) (continue s2)
                  | [] => add_lit (octal []) (continue s2)
                  end
                else if Str.isdigit c1 then
                  match s2 with
                  | d1 :: s3 =>
                      if Str.isdigit d1 then
                        if dangling s3 then inl end_of_pattern
                        else
                          match s3 with
                          | d2 :: s4 =>
                              if Str.isoctdigit c1 && Str.isoctdigit d1
                                 && Str.isoctdigit d2
                              then
                                if dangling s4 then inl end_of_pattern
                                else if (255 <? number 8 [c1; d1; d2])%N
                                then inl (error "octal escape value outside of range 0-0o377")
                                else add_lit (octal [c1; d1; d2])
                                       (continue s4)
                              else add_group ngroups (number 10 [c1; d1])
                                     (continue s3)
                          | [] => add_group ngroups (number 10 [c1; d1])
                                    (continue s3)
                          end
                      else add_group ngroups (number 10 [c1]) (continue s2)
                  | [] => add_group ngroups (number 10 [c1]) (continue s2)
                  end
                else
                  match escape c1 with
                  | Some e => add_lit e (continue s2)
                  | None =>
                      if Str.isalpha_ascii c1 then inl (error "bad escape")
                      else add_lit c (add_lit c1 (continue s2))
                  end
            end
      end
  end.

Definition parse_template (ngroups : nat) (s : list ascii)
    : exn + list piece :=
  if dangling s then inl end_of_pattern
  else parse_template_rounds (S (length s)) ngroups s.

(** The replacement text of one match; a group that took no part gives
    the empty string. *)
Definition expand (ps : list piece) (g : groupmap) : list ascii :=
  flat_map (λ p, match p with
                 | PLit c => [c]
                 | PGroup n => default [] (g !! n)
                 end) ps.

(** *** Substitution ([pattern_subx] of [_sre])

    [subx r ps skip s] is the output from a position on, [s] being the
    text from there: [skip] characters still belong to the last match.
    After an empty match the same position is tried once more for a
    match that advances. *)
Fixpoint subx (r : regex) (ps : list piece) (skip : nat) (s : list ascii)
    : list ascii :=
  match skip with
  | S k =>
      match s with
      | _ :: s' => subx r ps k s'
      | [] => []
      end
  | O =>
      match match_here false r s with
      | Some (S n, g) =>
          expand ps g ++
          match s with
          | _ :: s' => subx r ps n s'
          | [] => []
          end
      | Some (O, g) =>
          expand ps g ++
          match s with
          | [] => []
          | c :: s' =>
              match match_here true r s with
              | Some (S n, g') => expand ps g' ++ subx r ps n s'
              | _ => c :: subx r ps 0 s'
              end
          end
      | None =>
          match s with
          | [] => []
          | c :: s' => c :: subx r ps 0 s'
          end
      end
  end.

(** [re.sub(pattern, repl, s)]: the template is compiled before the text
    is searched, so a malformed template raises whatever the text is. *)
Definition sub (r : regex) (repl s : string) : exn + string :=
  match parse_template (groups r) (chars repl) with
  | inl e => inl e
  | inr ps => inr (text (subx r ps 0 (chars s)))
  end.

End Re.

(** ** Library functions the script calls *)

(** [str(n)] for an [int]. *)
Definition str_of_int (n : Z) : string := NilZero.string_of_int (Z.to_int n).

(** [int(s)] for a [str]: white space around, a sign, decimal digits with
    single underscores between them. *)
Module PyInt.

Fixpoint digits (acc : Z) (after_digit : bool) (s : string) : option Z :=
  match s with
  | EmptyString => if after_digit then Some acc else None
  | String c s' =>
      if Str.isdigit c
      then digits (10 * acc + Z.of_nat (Str.code c - 48)) true s'
      else if Ascii.eqb c "_" && after_digit
      then match s' with
           | String d _ => if Str.isdigit d then digits acc false s'
                           else None
           | EmptyString => None
           end
      else None
  end.

Definition parse (s : string) : exn + Z :=
  let bad := inl (Exn ValueError
                    ("invalid literal for int() with base 10: '" +:+ s
                     +:+ "'")) in
  match Str.strip s with
  | String "-" ds => match digits 0 false ds with
                     | Some n => inr (- n)
                     | None => bad
                     end
  | String "+" ds => match digits 0 false ds with
                     | Some n => inr n
                     | None => bad
                     end
  | ds => match digits 0 false ds with
          | Some n => inr n
          | None => bad
          end
  end.

End PyInt.

(** [base64.b64encode(data).decode('utf-8')]. *)
Module Base64.

Definition alphabet : string :=
  "ABCDEFGHIJKLMNOPQRSTUVWXYZabcdefghijklmnopqrstuvwxyz0123456789+/".

Definition digit (n : nat) : ascii :=
  default "="%char (String.get n alphabet).

Fixpoint encode (bs : list ascii) : list ascii :=
  match bs with
  | [] => []
  | [a] =>
      let x := Str.code a in
      [digit (x / 4); digit (x mod 4 * 16); "="%char; "="%char]
  | [a; b] =>
      let x := Str.code a in
      let y := Str.code b in
      [digit (x / 4); digit (x mod 4 * 16 + y / 16);
       digit (y mod 16 * 4); "="%char]
  | a :: b :: c :: rest =>
      let x := Str.code a in
      let y := Str.code b in
      let z := Str.code c in
      digit (x / 4) :: digit (x mod 4 * 16 + y / 16)
      :: digit (y mod 16 * 4 + z / 64) :: digit (z mod 64) :: encode rest
  end%nat.

Definition b64encode (data : string) : string :=
  string_of_list_ascii (encode (list_ascii_of_string data)).

End Base64.

(** [os.path.basename] on POSIX: what follows the last slash. *)
Fixpoint basename (p : string) : string :=
  match p with
  | EmptyString => EmptyString
  | String c p' =>
      if Str.contains "/" p then basename p' else p
  end.

(** [f.readlines()]: the lines of a text, each with its line feed. *)
Fixpoint readlines (s : string) : list string :=
  match s with
  | EmptyString => []
  | String c s' =>
      if Ascii.eqb c Str.LF then Str.NL :: readlines s'
      else match readlines s' with
           | [] => [Str.str1 c]
           | l :: ls => String c l :: ls
           end
  end.

(** What [f.writelines(lines)] leaves in the file. *)
Definition writelines (lines : list string) : string := Str.join lines.

(** ** The script *)

Definition README_PATH : string := "README.md".
Definition SHORTCUT_PATH : string := "MessageDict.shortcut".

Section Script.

(** [urlparse] of the Python installation that runs the script. *)
Variable urlparse : string → exn + ParseResult.

Definition token_diagnostic : string :=
  "This looks like a GitHub token, not a shortcut URL. Please enter the iCloud Shortcuts URL (e.g., https://www.icloud.com/shortcuts/...)".

Definition validate_url (url : string) : M (bool * option string) :=
  if negb (Str.truthy url) then mret (false, Some "URL is empty")
  else if Str.startswith url "github_pat_" || Str.startswith url "ghp_"
  then mret (false, Some token_diagnostic)
  else
    try_except
      (parsed ← lift (urlparse url);
       if negb (Str.truthy (scheme parsed))
          || negb (Str.truthy (netloc parsed))
       then mret (false,
                  Some "Invalid URL format. Please include http:// or https://")
       else if negb (Str.contains "icloud.com/shortcuts" (Str.lower url))
               && negb (Str.contains "shortcuts" (Str.lower url))
       then
         print "⚠️  Warning: This doesn't look like an iCloud Shortcuts URL.";;
         print "   Expected format: https://www.icloud.com/shortcuts/...";;
         response ← input "   Continue anyway? (y/n): ";
         let response := Str.lower (Str.strip response) in
         if negb (String.eqb response "y")
         then mret (false, Some "URL validation cancelled by user")
         else mret (true, None)
       else mret (true, None))
      (λ e, mret (false, Some ("Invalid URL: " +:+ exn_str e))).

(** *** [run_command] *)

Definition run_command (cmd : string) (check : bool) : M string :=
  result ← subprocess_run cmd;
  if check && negb (returncode result =? 0) then
    print ("Error running command: " +:+ cmd);;
    print ("Error output: " +:+ stderr result);;
    sys_exit 1
  else mret (Str.strip (stdout result)).

(** *** [get_github_repo] *)

(** The part both patterns share:
    [github\.com[:/]([^/]+)/([^/]+?)(?:\.git)?]. *)
Definition repo_pattern_head : list Re.regex :=
  [Re.Lit "github.com";
   Re.In (Re.OneOf [":"; "/"]%char);
   Re.Group 1 (Re.Rep (Re.NoneOf ["/"%char]) 1 true);
   Re.Lit "/";
   Re.Group 2 (Re.Rep (Re.NoneOf ["/"%char]) 1 false);
   Re.Opt (Re.Lit ".git")].

Definition patterns : list Re.regex :=
  [Re.seq (repo_pattern_head ++ [Re.Eos]);
   Re.seq (repo_pattern_head ++ [Re.Opt (Re.Lit "/"); Re.Eos])].

(** An optional string inside an f-string. *)
Definition fstr_opt (o : option string) : string := default "None" o.

(** The loop over the patterns: the first that matches returns. *)
Fixpoint first_match (ps : list Re.regex) (remote_url : string)
    : option string :=
  match ps with
  | pattern :: ps' =>
      match Re.search pattern remote_url with
      | Some m => Some (fstr_opt (Re.group m 1) +:+ "/"
                        +:+ fstr_opt (Re.group m 2))
      | None => first_match ps' remote_url
      end
  | [] => None
  end.

Definition get_github_repo : M string :=
  remote_url ← run_command "git remote get-url origin" false;
  if negb (Str.truthy remote_url) then
    print "Error: No git remote found. Please set up git remote.";;
    sys_exit 1
  else
    match first_match patterns remote_url with
    | Some repo => mret repo
    | None =>
        print ("Error: Could not parse GitHub repo from remote: "
               +:+ remote_url);;
        sys_exit 1
    end.

(** *** The document patcher *)

(** [(\*\*Install MessageDict:\*\* )https://[^\s]+] *)
Definition link_pattern : Re.regex :=
  Re.seq [Re.Group 1 (Re.Lit "**Install MessageDict:** ");
          Re.Lit "https://";
          Re.Rep Re.NotSpace 1 true].

(** The image tag up to its source, and what follows the source. *)
Definition img_open : string := "<img src=" +:+ Str.DQ.
Definition img_alt : string :=
  Str.DQ +:+ " alt=" +:+ Str.DQ +:+ "MessageDict QR Code" +:+ Str.DQ.

(** The pattern of [replace_readme_qr_code]: group 1 is [img_open], then
    one or more characters other than the double quote, then group 2:
    [img_alt], any characters other than [>], and [>]. *)
Definition qr_pattern : Re.regex :=
  Re.seq [Re.Group 1 (Re.Lit img_open);
          Re.Rep (Re.NoneOf [Str.dquote]) 1 true;
          Re.Group 2 (Re.seq [Re.Lit img_alt;
                              Re.Rep (Re.NoneOf [">"%char]) 0 true;
                              Re.Lit ">"])].

(** The loop [for i, line in enumerate(lines)]: [todo] are the lines not
    yet visited, [i] the index of the first of them. *)
Fixpoint patch_loop (pattern : Re.regex) (repl : string) (line_number : Z)
    (i : nat) (todo lines : list string) : exn + list string :=
  match todo with
  | [] => inr lines
  | line :: todo' =>
      if Z.of_nat i + 1 =? line_number then
        match Re.sub pattern repl line with
        | inl e => inl e
        | inr line' => inr (<[i := line']> lines)
        end
      else patch_loop pattern repl line_number (S i) todo' lines
  end.

Definition patch_lines (pattern : Re.regex) (repl : string)
    (line_number : Z) (lines : list string) : exn + list string :=
  patch_loop pattern repl line_number 0 lines lines.

Definition replace_readme_link (new_link : string) (line_number : Z)
    : M unit :=
  print ("📝 Replacing link at line " +:+ str_of_int line_number +:+ "...");;
  lines ← readlines <$> read_file README_PATH;
  lines ← lift (patch_lines link_pattern (Str.BS +:+ "1" +:+ new_link)
                  line_number lines);
  write_file README_PATH (writelines lines);;
  print "✅ Link replaced in README.md".

Definition replace_readme_qr_code (new_qr_url : string) (line_number : Z)
    : M unit :=
  print ("📝 Replacing QR code image at line " +:+ str_of_int line_number
         +:+ "...");;
  lines ← readlines <$> read_file README_PATH;
  lines ← lift (patch_lines qr_pattern
                  (Str.BS +:+ "1" +:+ new_qr_url +:+ Str.BS +:+ "2")
                  line_number lines);
  write_file README_PATH (writelines lines);;
  print "✅ QR code image URL replaced in README.md".

(** *** [upload_qr_to_github] *)

(** Truth value of an optional string: [None] and the empty string are
    false. *)
Definition truthy_opt (o : option string) : bool :=
  match o with
  | Some s => Str.truthy s
  | None => false
  end.

(** [a, b = parts]. *)
Definition unpack2 (parts : list string) : M (string * string) :=
  match parts with
  | [a; b] => mret (a, b)
  | [] | [_] =>
      raise (Exn ValueError
               ("not enough values to unpack (expected 2, got "
                +:+ str_of_int (Z.of_nat (length parts)) +:+ ")"))
  | _ => raise (Exn ValueError "too many values to unpack (expected 2)")
  end.

Definition default_branch_cmd : string :=
  "git symbolic-ref refs/remotes/origin/HEAD | sed 's@^refs/remotes/origin/@@'".

Definition api_headers (token : string) : gmap string string :=
  {[ "Authorization" := "Bearer " +:+ token;
     "Accept" := "application/vnd.github.v3+json" ]}.

Definition raw_url (owner repo_name default_branch file_path : string)
    : string :=
  "https://raw.githubusercontent.com/" +:+ owner +:+ "/" +:+ repo_name
  +:+ "/" +:+ default_branch +:+ "/" +:+ file_path.

Definition upload_qr_to_github (repo : string) (token : option string)
    (qr_path branch : string) : M (option string) :=
  if negb (truthy_opt token) then mret None
  else
    print "📤 Uploading QR code to GitHub...";;
    default_branch ←
      try_bare
        (default_branch ← run_command default_branch_cmd false;
         if negb (Str.truthy default_branch) then mret branch
         else mret default_branch)
        (mret branch);
    content ← Base64.b64encode <$> read_file qr_path;
    let asset_name := basename qr_path in
    let file_path := "assets/" +:+ asset_name in
    let url := "https://api.github.com/repos/" +:+ repo +:+ "/contents/"
               +:+ file_path in
    let headers := api_headers (default "" token) in
    response ← requests_send (Request GET url headers NoPayload);
    sha ← (if status_code response =? 200
           then j ← response_json response; json_get j "sha"
           else mret JNull);
    let data : gmap string json :=
      {[ "message" := JStr ("Add QR code: " +:+ asset_name);
         "content" := JStr content;
         "branch" := JStr default_branch ]} in
    let data := if json_truthy sha then <["sha" := sha]> data else data in
    response ← requests_send (Request PUT url headers (JsonPayload data));
    if (status_code response =? 200) || (status_code response =? 201) then
      file_data ← response_json response;
      '(owner, repo_name) ← unpack2 (Str.split "/" repo);
      let download_url := raw_url owner repo_name default_branch file_path in
      print ("✅ QR code uploaded: " +:+ download_url);;
      mret (Some download_url)
    else
      let error_msg := text response in
      (if status_code response =? 403 then
         print "⚠️  Failed to upload QR code (403 Forbidden):";;
         print "   Your GitHub token may not have the required permissions.";;
         print "   Required scope: 'repo' (full control of private repositories)";;
         print "   Check your token at: https://github.com/settings/tokens";;
         print ("   Error details: " +:+ error_msg)
       else print ("⚠️  Failed to upload QR code: " +:+ error_msg));;
      mret None.

(** *** [create_github_release] *)

(** [j[key]] on a decoded document. *)
Definition json_index (j : json) (key : string) : M json :=
  match j with
  | JObj o =>
      match o !! key with
      | Some v => mret v
      | None => raise (Exn KeyError ("'" +:+ key +:+ "'"))
      end
  | JArr _ =>
      raise (Exn TypeError "list indices must be integers or slices, not str")
  | JStr _ => raise (Exn TypeError "string indices must be integers")
  | JInt _ => raise (Exn TypeError "'int' object is not subscriptable")
  | JBool _ => raise (Exn TypeError "'bool' object is not subscriptable")
  | JNull => raise (Exn TypeError "'NoneType' object is not subscriptable")
  end.

(** A decoded value inside an f-string; a list or a dict is abbreviated,
    the script only prints it. *)
Definition fstr_json (j : json) : string :=
  match j with
  | JNull => "None"
  | JBool true => "True"
  | JBool false => "False"
  | JInt z => str_of_int z
  | JStr s => s
  | JArr _ => "[...]"
  | JObj _ => "{...}"
  end.

(** [j.split('{')[0]]: only a string has the method. *)
Definition before_brace (j : json) : M string :=
  match j with
  | JStr s => mret (default "" (head (Str.split "{" s)))
  | _ => raise (Exn AttributeError "object has no attribute 'split'")
  end.

(** [os.path.exists(path)]. *)
Definition path_exists (path : string) : M bool :=
  λ w, (Ret (bool_decide (is_Some (files w !! path))), w).

Definition create_github_release (repo tag name body : string)
    (token asset_path : option string) : M json :=
  if negb (truthy_opt token) then
    print "⚠️  GITHUB_TOKEN not set. Skipping GitHub release creation.";;
    mret JNull
  else
    print ("📦 Creating GitHub release: " +:+ tag +:+ "...");;
    let url := "https://api.github.com/repos/" +:+ repo +:+ "/releases" in
    let headers := api_headers (default "" token) in
    let data : gmap string json :=
      {[ "tag_name" := JStr tag;
         "name" := JStr name;
         "body" := JStr body;
         "draft" := JBool false;
         "prerelease" := JBool false ]} in
    response ← requests_send (Request POST url headers (JsonPayload data));
    if status_code response =? 201 then
      release_data ← response_json response;
      html_url ← json_index release_data "html_url";
      print ("✅ Release created: " +:+ fstr_json html_url);;
      present ← (if truthy_opt asset_path
                 then path_exists (default "" asset_path)
                 else mret false);
      if present : bool then
        let asset_path := default "" asset_path in
        upload_url ← json_index release_data "upload_url" ≫= before_brace;
        let asset_name := basename asset_path in
        f ← read_file asset_path;
        upload_response ←
          requests_send
            (Request POST (upload_url +:+ "?name=" +:+ asset_name)
               {[ "Authorization" := "Bearer " +:+ default "" token;
                  "Content-Type" := "image/png" ]}
               (FilesPayload "file" asset_name f "image/png"));
        if status_code upload_response =? 201 then
          print ("✅ Asset uploaded to release: " +:+ asset_name);;
          j ← response_json upload_response;
          json_get j "browser_download_url"
        else
          print ("⚠️  Failed to upload asset: " +:+ text upload_response);;
          json_index release_data "html_url"
      else json_index release_data "html_url"
    else
      print ("⚠️  Failed to create release: " +:+ text response);;
      (if status_code response =? 422
       then print "   Release might already exist. Continuing..."
       else mret tt);;
      mret JNull.

(** *** [commit_and_push] and [create_tag] *)

Definition commit_and_push (commit_message : string) : M unit :=
  print "💾 Committing changes...";;
  run_command "git add ." true;;
  run_command ("git commit -m " +:+ Str.DQ +:+ commit_message +:+ Str.DQ)
    true;;
  print "📤 Pushing to git...";;
  run_command "git push origin main || git push origin master" true;;
  mret tt.

Definition git_tag_cmd (tag_name : string) : string :=
  "git tag -a " +:+ Str.DQ +:+ tag_name +:+ Str.DQ +:+ " -m " +:+ Str.DQ
  +:+ tag_name +:+ Str.DQ.

Definition git_push_tag_cmd (tag_name : string) : string :=
  "git push origin " +:+ Str.DQ +:+ tag_name +:+ Str.DQ.

Definition create_tag (tag_name : string) : M unit :=
  print ("🏷️  Creating tag: " +:+ tag_name +:+ "...");;
  run_command (git_tag_cmd tag_name) true;;
  run_command (git_push_tag_cmd tag_name) true;;
  print ("✅ Tag created and pushed: " +:+ tag_name).

(** *** [pull_latest], [download_file], [generate_qr_code] *)

Definition pull_latest : M unit :=
  print "🔍 Checking if we're on the latest version...";;
  run_command "git fetch origin" false;;
  current_branch ← run_command "git branch --show-current" false;
  current_branch ←
    (if negb (Str.truthy current_branch) then
       current_branch ←
         run_command
           "git symbolic-ref refs/remotes/origin/HEAD 2>/dev/null | sed 's@^refs/remotes/origin/@@'"
           false;
       if negb (Str.truthy current_branch) then mret "main"
       else mret current_branch
     else mret current_branch);
  behind ← run_command ("git rev-list HEAD..origin/" +:+ current_branch
                        +:+ " 2>/dev/null | wc -l") false;
  let behind := if Str.truthy behind then Str.strip behind else "0" in
  is_behind ← (if Str.truthy behind
               then n ← lift (PyInt.parse behind); mret (0 <? n)
               else mret false);
  if is_behind : bool then
    print ("⚠️  You are " +:+ behind +:+ " commit(s) behind origin/"
           +:+ current_branch);;
    response ← input "Do you want to pull the latest changes? (y/n): ";
    let response := Str.lower (Str.strip response) in
    if String.eqb response "y" then
      print "📥 Pulling latest version from git...";;
      run_command ("git pull origin " +:+ current_branch) true;;
      print "✅ Pulled latest changes"
    else print "⏭️  Skipping pull. Continuing with current version..."
  else print "✅ You are already on the latest version".

(** [response.raise_for_status()]. *)
Definition raise_for_status (r : response) : M unit :=
  if (400 <=? status_code r) && (status_code r <? 600)
  then raise (Exn HTTPError (str_of_int (status_code r) +:+ " Error"))
  else mret tt.

Definition download_file (url output_path : string) : M unit :=
  print ("📥 Downloading file from " +:+ url +:+ "...");;
  response ← requests_send (Request GET url ∅ NoPayload);
  raise_for_status response;;
  write_file output_path (content response);;
  print ("✅ Downloaded to " +:+ output_path).

(** The image the [qrcode] library renders for [data]. *)
Definition qr_make_image (data : string) : M string :=
  λ w, match qr_image w data with
       | inl e => (Raise e, w)
       | inr img => (Ret img, w)
       end.

Definition generate_qr_code (url output_path : string) : M unit :=
  print ("🔲 Generating QR code for " +:+ url +:+ "...");;
  img ← qr_make_image url;
  write_file output_path img;;
  print ("✅ QR code saved to " +:+ output_path).

(** *** [main] *)

(** [tempfile.NamedTemporaryFile(delete=False, ...)], closed at once: a
    fresh empty file, and its name. *)
Definition named_temporary_file : M string :=
  λ w, let path := mkstemp w (log w) (files w) in
       (Ret path, set_files (<[path := ""]> (files w)) w).

(** [os.remove(path)]. *)
Definition os_remove (path : string) : M unit :=
  λ w, (Ret tt, set_files (delete path (files w)) w).

(** Step 2, the loop [while True] that asks for the link.  Every round
    reads a line, so [rounds] need not exceed the lines left on
    standard input by more than one. *)
Fixpoint ask_shortcut_url (rounds : nat) : M string :=
  match rounds with
  | O => raise (Exn EOFError "EOF when reading a line")
  | S rounds =>
      shortcut_url ←
        Str.strip <$> input (Str.NL +:+ "🔗 Enter the new shortcut URL: ");
      if negb (Str.truthy shortcut_url) then
        print "Error: No URL provided.";;
        ask_shortcut_url rounds
      else
        '(is_valid, error_msg) ← validate_url shortcut_url;
        if is_valid : bool then mret shortcut_url
        else
          print ("❌ " +:+ fstr_opt error_msg);;
          print ("   Please try again." +:+ Str.NL);;
          ask_shortcut_url rounds
  end.

(** Steps 7 to 12 of [main]: the version information, the commit, the
    tag, the release and the removal of the temporary file. *)
Definition main_release (GITHUB_TOKEN : option string)
    (repo qr_code_path : string) : M unit :=
  print (Str.NL +:+ "📋 Version Information:");;
  version_name ← Str.strip <$> input "Enter version name: ";
  tag ← Str.strip <$> input "Enter tag: ";
  changes ← Str.strip <$> input "Enter changes (commit message): ";
  if negb (Str.truthy version_name) || negb (Str.truthy tag)
     || negb (Str.truthy changes)
  then
    print "Error: Version name, tag, and changes are required.";;
    sys_exit 1
  else
    let full_tag := version_name +:+ " " +:+ tag in
    commit_and_push changes;;
    create_tag full_tag;;
    (if truthy_opt GITHUB_TOKEN then
       create_github_release repo full_tag full_tag changes GITHUB_TOKEN
         (Some qr_code_path);;
       mret tt
     else mret tt);;
    try_except
      (present ← path_exists qr_code_path;
       if present : bool then
         os_remove qr_code_path;;
         print "🧹 Cleaned up temporary QR code file"
       else mret tt)
      (λ e, print ("⚠️  Warning: Could not delete temporary QR code file: "
                   +:+ exn_str e));;
    print (Str.NL +:+ "✅ Upload process completed!").

Definition main (GITHUB_TOKEN : option string) : M unit :=
  print ("🚀 Starting MessageDict upload process..." +:+ Str.NL);;
  pull_latest;;
  shortcut_url ← (λ w, ask_shortcut_url (S (length (stdin w))) w);
  download_file shortcut_url SHORTCUT_PATH;;
  replace_readme_link shortcut_url 57;;
  qr_code_path ← named_temporary_file;
  generate_qr_code shortcut_url qr_code_path;;
  repo ← get_github_repo;
  print ("📦 Detected GitHub repo: " +:+ repo);;
  (if truthy_opt GITHUB_TOKEN then
     qr_download_url ←
       upload_qr_to_github repo GITHUB_TOKEN qr_code_path "main";
     if truthy_opt qr_download_url
     then replace_readme_qr_code (default "" qr_download_url) 59
     else print "⚠️  QR code upload failed. Will continue without updating QR code URL."
   else
     print "⚠️  GITHUB_TOKEN not set. QR code not uploaded to GitHub.";;
     print "   You'll need to manually upload and update README.md line 59.");;
  main_release GITHUB_TOKEN repo qr_code_path.

End Script.

(** ** What runs before [main]: [load_secrets] *)

Definition SECRETS_FILE : string := ".secrets".

(** [s.split(sep, 1)]: what precedes the first separator and what follows
    it; the text alone when it has none. *)
Fixpoint split_once (sep : ascii) (s : string) : list string :=
  match s with
  | EmptyString => [EmptyString]
  | String c s' =>
      if Ascii.eqb c sep then [EmptyString; s']
      else match split_once sep s' with
           | w :: ws => String c w :: ws
           | [] => [Str.str1 c]
           end
  end.

(** The loop [for line in f] of [load_secrets]: [token] is the variable as
    the lines found it; the result is the variable as the loop leaves it,
    with the exception that ended the loop, if any. *)
Fixpoint scan_secrets (lines : list string) (token : option string)
    : option string * option exn :=
  match lines with
  | [] => (token, None)
  | line :: lines' =>
      let line := Str.strip line in
      if negb (Str.truthy line) || Str.startswith line "#"
      then scan_secrets lines' token
      else if Str.startswith line "GITHUB_TOKEN=" then
        match split_once "=" line !! 1%nat with
        | None => (token, Some (Exn IndexError "list index out of range"))
        | Some value =>
            let token := Str.strip value in
            if Str.truthy token then (Some token, None)
            else scan_secrets lines' (Some token)
        end
      else scan_secrets lines' token
  end.

(** The shape of a token GitHub issues, or anything long enough. *)
Definition usual_token (token : string) : bool :=
  Str.startswith token "ghp_" || Str.startswith token "github_pat_"
  || (20 <? Z.of_nat (String.length token)).

(** [environ] is the environment of the process ([os.environ]). *)
Definition load_secrets (environ : gmap string string) : M (option string) :=
  let token := environ !! "GITHUB_TOKEN" in
  token ←
    (present ← (if negb (truthy_opt token) then path_exists SECRETS_FILE
                else mret false);
     if present : bool then
       '(token, failure) ←
         try_except
           (doc ← read_file SECRETS_FILE;
            mret (scan_secrets (readlines doc) token))
           (λ e, mret (token, Some e));
       match failure with
       | Some e =>
           print ("⚠️  Warning: Could not read secrets file: " +:+ exn_str e);;
           mret token
       | None => mret token
       end
     else mret token);
  (if truthy_opt token && negb (usual_token (default "" token)) then
     print "⚠️  Warning: GitHub token format looks unusual.";;
     print "   Expected format: ghp_... or github_pat_..."
   else mret tt);;
  mret token.

(** The script as it is run: the module body loads the token, then
    [main] is called. *)
Definition program (urlparse : string → exn + ParseResult)
    (environ : gmap string string) : M unit :=
  GITHUB_TOKEN ← load_secrets environ;
  main urlparse GITHUB_TOKEN.

(** ** [urllib.parse.urlsplit], as far as scheme and host (CPython 3.12)

    The check of a bracketed host ([ipaddress.ip_address], IPvFuture) is a
    parameter: it answers [Some msg] when the host makes [urlsplit] raise
    [ValueError(msg)]. *)
Module Urllib.

Definition scheme_char (c : ascii) : bool :=
  Str.isalpha_ascii c || Str.isdigit c
  || Ascii.eqb c "+" || Ascii.eqb c "-" || Ascii.eqb c ".".

(** [url.lstrip] of the C0 control characters and the space. *)
Fixpoint lstrip_c0 (s : string) : string :=
  match s with
  | String c s' => if (Str.code c <=? 32)%nat then lstrip_c0 s' else s
  | EmptyString => EmptyString
  end.

(** Tab, carriage return and line feed are removed wherever they stand. *)
Fixpoint remove_unsafe (s : string) : string :=
  match s with
  | EmptyString => EmptyString
  | String c s' =>
      let n := Str.code c in
      if ((n =? 9) || (n =? 10) || (n =? 13))%nat then remove_unsafe s'
      else String c (remove_unsafe s')
  end.

(** The longest prefix of characters satisfying [p], and the rest. *)
Fixpoint span (p : ascii → bool) (s : string) : string * string :=
  match s with
  | String c s' =>
      if p c then let '(a, b) := span p s' in (String c a, b)
      else (EmptyString, s)
  | EmptyString => (EmptyString, EmptyString)
  end.

Fixpoint all_chars (p : ascii → bool) (s : string) : bool :=
  match s with
  | EmptyString => true
  | String c s' => p c && all_chars p s'
  end.

Definition has_char (c : ascii) (s : string) : bool :=
  negb (all_chars (λ d, negb (Ascii.eqb d c)) s).

(** The scheme before the first colon, when it is one, and what follows. *)
Definition split_scheme (url : string) : string * string :=
  match span (λ c, negb (Ascii.eqb c ":")) url with
  | (String c0 pre', String _ post) =>
      if Str.isalpha_ascii c0 && all_chars scheme_char (String c0 pre')
      then (Str.lower (String c0 pre'), post)
      else (EmptyString, url)
  | _ => (EmptyString, url)
  end.

Definition netloc_delim (c : ascii) : bool :=
  Ascii.eqb c "/" || Ascii.eqb c "?" || Ascii.eqb c "#".

Definition bracketed_host (netloc : string) : string :=
  let after := snd (span (λ c, negb (Ascii.eqb c "[")) netloc) in
  match after with
  | String _ host => fst (span (λ c, negb (Ascii.eqb c "]")) host)
  | EmptyString => EmptyString
  end.

Definition urlparse (check_bracketed_host : string → option string)
    (url : string) : exn + ParseResult :=
  let url := remove_unsafe (lstrip_c0 url) in
  let '(sch, rest) := split_scheme url in
  match rest with
  | String "/" (String "/" rest') =>
      let loc := fst (span (λ c, negb (netloc_delim c)) rest') in
      let lb := has_char "[" loc in
      let rb := has_char "]" loc in
      if lb && negb rb || rb && negb lb
      then inl (Exn ValueError "Invalid IPv6 URL")
      else if lb && rb then
        match check_bracketed_host (bracketed_host loc) with
        | Some msg => inl (Exn ValueError msg)
        | None => inr (Parsed sch loc)
        end
      else inr (Parsed sch loc)
  | _ => inr (Parsed sch EmptyString)
  end.

End Urllib.

(** ** Sample worlds *)

Module Sample.

(** [urlparse] with a host check that accepts every bracketed host. *)
Definition urlparse : string → exn + ParseResult :=
  Urllib.urlparse (λ _, None).

(** No files, no network, every command succeeds silently. *)
Definition quiet (typed : list string) : world :=
  World typed ∅ []
    (λ _ fs _, inr (Completed 0 "" "", fs))
    (λ _ _, inl (Exn ConnectionError "Network is unreachable"))
    (λ _ _, "/tmp/message_dict_qr_0.png")
    (λ _, inr "PNG").

(** The checkout of [acme/widget] over SSH: [git remote get-url origin]
    prints the remote, every other command succeeds silently. *)
Definition acme (typed : list string) (fs : gmap string string) : world :=
  World typed fs []
    (λ _ fs cmd,
       if String.eqb cmd "git remote get-url origin"
       then inr (Completed 0 ("git@github.com:acme/widget.git" +:+ Str.NL)
                   "", fs)
       else inr (Completed 0 "" "", fs))
    (λ _ _, inl (Exn ConnectionError "Network is unreachable"))
    (λ _ _, "/tmp/message_dict_qr_0.png")
    (λ _, inr "PNG").

(** A README of 59 lines with the link on line 57 and the image on
    line 59. *)
Definition link_line : string :=
  "**Install MessageDict:** https://old.example/x" +:+ Str.NL.

Definition image_line : string :=
  "<p><img src=" +:+ Str.DQ +:+ "https://old.example/qr.png" +:+ Str.DQ
  +:+ " alt=" +:+ Str.DQ +:+ "MessageDict QR Code" +:+ Str.DQ
  +:+ " width=" +:+ Str.DQ +:+ "200" +:+ Str.DQ +:+ "></p>" +:+ Str.NL.

Definition readme : string :=
  Str.join (replicate 56 ("About MessageDict." +:+ Str.NL))
  +:+ link_line +:+ Str.NL +:+ image_line.

Definition sha1 : string := "95b966ae1c166bd92f8ae7d1c313e738c731dfc3".

(** GitHub as the script expects it: the asset is already stored, an
    upload and a release are accepted. *)
Definition github_server (l : list event) (req : request)
    : exn + response :=
  match req_method req with
  | GET => inr (Response 200 "" "shortcut"
                  (Some (JObj {[ "sha" := JStr sha1 ]})))
  | PUT => inr (Response 201 "" "" (Some (JObj ∅)))
  | POST =>
      inr (Response 201 "" ""
             (Some (JObj {[ "html_url" :=
                              JStr "https://github.com/acme/widget/releases/1";
                            "upload_url" :=
                              JStr "https://uploads.github.com/1/assets{?name,label}";
                            "browser_download_url" :=
                              JStr "https://github.com/acme/widget/releases/download/1/qr.png" ]})))
  end.

(** The checkout of [acme/widget] with the README, a rendered QR code
    and GitHub on the line. *)
Definition github (typed : list string) : world :=
  set_server github_server
    (acme typed {[ "README.md" := readme;
                   "/tmp/message_dict_qr_0.png" := "PNG" ]}).

(** A checkout whose remote is not on GitHub. *)
Definition elsewhere (typed : list string) : world :=
  World typed ∅ []
    (λ _ fs _, inr (Completed 0 ("git@gitlab.com:acme/widget.git" +:+ Str.NL)
                      "", fs))
    (λ _ _, inl (Exn ConnectionError "Network is unreachable"))
    (λ _ _, "/tmp/message_dict_qr_0.png")
    (λ _, inr "PNG").

(** A checkout of [acme/widget] over HTTPS, the remote written with
    [.git] and a slash at its end. *)
Definition https_checkout (typed : list string) : world :=
  World typed ∅ []
    (λ _ fs _, inr (Completed 0 ("https://github.com/acme/widget.git/"
                                 +:+ Str.NL) "", fs))
    (λ _ _, inl (Exn ConnectionError "Network is unreachable"))
    (λ _ _, "/tmp/message_dict_qr_0.png")
    (λ _, inr "PNG").

(** The same checkout as [github] with a server that knows nothing: every
    request is answered with 404. *)
Definition refusing (typed : list string) : world :=
  set_server (λ _ _, inr (Response 404 "Not Found" "" None)) (github typed).

(** A checkout that is three commits behind its remote. *)
Definition behind (typed : list string) : world :=
  World typed ∅ []
    (λ _ fs cmd,
       if Str.contains "rev-list" cmd
       then inr (Completed 0 ("3" +:+ Str.NL) "", fs)
       else inr (Completed 0 "" "", fs))
    (λ _ _, inl (Exn ConnectionError "Network is unreachable"))
    (λ _ _, "/tmp/message_dict_qr_0.png")
    (λ _, inr "PNG").

End Sample.

(** ** Notions the properties are stated with *)

(** The line a 1-based line number points at, with its index. *)
Definition target (line_number : Z) (lines : list string)
    : option (nat * string) :=
  if 1 <=? line_number
  then (λ l, (Z.to_nat (line_number - 1), l))
       <$> lines !! Z.to_nat (line_number - 1)
  else None.

(** The shape [replace_readme_link] and [replace_readme_qr_code] share. *)
Definition patcher (announce done_msg : string) (pattern : Re.regex)
    (repl : string) (line_number : Z) : M unit :=
  print announce;;
  lines ← readlines <$> read_file README_PATH;
  lines ← lift (patch_lines pattern repl line_number lines);
  write_file README_PATH (writelines lines);;
  print done_msg.

(** What a call adds to the log. *)
Definition events_of {A} (m : M A) (w : world) : list event :=
  drop (length (log w)) (log (snd (m w))).

(** The branch [upload_qr_to_github] settles on: what the shell prints for
    the default branch once the announcement is out, and the [branch]
    argument when it prints nothing or the call fails. *)
Definition detected_branch (w : world) (branch : string) : string :=
  match shell w (log w ++ [EPrint "📤 Uploading QR code to GitHub..."])
          (files w) default_branch_cmd with
  | inr (p, _) =>
      if Str.truthy (Str.strip (stdout p)) then Str.strip (stdout p)
      else branch
  | inl _ => branch
  end.

(** A server that answers every request, with a JSON object when it
    answers a lookup with 200 and with JSON when it answers an upload with
    200 or 201. *)
Definition answered (w : world) : Prop :=
  ∀ l req, ∃ resp,
    server w l req = inr resp
    ∧ (req_method req = GET → status_code resp = 200 →
       ∃ o, body_json resp = Some (JObj o))
    ∧ (req_method req = PUT →
       status_code resp = 200 ∨ status_code resp = 201 →
       is_Some (body_json resp)).

(** A file that is there, and still there after a shell command. *)
Definition readable (w : world) (path : string) : Prop :=
  is_Some (files w !! path)
  ∧ ∀ l cmd p fs', shell w l (files w) cmd = inr (p, fs') →
                   is_Some (fs' !! path).

(** Every event a computation adds to the log satisfies [P]. *)
Definition emits (P : event → Prop) {A} (m : M A) : Prop :=
  ∀ w, ∃ evs, log (snd (m w)) = log w ++ evs ∧ Forall P evs.

(** What a computation adds to the log satisfies [T]. *)
Definition traces (T : list event → Prop) {A} (m : M A) : Prop :=
  ∀ w, ∃ evs, log (snd (m w)) = log w ++ evs ∧ T evs.

Definition version_prompt : string := "Enter version name: ".
Definition tag_prompt : string := "Enter tag: ".
Definition changes_prompt : string := "Enter changes (commit message): ".

(** The commands that create or push a tag. *)
Definition tag_command (cmd : string) : bool :=
  Str.startswith cmd "git tag"
  || Str.startswith cmd ("git push origin " +:+ Str.DQ).

(** The [tag_name] a request carries in its JSON body. *)
Definition tag_name_of (req : request) : option json :=
  match req_body req with
  | JsonPayload data => data !! "tag_name"
  | _ => None
  end.

(** The tag name [main] builds from the two answers. *)
Definition full_tag (v t : string) : string :=
  Str.strip v +:+ " " +:+ Str.strip t.

(** An event that tags does so with [full]; with [None] it does not tag.
    The two questions are not asked. *)
Definition tags_with (full : option string) (e : event) : Prop :=
  match e with
  | ERun cmd _ =>
      tag_command cmd = true →
      ∃ f, full = Some f ∧ (cmd = git_tag_cmd f ∨ cmd = git_push_tag_cmd f)
  | EHttp req _ =>
      ∀ j, tag_name_of req = Some j → ∃ f, full = Some f ∧ j = JStr f
  | EInput p _ => p ≠ version_prompt ∧ p ≠ tag_prompt
  | EPrint _ => True
  end.

Definition no_tagging (e : event) : Prop :=
  match e with
  | ERun cmd _ => tag_command cmd = false
  | EHttp req _ => tag_name_of req = None
  | _ => True
  end.

(** The answers given to the prompt [p], in order; [None] is the end of
    standard input. *)
Definition reply_to (p : string) (evs : list event) : list (option string) :=
  omap (λ e, match e with
             | EInput q r => if String.eqb q p then Some r else None
             | _ => None
             end) evs.

(** A run tags, if at all, after one answer to each of the two questions,
    and with the two answers joined by a space. *)
Definition tag_trace (evs : list event) : Prop :=
  (Forall no_tagging evs
   ∧ length (reply_to version_prompt evs) ≤ 1
   ∧ length (reply_to tag_prompt evs) ≤ 1)%nat
  ∨ ∃ pre v t post,
      evs = pre ++ EInput version_prompt (Some v)
                   :: EInput tag_prompt (Some t) :: post
      ∧ Forall (tags_with None) pre
      ∧ Forall (tags_with (Some (full_tag v t))) post.

(** The commands a run issued, in order. *)
Definition commands (evs : list event) : list string :=
  omap (λ e, match e with ERun cmd _ => Some cmd | _ => None end) evs.

(** *** The patterns of the document patcher, piece by piece *)

(** A text that does not go on with a character [p] accepts: where a
    greedy run of such characters ends. *)
Definition stops (p : ascii → bool) (s : list ascii) : Prop :=
  match s with
  | c :: _ => p c = false
  | [] => True
  end.

(** The literal parts of [link_pattern] and its class [[^\s]]. *)
Definition link_label : list ascii := Re.chars "**Install MessageDict:** ".
Definition https : list ascii := Re.chars "https://".
Definition nonspace (c : ascii) : bool := negb (Str.isspace c).

(** The literal parts of [qr_pattern] and its classes: any character but
    the double quote, any character but [>]. *)
Definition tag_open : list ascii := Re.chars img_open.
Definition tag_alt : list ascii := Re.chars img_alt.
Definition unquoted (c : ascii) : bool := Re.mem (Re.NoneOf [Str.dquote]) c.
Definition inside (c : ascii) : bool := Re.mem (Re.NoneOf [">"%char]) c.

(** In a template: a character other than the backslash, and a text that
    does not start with a digit (which would run into the group number
    written before it). *)
Definition unescaped (c : ascii) : bool := negb (Ascii.eqb c Str.backslash).

Definition starts_plain (s : list ascii) : bool :=
  match s with
  | c :: _ => negb (Str.isdigit c)
  | [] => true
  end.

(** The lines of a text file: each but the last ends with its only line
    feed; the last may have none, and is not empty. *)
Inductive file_lines : list string → Prop :=
| file_lines_nil : file_lines []
| file_lines_open body :
    body ≠ [] → Str.LF ∉ body → file_lines [Re.text body]
| file_lines_closed body ls :
    Str.LF ∉ body → file_lines ls →
    file_lines (Re.text (body ++ [Str.LF]) :: ls).

(** A link the pattern of [replace_readme_link] matches in full and the
    template leaves as it is: [https://] and one character or more, none
    of them white space or a backslash. *)
Definition link_value (new : string) : bool :=
  match Re.strip_prefix https (Re.chars new) with
  | Some (_ :: _) =>
      forallb (λ c, negb (Str.isspace c) && negb (Ascii.eqb c Str.backslash))
        (Re.chars new)
  | _ => false
  end.

(** An image source of the same kind: one character or more, none of them
    a double quote, a backslash or a line feed, the first no digit. *)
Definition source_value (new : string) : bool :=
  match Re.chars new with
  | c :: _ => negb (Str.isdigit c)
  | [] => false
  end
  && forallb (λ c, negb (Ascii.eqb c Str.dquote)
                   && negb (Ascii.eqb c Str.backslash)
                   && negb (Ascii.eqb c Str.LF))
       (Re.chars new).

(** A replacement the template takes letter by letter: no backslash, and
    no digit at its start. *)
Definition plain_value (new : string) : bool :=
  match Re.chars new with
  | c :: _ => negb (Str.isdigit c)
  | [] => true
  end
  && forallb (λ c, negb (Ascii.eqb c Str.backslash)) (Re.chars new).

(** ** Notions for the rest of the script *)

(** An event on the terminal: a line printed or a question asked. *)
Definition on_terminal (e : event) : Prop :=
  match e with
  | EPrint _ | EInput _ _ => True
  | _ => False
  end.

(** The requests a run sent, in order. *)
Definition requests (evs : list event) : list request :=
  omap (λ e, match e with EHttp req _ => Some req | _ => None end) evs.

(** A request outside the GitHub API: a plain [GET] without headers. *)
Definition anonymous (e : event) : Prop :=
  match e with
  | EHttp req _ => req_method req = GET ∧ req_headers req = ∅
  | _ => True
  end.

(** A request to the GitHub API on behalf of [token]. *)
Definition authorized (token : string) (e : event) : Prop :=
  match e with
  | EHttp req _ =>
      req_headers req !! "Authorization" = Some ("Bearer " +:+ token)
  | _ => True
  end.

(** What holds of the world whenever a computation returns. *)
Definition ensures {A} (m : M A) (Q : world → Prop) : Prop :=
  ∀ w a, fst (m w) = Ret a → Q (snd (m w)).

(** A link [validate_url] can accept: not empty, not a token by its
    prefix, with a scheme and a host. *)
Definition acceptable (up : string → exn + ParseResult) (url : string)
    : Prop :=
  url ≠ ""
  ∧ Str.startswith url "github_pat_" = false
  ∧ Str.startswith url "ghp_" = false
  ∧ ∃ parsed, up url = inr parsed
              ∧ scheme parsed ≠ "" ∧ netloc parsed ≠ "".

(** The question [pull_latest] asks before it pulls. *)
Definition pull_prompt : string :=
  "Do you want to pull the latest changes? (y/n): ".

(** The characters of an owner: any but the slash.  Those of a repository
    name here: any but the slash, the dot and the line feed. *)
Definition no_slash (c : ascii) : bool := Re.mem (Re.NoneOf ["/"%char]) c.

Definition name_char (c : ascii) : bool :=
  negb (Ascii.eqb c "/") && negb (Ascii.eqb c ".")
  && negb (Ascii.eqb c Str.LF).

Definition owner_text (s : string) : bool :=
  Str.truthy s && forallb no_slash (Re.chars s).

Definition name_text (s : string) : bool :=
  Str.truthy s && forallb name_char (Re.chars s).

(** What comes before and after [github.com:owner/name] in the remotes
    the two patterns are written for. *)
Definition remote_prefixes : list string :=
  ["git@"; "https://"; "ssh://git@"; "http://"; "git://"; ""].

Definition remote_suffixes : list string := [""; ".git"; "/"; ".git/"].

(** * Properties *)

(** ** Strings *)

Lemma startswith_truthy s p :
  Str.truthy p = true → Str.startswith s p = true → Str.truthy s = true.
Proof. destruct s, p; simpl; done. Qed.

Lemma contains_unfold n s :
  Str.contains n s
  = String.prefix n s
    || match s with "" => false | String _ s' => Str.contains n s' end.
Proof. destruct s; reflexivity. Qed.

Lemma contains_prefix a b s :
  String.prefix (a +:+ b) s = true → Str.contains b s = true.
Proof.
  revert s. induction a as [|c a IH]; intros s H.
  - change ("" +:+ b) with b in H. rewrite contains_unfold, H. done.
  - destruct s as [|d s]; [done|].
    change (String c a +:+ b) with (String c (a +:+ b)) in H. simpl in H.
    destruct (ascii_dec c d); [|done].
    rewrite contains_unfold, (IH _ H). apply orb_true_r.
Qed.

(** A text that contains [a ++ b] contains [b]. *)
Lemma contains_suffix a b s :
  Str.contains (a +:+ b) s = true → Str.contains b s = true.
Proof.
  induction s as [|d s IH]; rewrite contains_unfold; intros H.
  - rewrite orb_false_r in H. by apply contains_prefix in H.
  - apply orb_true_iff in H as [H|H].
    + by apply contains_prefix in H.
    + rewrite contains_unfold, (IH H). apply orb_true_r.
Qed.

(** ** The link validator *)

(** C8: a string that starts with [github_pat_] or [ghp_] is rejected with
    the token diagnostic, whatever follows the prefix and whatever
    [urlparse] would make of it; nothing is printed or asked. *)
Theorem validate_url_rejects_token
    (urlparse : string → exn + ParseResult) (url : string) (w : world) :
  Str.startswith url "github_pat_" = true
  ∨ Str.startswith url "ghp_" = true →
  validate_url urlparse url w = (Ret (false, Some token_diagnostic), w).
Proof.
  intros H. unfold validate_url.
  assert (Ht : Str.truthy url = true).
  { destruct H as [H|H]; eapply startswith_truthy; try exact H; done. }
  rewrite Ht. simpl negb. cbv iota.
  destruct H as [-> | ->]; [|rewrite orb_true_r]; reflexivity.
Qed.

(** A token pasted in front of a well-formed link is still rejected. *)
Lemma validate_url_rejects_token_witness :
  validate_url Sample.urlparse "ghp_https://www.icloud.com/shortcuts/abc"
    (Sample.quiet [])
  = (Ret (false, Some token_diagnostic), Sample.quiet []).
Proof. apply validate_url_rejects_token. right. reflexivity. Defined.

(** C1, as the claim states it, fails: an absolute URL without a token
    prefix that lacks the marker [shortcuts] makes the validator warn and
    ask, and a reply other than [y] rejects it. *)
Lemma validate_url_asks_counterexample :
  Sample.urlparse "https://example.com/download"
  = inr (Parsed "https" "example.com")
  ∧ Str.startswith "https://example.com/download" "github_pat_" = false
  ∧ Str.startswith "https://example.com/download" "ghp_" = false
  ∧ fst (validate_url Sample.urlparse "https://example.com/download"
           (Sample.quiet ["n"]))
    = Ret (false, Some "URL validation cancelled by user")
  ∧ log (snd (validate_url Sample.urlparse "https://example.com/download"
                (Sample.quiet ["n"])))
    = [EPrint "⚠️  Warning: This doesn't look like an iCloud Shortcuts URL.";
       EPrint "   Expected format: https://www.icloud.com/shortcuts/...";
       EInput "   Continue anyway? (y/n): " (Some "n")].
Proof. repeat split; vm_compute; reflexivity. Qed.

(** C1, amended: a non-empty string that [urlparse] gives a scheme and a
    host, and that starts with no token prefix, is accepted without a
    word when it contains [shortcuts] in any letter case.  Without that
    marker the validator prints its warning and asks; it accepts exactly
    when the reply, stripped and in lower case, is [y]. *)
Theorem validate_url_accepts
    (urlparse : string → exn + ParseResult) (url : string)
    (p : ParseResult) (w : world) :
  url ≠ "" →
  Str.startswith url "github_pat_" = false →
  Str.startswith url "ghp_" = false →
  urlparse url = inr p → scheme p ≠ "" → netloc p ≠ "" →
  (Str.contains "shortcuts" (Str.lower url) = true →
   validate_url urlparse url w = (Ret (true, None), w))
  ∧ (Str.contains "shortcuts" (Str.lower url) = false →
     ∀ reply rest, stdin w = reply :: rest →
     fst (validate_url urlparse url w)
     = Ret (if String.eqb (Str.lower (Str.strip reply)) "y"
            then (true, None)
            else (false, Some "URL validation cancelled by user"))
     ∧ log (snd (validate_url urlparse url w))
       = log w
         ++ [EPrint "⚠️  Warning: This doesn't look like an iCloud Shortcuts URL.";
             EPrint "   Expected format: https://www.icloud.com/shortcuts/...";
             EInput "   Continue anyway? (y/n): " (Some reply)]).
Proof.
  intros Hne Hp1 Hp2 Hparse Hs Hn.
  assert (Str.truthy url = true) as Hu by (destruct url; done).
  assert (Str.truthy (scheme p) = true) as Hs' by (destruct (scheme p); done).
  assert (Str.truthy (netloc p) = true) as Hn' by (destruct (netloc p); done).
  unfold validate_url. rewrite Hu, Hp1, Hp2. simpl.
  unfold try_except, mbind, M_bind, lift, mret, M_ret. rewrite Hparse.
  rewrite Hs', Hn'. simpl.
  split.
  - intros Hc. rewrite Hc. rewrite andb_false_r. reflexivity.
  - intros Hc reply rest Hin. rewrite Hc.
    assert (Str.contains "icloud.com/shortcuts" (Str.lower url) = false) as ->.
    { destruct (Str.contains "icloud.com/shortcuts" _) eqn:E; [|done].
      apply (contains_suffix "icloud.com/" "shortcuts") in E. congruence. }
    unfold input. simpl. rewrite Hin.
    destruct (String.eqb _ "y"); simpl; split; try reflexivity.
    all: rewrite <- !app_assoc; reflexivity.
Qed.

(** The link of the README's example is accepted in silence. *)
Lemma validate_url_accepts_witness :
  validate_url Sample.urlparse "https://www.icloud.com/shortcuts/abc"
    (Sample.quiet [])
  = (Ret (true, None), Sample.quiet []).
Proof.
  apply (validate_url_accepts Sample.urlparse
           "https://www.icloud.com/shortcuts/abc"
           (Parsed "https" "www.icloud.com") (Sample.quiet []));
    solve [ discriminate | reflexivity ].
Defined.

(** ** The remote metadata resolver *)

(** C9: when [git remote get-url origin] prints
    [git@github.com:acme/widget.git], [get_github_repo] returns
    [acme/widget]; the first pattern is the one that matches, its groups
    being the owner and the name without [.git]. *)
Theorem get_github_repo_ssh_remote (w : world) (p : CompletedProcess)
    (fs : gmap string string) :
  shell w (log w) (files w) "git remote get-url origin" = inr (p, fs) →
  Str.strip (stdout p) = "git@github.com:acme/widget.git" →
  first_match (take 1 patterns) "git@github.com:acme/widget.git"
  = Some "acme/widget"
  ∧ fst (get_github_repo w) = Ret "acme/widget".
Proof.
  intros Hsh Hout. split; [by vm_compute|].
  unfold get_github_repo, run_command, subprocess_run, mbind, M_bind.
  rewrite Hsh. simpl. unfold mret, M_ret. rewrite Hout. reflexivity.
Qed.

Lemma get_github_repo_ssh_remote_witness :
  fst (get_github_repo (Sample.acme [] ∅)) = Ret "acme/widget".
Proof. eapply get_github_repo_ssh_remote; reflexivity. Defined.

(** ** The document patcher: the loop and the file *)

Lemma join_cons l ls : Str.join (l :: ls) = l +:+ Str.join ls.
Proof. reflexivity. Qed.

(** Writing back the lines that were read restores the text. *)
Lemma writelines_readlines s : writelines (readlines s) = s.
Proof.
  unfold writelines. induction s as [|c s IH]; [done|].
  cbn [readlines]. destruct (Ascii.eqb_spec c Str.LF) as [->|Hc].
  - rewrite join_cons, IH. reflexivity.
  - destruct (readlines s) as [|l ls].
    + simpl in IH. subst s. reflexivity.
    + rewrite join_cons in *. rewrite <- IH. reflexivity.
Qed.

Lemma patch_loop_spec pat repl ln lines i todo :
  todo = drop i lines →
  patch_loop pat repl ln i todo lines =
  match (if Z.of_nat i + 1 <=? ln then lines !! Z.to_nat (ln - 1)
         else None) with
  | Some line =>
      match Re.sub pat repl line with
      | inl e => inl e
      | inr line' => inr (<[Z.to_nat (ln - 1) := line']> lines)
      end
  | None => inr lines
  end.
Proof.
  revert i. induction todo as [|line todo IH]; intros i Hd.
  - simpl. destruct (Z.leb_spec (Z.of_nat i + 1) ln); [|done].
    rewrite lookup_ge_None_2; [done|].
    assert (length (drop i lines) = 0%nat) as Hl by (by rewrite <- Hd).
    rewrite length_drop in Hl. lia.
  - cbn [patch_loop].
    assert (lines !! i = Some line) as Hi.
    { rewrite <- (Nat.add_0_r i), <- lookup_drop, <- Hd. done. }
    destruct (Z.eqb_spec (Z.of_nat i + 1) ln) as [He|He].
    + replace (Z.to_nat (ln - 1)) with i by lia.
      rewrite Hi. destruct (Z.leb_spec (Z.of_nat i + 1) ln); [done|lia].
    + rewrite (IH (S i)).
      2:{ replace (S i) with (i + 1)%nat by lia.
          rewrite <- drop_drop, <- Hd. done. }
      destruct (Z.leb_spec (Z.of_nat (S i) + 1) ln),
        (Z.leb_spec (Z.of_nat i + 1) ln); try done; lia.
Qed.

(** The loop rewrites the targeted line, when there is one, and nothing
    else. *)
Lemma patch_lines_spec pat repl ln lines :
  patch_lines pat repl ln lines =
  match target ln lines with
  | Some (i, line) =>
      match Re.sub pat repl line with
      | inl e => inl e
      | inr line' => inr (<[i := line']> lines)
      end
  | None => inr lines
  end.
Proof.
  unfold patch_lines, target. rewrite (patch_loop_spec _ _ _ _ 0%nat); [|done].
  change (Z.of_nat 0 + 1) with 1.
  destruct (1 <=? ln); [|done]. destruct (lines !! _); done.
Qed.

Lemma patcher_run announce done_msg pat repl ln w doc :
  files w !! README_PATH = Some doc →
  patcher announce done_msg pat repl ln w =
  match patch_lines pat repl ln (readlines doc) with
  | inl e => (Raise e, record (EPrint announce) w)
  | inr lines' =>
      (Ret tt, record (EPrint done_msg)
                 (set_files (<[README_PATH := writelines lines']> (files w))
                    (record (EPrint announce) w)))
  end.
Proof.
  intros Hf.
  unfold patcher, mbind, M_bind, fmap, M_fmap, mbind, M_bind, read_file, print.
  simpl. rewrite Hf. simpl. unfold lift.
  destruct (patch_lines _ _ _ _); reflexivity.
Qed.

Lemma replace_readme_link_patcher new ln :
  replace_readme_link new ln =
  patcher ("📝 Replacing link at line " +:+ str_of_int ln +:+ "...")
    "✅ Link replaced in README.md" link_pattern (Str.BS +:+ "1" +:+ new) ln.
Proof. reflexivity. Qed.

Lemma replace_readme_qr_code_patcher new ln :
  replace_readme_qr_code new ln =
  patcher ("📝 Replacing QR code image at line " +:+ str_of_int ln +:+ "...")
    "✅ QR code image URL replaced in README.md" qr_pattern
    (Str.BS +:+ "1" +:+ new +:+ Str.BS +:+ "2") ln.
Proof. reflexivity. Qed.

(** What a patcher leaves in the README keeps every line but the
    targeted one. *)
Lemma patcher_frame announce done_msg pat repl ln w doc :
  files w !! README_PATH = Some doc →
  ∃ lines',
    files (snd (patcher announce done_msg pat repl ln w)) !! README_PATH
    = Some (writelines lines')
    ∧ length lines' = length (readlines doc)
    ∧ ∀ i : nat, Z.of_nat i + 1 ≠ ln → lines' !! i = readlines doc !! i.
Proof.
  intros Hf. rewrite (patcher_run _ _ _ _ _ _ _ Hf), patch_lines_spec.
  destruct (target ln (readlines doc)) as [[j line]|] eqn:Ht.
  - unfold target in Ht. destruct (Z.leb_spec 1 ln); [|done].
    destruct (readlines doc !! _) eqn:Hl; [|done]. simpl in Ht. simplify_eq.
    destruct (Re.sub _ _ _) as [e|line'].
    + exists (readlines doc). simpl. rewrite writelines_readlines. done.
    + eexists. simpl. rewrite lookup_insert_eq. split; [done|]. split.
      * apply length_insert.
      * intros i Hi. apply list_lookup_insert_ne. lia.
  - exists (readlines doc). simpl.
    rewrite lookup_insert_eq, writelines_readlines. done.
Qed.



(** The scenario of the specification: line 57 becomes the label followed
    by the new link. *)
Lemma replace_readme_link_scenario :
  (readlines <$>
     files (snd (replace_readme_link "https://new.example/y" 57
                   (Sample.github []))) !! README_PATH)
  = Some (<[56%nat := "**Install MessageDict:** https://new.example/y"
                      +:+ Str.NL]> (readlines Sample.readme)).
Proof. vm_compute. reflexivity. Qed.

(** ** Substitution with the patterns of the document patcher *)

Section Substitution.

Import Re.

(** *** The matcher *)

Lemma text_chars s : text (chars s) = s.
Proof. apply string_of_list_ascii_of_string. Qed.

Lemma chars_text l : chars (text l) = l.
Proof. apply list_ascii_of_string_of_list_ascii. Qed.

Lemma strip_prefix_Some p s r : strip_prefix p s = Some r ↔ s = p ++ r.
Proof.
  revert s. induction p as [|a p IH]; intros s; simpl.
  - split; intros; simplify_eq; done.
  - destruct s as [|b s]; [split; done|].
    destruct (Ascii.eqb_spec a b) as [->|Hab].
    + rewrite IH. split; intros; simplify_eq; done.
    + split; intros; simplify_eq.
Qed.

Lemma take_consumed {A} (a b : list A) :
  take (length (a ++ b) - length b) (a ++ b) = a.
Proof.
  rewrite length_app. replace (length a + length b - length b)%nat with (length a) by lia.
  by rewrite take_app_length.
Qed.

Lemma span_app p s : s = (span p s).1 ++ (span p s).2.
Proof.
  induction s as [|c s IH]; simpl; [done|].
  destruct (p c); [|done]. destruct (span p s). simpl in *. by f_equal.
Qed.

Lemma span_all p s : forallb p (span p s).1 = true.
Proof.
  induction s as [|c s IH]; simpl; [done|].
  destruct (p c) eqn:E; [|done]. destruct (span p s). simpl in *. by rewrite E.
Qed.

Lemma span_stops p s : stops p (span p s).2.
Proof.
  induction s as [|c s IH]; simpl; [done|].
  destruct (p c) eqn:E; [|done]. destruct (span p s). done.
Qed.

Lemma span_run p a b :
  forallb p a = true → stops p b → span p (a ++ b) = (a, b).
Proof.
  intros Ha Hb. induction a as [|c a IH]; simpl in *.
  - destruct b as [|d b]; [done|]. simpl in *. by rewrite Hb.
  - apply andb_true_iff in Ha as [Hc Ha]. rewrite Hc, (IH Ha). done.
Qed.

Section Rep.
Context {R : Type} (cl : cset) (k : list ascii → option R).

Lemma rep_greedy_longest min s x :
  (min ≤ length (span (mem cl) s).1)%nat →
  k (span (mem cl) s).2 = Some x →
  rep cl true k min s = Some x.
Proof.
  revert min. induction s as [|c s IH]; intros min Hmin Hk; simpl in *.
  - destruct min; [done|lia].
  - destruct (mem cl c) eqn:E.
    + destruct (span (mem cl) s) as [a b] eqn:Es. simpl in *.
      rewrite (IH (Nat.pred min)); [done|lia|done].
    + destruct min; [done|simpl in Hmin; lia].
Qed.

Lemma rep_greedy_only min s :
  (∀ c t, mem cl c = true → k (c :: t) = None) →
  rep cl true k min s
  = if (min <=? length (span (mem cl) s).1)%nat then k (span (mem cl) s).2 else None.
Proof.
  intros Hk. revert min. induction s as [|c s IH]; intros min; simpl.
  - destruct min; done.
  - destruct (mem cl c) eqn:E.
    + rewrite IH. destruct (span (mem cl) s) as [a b] eqn:Es. simpl.
      destruct min as [|min]; simpl.
      * destruct (k b); [done|]. by apply Hk.
      * destruct (min <=? length a)%nat; [|done]. by destruct (k b).
    + destruct min; done.
Qed.

Lemma rep_short greedy min s :
  (length (span (mem cl) s).1 < min)%nat → rep cl greedy k min s = None.
Proof.
  revert min. induction s as [|c s IH]; intros min Hmin; simpl in *.
  - destruct min; [lia|]. by destruct greedy.
  - destruct (mem cl c) eqn:E.
    + destruct (span (mem cl) s) as [a b] eqn:Es. simpl in *.
      rewrite (IH (Nat.pred min)) by lia. destruct min; [lia|]. by destruct greedy.
    + destruct min; [simpl in Hmin; lia|]. by destruct greedy.
Qed.

(** Whatever a repetition returns, the continuation returned it. *)
Lemma rep_cont greedy min s x :
  rep cl greedy k min s = Some x → ∃ s', k s' = Some x.
Proof.
  revert min. induction s as [|c s IH]; intros min; simpl;
    repeat case_match; intros; simplify_eq; eauto.
Qed.
End Rep.

Lemma run_cont {R} r s g (k : list ascii → groupmap → option R) x :
  run r s g k = Some x → ∃ s' g', k s' g' = Some x.
Proof.
  revert s g k. induction r; intros s g k; simpl.
  - destruct (strip_prefix _ _); [eauto|done].
  - destruct s; [done|]. destruct (mem cl a); [eauto|done].
  - intros H. apply rep_cont in H as [s' H]. eauto.
  - intros H. apply IHr1 in H as (s1 & g1 & H). eauto.
  - intros H. apply IHr in H as (s1 & g1 & H). eauto.
  - destruct (run r s g k) eqn:E; [|eauto]. intros; simplify_eq. eauto.
  - destruct s as [|c [|]]; [eauto| |done]. destruct (Ascii.eqb _ _); [eauto|done].
Qed.

(** A match is no longer than the text. *)
Lemma match_here_length adv r s n g :
  match_here adv r s = Some (n, g) → (n ≤ length s)%nat.
Proof.
  unfold match_here. intros H. apply run_cont in H as (s' & g' & H).
  destruct (_ && _); simplify_eq. lia.
Qed.

(** *** Substitution *)

Section Subx.
Context (r : regex) (ps : list piece).

Lemma subx_skip k s :
  (k ≤ length s)%nat → subx r ps k s = subx r ps 0 (drop k s).
Proof.
  revert s. induction k as [|k IH]; intros s Hk; [done|].
  destruct s as [|c s]; [simpl in Hk; lia|].
  simpl in *. apply IH. lia.
Qed.

Lemma subx_miss c s :
  match_here false r (c :: s) = None →
  subx r ps 0 (c :: s) = c :: subx r ps 0 s.
Proof. intros H. simpl. by rewrite H. Qed.

Lemma subx_hit s n g :
  match_here false r s = Some (S n, g) →
  subx r ps 0 s = expand ps g ++ subx r ps 0 (drop (S n) s).
Proof.
  intros H. pose proof (match_here_length _ _ _ _ _ H) as Hlen.
  destruct s as [|c s]; [simpl in Hlen; lia|].
  cbn [subx]. rewrite H. f_equal.
  rewrite (subx_skip n s) by (simpl in Hlen; lia). done.
Qed.

(** Where the pattern is found nowhere, the text comes back as it is. *)
Lemma subx_not_found i s :
  search_from r i s = None → subx r ps 0 s = s.
Proof.
  revert i. induction s as [|c s IH]; intros i; simpl.
  - destruct (match_here false r []) as [[]|]; done.
  - destruct (match_here false r (c :: s)) as [[]|]; [done|].
    intros H. f_equal. eauto.
Qed.
End Subx.

Lemma link_hit x rest :
  x ≠ [] → forallb nonspace x = true → stops nonspace rest →
  match_here false link_pattern (link_label ++ https ++ x ++ rest)
  = Some ((33 + length x)%nat,
          <[0%nat := link_label ++ https ++ x]> (<[1%nat := link_label]> ∅)).
Proof.
  intros Hx Hall Hstop.
  unfold match_here, link_pattern, seq. cbn [foldr run].
  fold link_label. fold https.
  assert (E1 : strip_prefix link_label (link_label ++ https ++ x ++ rest)
               = Some (https ++ x ++ rest)) by by apply strip_prefix_Some.
  rewrite E1.
  assert (E2 : strip_prefix https (https ++ x ++ rest) = Some (x ++ rest))
    by by apply strip_prefix_Some.
  rewrite E2.
  erewrite rep_greedy_longest; [reflexivity| |];
    change (mem NotSpace) with nonspace; rewrite (span_run _ _ _ Hall Hstop).
  - destruct x; [done|simpl; lia].
  - cbn [snd run chars list_ascii_of_string strip_prefix andb].
    f_equal. f_equal.
    + rewrite !length_app. change (length link_label) with 25%nat.
      change (length https) with 8%nat. lia.
    + f_equal.
      * rewrite !(assoc_L (++)). rewrite take_consumed. done.
      * f_equal. apply take_consumed.
Qed.

Lemma link_found s n g :
  match_here false link_pattern s = Some (n, g) →
  ∃ x rest, s = link_label ++ https ++ x ++ rest
            ∧ x ≠ [] ∧ forallb nonspace x = true ∧ stops nonspace rest.
Proof.
  unfold match_here, link_pattern, seq. cbn [foldr run].
  fold link_label. fold https.
  destruct (strip_prefix link_label s) as [s1|] eqn:E1; [|done].
  destruct (strip_prefix https s1) as [s2|] eqn:E2; [|done].
  apply strip_prefix_Some in E1, E2. subst s s1.
  change (mem NotSpace) with nonspace.
  intros H. exists (span nonspace s2).1, (span nonspace s2).2.
  split_and!.
  - by rewrite <- span_app.
  - intros Hnil. rewrite rep_short in H; [done|].
    change (mem NotSpace) with nonspace. rewrite Hnil. simpl. lia.
  - apply span_all.
  - apply span_stops.
Qed.

(** *** Templates *)

Lemma dangling_plain s : forallb unescaped s = true → dangling s = false.
Proof.
  destruct s as [|c [|]]; simpl; try done.
  unfold unescaped. rewrite andb_true_r. by intros ->%negb_true_iff.
Qed.

Lemma dangling_longer a b s : dangling (s ++ [a; b]) = false.
Proof. by destruct s as [|c [|d [|]]]. Qed.

(** A template without a backslash stands for itself. *)
Lemma parse_plain rounds n s :
  forallb unescaped s = true → (length s ≤ rounds)%nat →
  parse_template_rounds rounds n s = inr (PLit <$> s).
Proof.
  revert s. induction rounds as [|rounds IH]; intros [|c s] Hs Hlen;
    simpl in Hlen; try done; try lia.
  cbn [parse_template_rounds]. simpl in Hs. apply andb_true_iff in Hs as [Hc Hs].
  unfold unescaped in Hc. rewrite Hc, (dangling_plain _ Hs), IH by (done || lia).
  done.
Qed.

(** ... and so does one that ends by naming a group. *)
Lemma parse_plain_group rounds n s (d : ascii) :
  forallb unescaped s = true → (length s < rounds)%nat →
  Str.isdigit d = true → Ascii.eqb d "0" = false →
  (digit_val d <= N.of_nat n)%N →
  parse_template_rounds rounds n (s ++ [Str.backslash; d])
  = inr ((PLit <$> s) ++ [PGroup (N.to_nat (digit_val d))]).
Proof.
  intros Hs Hlen Hd Hd0 Hn.
  revert s Hs Hlen. induction rounds as [|rounds IH]; intros s Hs Hlen; [lia|].
  destruct s as [|c s].
  - cbn [app parse_template_rounds dangling].
    replace (negb (Ascii.eqb Str.backslash Str.backslash)) with false by done.
    replace (Ascii.eqb d "g") with false
      by (destruct d as [[] [] [] [] [] [] [] []]; done).
    rewrite Hd0, Hd. unfold add_group.
    replace (N.of_nat n <? number 10 [d])%N with false.
    + destruct rounds; done.
    + symmetry. apply N.ltb_ge. unfold number. simpl. lia.
  - cbn [app parse_template_rounds]. simpl in Hs, Hlen.
    apply andb_true_iff in Hs as [Hc Hs]. unfold unescaped in Hc.
    rewrite Hc, dangling_longer, IH by (done || lia). done.
Qed.

Lemma parse_group_1 rounds n s :
  (1 ≤ n)%nat → starts_plain s = true → dangling s = false →
  parse_template_rounds (S rounds) n (Str.backslash :: "1"%char :: s)
  = match parse_template_rounds rounds n s with
    | inl e => inl e
    | inr ps => inr (PGroup 1 :: ps)
    end.
Proof.
  intros Hn Hs Hd. cbn [parse_template_rounds]. rewrite Hd.
  replace (negb (Ascii.eqb Str.backslash Str.backslash)) with false by done.
  replace (Ascii.eqb "1" "g") with false by done.
  replace (Ascii.eqb "1" "0") with false by done.
  replace (Str.isdigit "1") with true by done.
  assert (Hadd : ∀ rest, add_group n (number 10 ["1"%char]) rest
                 = match rest with inl e => inl e | inr ps => inr (PGroup 1 :: ps) end).
  { intros rest. unfold add_group.
    replace (N.of_nat n <? number 10 ["1"%char])%N with false; [done|].
    symmetry. apply N.ltb_ge. change (number 10 ["1"%char]) with 1%N. lia. }
  destruct s as [|d1 s3]; [apply Hadd|].
  simpl in Hs. apply negb_true_iff in Hs. rewrite Hs. apply Hadd.
Qed.

(** The template of [replace_readme_link]. *)
Lemma link_template new :
  forallb unescaped new = true → starts_plain new = true →
  parse_template (groups link_pattern) (Str.backslash :: "1"%char :: new)
  = inr (PGroup 1 :: (PLit <$> new)).
Proof.
  intros Hnew Hs. unfold parse_template.
  replace (dangling _) with false by (by destruct new as [|? [|]]).
  rewrite parse_group_1, parse_plain; try done.
  - simpl. lia.
  - by apply dangling_plain.
Qed.

(** The template of [replace_readme_qr_code]. *)
Lemma qr_template new :
  forallb unescaped new = true → starts_plain new = true →
  parse_template (groups qr_pattern)
    (Str.backslash :: "1"%char :: new ++ [Str.backslash; "2"%char])
  = inr (PGroup 1 :: (PLit <$> new) ++ [PGroup 2]).
Proof.
  intros Hnew Hs. unfold parse_template.
  replace (dangling _) with false by (by destruct new as [|? [|? [|]]]).
  rewrite parse_group_1; [|vm_compute; lia| |apply dangling_longer].
  - rewrite parse_plain_group; try done.
    simpl. rewrite length_app. simpl. lia.
  - destruct new; done.
Qed.

Lemma expand_lits s g : expand (PLit <$> s) g = s.
Proof.
  induction s as [|c s IH]; [done|].
  change (expand (PLit <$> c :: s) g) with (c :: expand (PLit <$> s) g).
  by rewrite IH.
Qed.

Lemma expand_app ps qs g : expand (ps ++ qs) g = expand ps g ++ expand qs g.
Proof. unfold expand. by rewrite flat_map_app. Qed.

Lemma expand_cons p ps g : expand (p :: ps) g = expand [p] g ++ expand ps g.
Proof. apply (expand_app [p]). Qed.

(** *** Substituting twice *)

Section Twice.
Context (r : regex) (ps : list piece).
#[local] Abbreviation f := (subx r ps 0).

(** The pattern matches no empty text. *)
Hypothesis advance : ∀ s g, match_here false r s ≠ Some (0%nat, g).

Lemma subx_nil : f [] = [].
Proof.
  simpl. destruct (match_here false r []) as [[[|n] g]|] eqn:E; [|exfalso|done].
  - by apply advance in E.
  - apply match_here_length in E. simpl in E. lia.
Qed.

(** The three ways a text goes through the substitution. *)
Lemma subx_cases s :
  s = [] ∧ f s = []
  ∨ (∃ c s', s = c :: s' ∧ match_here false r s = None ∧ f s = c :: f s')
  ∨ (∃ n g, match_here false r s = Some (S n, g) ∧ (S n ≤ length s)%nat
            ∧ f s = expand ps g ++ f (drop (S n) s)).
Proof.
  destruct (match_here false r s) as [[[|n] g]|] eqn:E.
  - by apply advance in E.
  - right; right. exists n, g. split_and!; [done| |by apply subx_hit].
    by apply match_here_length in E.
  - destruct s as [|c s']; [left; split; [done|apply subx_nil]|].
    right; left. exists c, s'. split_and!; [done..|by apply subx_miss].
Qed.

(** Induction along the substitution. *)
Lemma subx_ind (P : list ascii → Prop) :
  P [] →
  (∀ c s, match_here false r (c :: s) = None → P s → P (c :: s)) →
  (∀ s n g, match_here false r s = Some (S n, g) → (S n ≤ length s)%nat →
            P (drop (S n) s) → P s) →
  ∀ s, P s.
Proof.
  intros Hnil Hmiss Hhit s.
  assert (H : ∀ k s, (length s ≤ k)%nat → P s); [|by apply (H (length s))].
  clear s. induction k as [|k IH]; intros s Hk.
  - destruct s; [done|simpl in Hk; lia].
  - destruct (subx_cases s) as [[-> _]|[(c & s' & -> & E & _)|(n & g & E & Hn & _)]].
    + done.
    + apply Hmiss; [done|]. apply IH. simpl in Hk. lia.
    + apply (Hhit s n g E Hn). apply IH. rewrite length_drop. lia.
Qed.

(** Where no match starts, none starts once the rest is substituted. *)
Hypothesis no_new_match : ∀ c s,
  match_here false r (c :: s) = None → match_here false r (c :: f s) = None.

(** What a match is replaced with is matched again, in full, and is
    replaced with itself. *)
Hypothesis rematch : ∀ s n g,
  match_here false r s = Some (S n, g) →
  f (f (drop (S n) s)) = f (drop (S n) s) →
  ∃ m g', match_here false r (expand ps g ++ f (drop (S n) s)) = Some (S m, g')
         ∧ S m = length (expand ps g)
         ∧ expand ps g' = expand ps g.

Lemma subx_twice s : f (f s) = f s.
Proof.
  induction s as [|c s E IH|s n g E Hn IH] using subx_ind.
  - by rewrite !subx_nil.
  - rewrite (subx_miss _ _ _ _ E).
    rewrite (subx_miss _ _ _ _ (no_new_match _ _ E)). by rewrite IH.
  - rewrite (subx_hit _ _ _ _ _ E).
    destruct (rematch _ _ _ E IH) as (m & g' & E' & Hm & Hexp).
    rewrite (subx_hit _ _ _ _ _ E'), Hexp, Hm, drop_app_length. by rewrite IH.
Qed.
End Twice.

(** *** The link pattern *)

Lemma link_advance s g : match_here false link_pattern s ≠ Some (0%nat, g).
Proof.
  intros E. destruct (link_found _ _ _ E) as (x & rest & -> & Hx & Hall & Hstop).
  rewrite (link_hit _ _ Hx Hall Hstop) in E. simplify_eq.
Qed.

Lemma link_head s :
  is_Some (match_here false link_pattern s)
  ↔ ∃ d u, s = link_label ++ https ++ d :: u ∧ nonspace d = true.
Proof.
  split.
  - intros [[n g] E]. destruct (link_found _ _ _ E) as (x & rest & -> & Hx & Hall & _).
    destruct x as [|d x]; [done|]. exists d, (x ++ rest). split; [done|].
    simpl in Hall. by apply andb_true_iff in Hall as [? _].
  - intros (d & u & -> & Hd).
    pose proof (span_app nonspace (d :: u)) as Happ.
    pose proof (span_all nonspace (d :: u)) as Hall.
    pose proof (span_stops nonspace (d :: u)) as Hstop.
    destruct (span nonspace (d :: u)) as [x rest] eqn:Es. simpl in Happ, Hall, Hstop.
    rewrite Happ. rewrite link_hit; [done| |done..].
    simpl in Es. rewrite Hd in Es. destruct (span nonspace u). by simplify_eq.
Qed.

(** What a match of the link pattern consists of. *)
Lemma link_matched s n g :
  match_here false link_pattern s = Some (S n, g) →
  ∃ x rest, s = link_label ++ https ++ x ++ rest
            ∧ x ≠ [] ∧ forallb nonspace x = true ∧ stops nonspace rest
            ∧ take (S n) s = link_label ++ https ++ x
            ∧ drop (S n) s = rest
            ∧ g = <[0%nat := link_label ++ https ++ x]>
                    (<[1%nat := link_label]> ∅).
Proof.
  intros E. destruct (link_found _ _ _ E) as (x & rest & -> & Hx & Hall & Hstop).
  rewrite (link_hit _ _ Hx Hall Hstop) in E. simplify_eq.
  assert (Hlen : length ((link_label ++ https) ++ x) = S (32 + length x)).
  { rewrite !length_app. change (length link_label) with 25%nat.
    change (length https) with 8%nat. lia. }
  exists x, rest. split_and!; try done.
  - rewrite !(assoc_L (++)). by apply take_app_length'.
  - rewrite !(assoc_L (++)). by apply drop_app_length'.
Qed.

(** A match does not end in a line feed. *)
Lemma link_ends_inside s n g :
  match_here false link_pattern s = Some (S n, g) →
  last (take (S n) s) ≠ Some Str.LF.
Proof.
  intros (x & rest & _ & Hx & Hall & _ & -> & _)%link_matched.
  rewrite !last_app. destruct (last x) as [d|] eqn:Hd; [|by apply last_None in Hd].
  intros [= ->]. apply last_Some in Hd as [x' ->].
  rewrite forallb_app in Hall. by apply andb_true_iff in Hall as [_ Hall].
Qed.

Section Link.
Context (new : list ascii).
#[local] Abbreviation ps := (PGroup 1 :: (PLit <$> new)).
#[local] Abbreviation f := (subx link_pattern ps 0).

Lemma link_expand x :
  expand ps (<[0%nat := x]> (<[1%nat := link_label]> ∅)) = link_label ++ new.
Proof. rewrite expand_cons, expand_lits. done. Qed.

(** A match and what becomes of it. *)
Lemma link_subx_hit s n g :
  match_here false link_pattern s = Some (S n, g) →
  ∃ x rest, s = link_label ++ https ++ x ++ rest
            ∧ x ≠ [] ∧ forallb nonspace x = true ∧ stops nonspace rest
            ∧ take (S n) s = link_label ++ https ++ x
            ∧ drop (S n) s = rest
            ∧ expand ps g = link_label ++ new.
Proof.
  intros (x & rest & ? & ? & ? & ? & ? & ? & ->)%link_matched.
  exists x, rest. split_and!; try done. apply link_expand.
Qed.

Lemma link_stops s : stops nonspace s → stops nonspace (f s).
Proof.
  destruct s as [|c s].
  { intros _. by rewrite subx_nil by apply link_advance. }
  intros Hc. simpl in Hc.
  destruct (match_here false link_pattern (c :: s)) as [[n g]|] eqn:E.
  - destruct (link_found _ _ _ E) as (x & rest & Hs & _).
    injection Hs as -> _. done.
  - by rewrite (subx_miss _ _ _ _ E).
Qed.

Hypothesis new_link : ∃ y, new = https ++ y ∧ y ≠ [] ∧ forallb nonspace y = true.

(** The substitution leaves the first 33 characters as they are. *)
Lemma link_take s : take 33 (f s) = take 33 s.
Proof.
  destruct new_link as (y & Hnew & _).
  assert (H : ∀ k, (k ≤ 33)%nat → take k (f s) = take k s); [|by apply H].
  induction s as [|c s E IH|s n g E Hn IH] using (subx_ind _ ps link_advance);
    intros k Hk.
  - by rewrite subx_nil by apply link_advance.
  - rewrite (subx_miss _ _ _ _ E). destruct k; [done|]. simpl. f_equal. apply IH. lia.
  - rewrite (subx_hit _ _ _ _ _ E).
    destruct (link_subx_hit _ _ _ E) as (x & rest & -> & _ & _ & _ & _ & _ & ->).
    rewrite Hnew. rewrite !(assoc_L (++)).
    rewrite <- !(assoc_L (++) (link_label ++ https)).
    by rewrite !(take_app_le (link_label ++ https)) by done.
Qed.

Lemma link_no_new_match c s :
  match_here false link_pattern (c :: s) = None →
  match_here false link_pattern (c :: f s) = None.
Proof.
  intros E. apply eq_None_not_Some. intros (d & u & Hs & Hd)%link_head.
  assert (Hnone : ¬ is_Some (match_here false link_pattern (c :: s)))
    by (rewrite E; by intros [? ?]).
  apply Hnone, link_head. exists d, (drop 33 s). split; [|done].
  rewrite <- (take_drop 33 s) at 1. rewrite <- link_take.
  assert (H34 : take 34 (c :: f s) = link_label ++ https ++ [d]).
  { rewrite Hs. rewrite !(assoc_L (++)), (cons_middle d), (assoc_L (++)).
    by rewrite take_app_length'. }
  simpl in H34. injection H34 as -> H33. rewrite H33. done.
Qed.

Lemma link_rematch s n g :
  match_here false link_pattern s = Some (S n, g) →
  ∃ m g', match_here false link_pattern (expand ps g ++ f (drop (S n) s))
          = Some (S m, g')
         ∧ S m = length (expand ps g)
         ∧ expand ps g' = expand ps g.
Proof.
  intros E. destruct new_link as (y & Hnew & Hy & Hall).
  destruct (link_subx_hit _ _ _ E) as (x & rest & -> & _ & _ & Hstop & _ & -> & ->).
  exists (32 + length y)%nat. eexists. split_and!.
  - replace ((link_label ++ new) ++ f rest)
      with (link_label ++ https ++ y ++ f rest)
      by (by rewrite (assoc_L (++) https), <- Hnew, (assoc_L (++))).
    apply (link_hit y (f rest) Hy Hall (link_stops _ Hstop)).
  - rewrite Hnew, !length_app. done.
  - apply link_expand.
Qed.

Lemma link_twice s : f (f s) = f s.
Proof.
  apply subx_twice.
  - apply link_advance.
  - apply link_no_new_match.
  - intros ? ? ? E _. by apply link_rematch.
Qed.
End Link.

(** *** The image pattern *)

Lemma strip_prefix_head a p c t :
  Ascii.eqb a c = false → strip_prefix (a :: p) (c :: t) = None.
Proof. intros H. simpl. by rewrite H. Qed.

Lemma unquoted_spec c : unquoted c = true → Ascii.eqb Str.dquote c = false.
Proof.
  unfold unquoted, mem, elem. cbn [existsb]. rewrite orb_false_r.
  rewrite (Ascii.eqb_sym Str.dquote). by intros ->%negb_true_iff.
Qed.

Lemma inside_spec c : inside c = true → Ascii.eqb ">" c = false.
Proof.
  unfold inside, mem, elem. cbn [existsb]. rewrite orb_false_r.
  rewrite (Ascii.eqb_sym ">"). by intros ->%negb_true_iff.
Qed.

(** The pattern from the source on: what [match_here] runs once the
    opening of the tag is read. *)
Lemma qr_run s :
  match_here false qr_pattern s
  = s1 ← strip_prefix tag_open s;
    let '(x, s2) := span unquoted s1 in
    if (1 <=? length x)%nat then
      s3 ← strip_prefix tag_alt s2;
      let '(z, s4) := span inside s3 in
      s5 ← strip_prefix [">"%char] s4;
      Some ((length s - length s5)%nat,
            <[0%nat := take (length s - length s5) s]>
              (<[2%nat := take (length s2 - length s5) s2]>
                 (<[1%nat := take (length s - length s1) s]> ∅)))
    else None.
Proof.
  unfold match_here, qr_pattern, seq. cbn [foldr run].
  fold tag_open. fold tag_alt.
  destruct (strip_prefix tag_open s) as [s1|] eqn:E1; [|done].
  cbn [mbind option_bind].
  rewrite rep_greedy_only.
  2:{ intros c t Hc. apply unquoted_spec in Hc.
      change tag_alt with (Str.dquote :: tl tag_alt).
      by rewrite strip_prefix_head. }
  change (mem (NoneOf [Str.dquote])) with unquoted.
  destruct (span unquoted s1) as [x s2] eqn:Ex. cbn [fst snd].
  destruct (1 <=? length x)%nat; [|done].
  destruct (strip_prefix tag_alt s2) as [s3|] eqn:E3; [|done].
  cbn [mbind option_bind].
  rewrite rep_greedy_only.
  2:{ intros c t Hc. apply inside_spec in Hc.
      change (chars ">") with [">"%char].
      by rewrite strip_prefix_head. }
  change (mem (NoneOf [">"%char])) with inside.
  destruct (span inside s3) as [z s4] eqn:Ez. cbn [fst snd].
  change (chars ">") with [">"%char].
  destruct (strip_prefix [">"%char] s4) as [s5|] eqn:E5; [|done].
  cbn [mbind option_bind chars list_ascii_of_string strip_prefix andb]. done.
Qed.

Lemma tag_alt_stops w : stops unquoted (tag_alt ++ w).
Proof. done. Qed.

Lemma inside_stops w : stops inside (">"%char :: w).
Proof. done. Qed.

Lemma qr_hit x z rest :
  x ≠ [] → forallb unquoted x = true → forallb inside z = true →
  match_here false qr_pattern (tag_open ++ x ++ tag_alt ++ z ++ ">"%char :: rest)
  = Some ((38 + length x + length z)%nat,
          <[0%nat := tag_open ++ x ++ tag_alt ++ z ++ [">"%char]]>
            (<[2%nat := tag_alt ++ z ++ [">"%char]]>
               (<[1%nat := tag_open]> ∅))).
Proof.
  intros Hx Hux Hz. rewrite qr_run.
  assert (E1 : strip_prefix tag_open (tag_open ++ x ++ tag_alt ++ z ++ ">"%char :: rest)
               = Some (x ++ tag_alt ++ z ++ ">"%char :: rest)) by by apply strip_prefix_Some.
  rewrite E1. cbn [mbind option_bind].
  rewrite (span_run _ _ _ Hux (tag_alt_stops _)).
  replace (1 <=? length x)%nat with true by (by destruct x).
  assert (E3 : strip_prefix tag_alt (tag_alt ++ z ++ ">"%char :: rest)
               = Some (z ++ ">"%char :: rest)) by by apply strip_prefix_Some.
  rewrite E3. cbn [mbind option_bind].
  rewrite (span_run _ _ _ Hz (inside_stops _)).
  cbn [strip_prefix Ascii.eqb Bool.eqb mbind option_bind].
  f_equal. f_equal.
  - rewrite !length_app. cbn [length].
    change (length tag_open) with 10%nat. change (length tag_alt) with 27%nat.
    lia.
  - f_equal; [|f_equal; [|f_equal]].
    + replace (tag_open ++ x ++ tag_alt ++ z ++ ">"%char :: rest)
        with ((tag_open ++ x ++ tag_alt ++ z ++ [">"%char]) ++ rest)
        by (by rewrite <- !(assoc_L (++))).
      apply take_consumed.
    + replace (tag_alt ++ z ++ ">"%char :: rest)
        with ((tag_alt ++ z ++ [">"%char]) ++ rest)
        by (by rewrite <- !(assoc_L (++))).
      apply take_consumed.
    + apply take_consumed.
Qed.

Lemma qr_found s n g :
  match_here false qr_pattern s = Some (n, g) →
  ∃ x z rest, s = tag_open ++ x ++ tag_alt ++ z ++ ">"%char :: rest
              ∧ x ≠ [] ∧ forallb unquoted x = true ∧ forallb inside z = true.
Proof.
  rewrite qr_run.
  destruct (strip_prefix tag_open s) as [s1|] eqn:E1; [|done].
  cbn [mbind option_bind].
  pose proof (span_app unquoted s1) as Happ1. pose proof (span_all unquoted s1) as Hall1.
  destruct (span unquoted s1) as [x s2]. cbn [fst snd] in *.
  destruct (1 <=? length x)%nat eqn:Hx; [|done].
  destruct (strip_prefix tag_alt s2) as [s3|] eqn:E3; [|done].
  cbn [mbind option_bind].
  pose proof (span_app inside s3) as Happ3. pose proof (span_all inside s3) as Hall3.
  destruct (span inside s3) as [z s4]. cbn [fst snd] in *.
  destruct (strip_prefix [">"%char] s4) as [s5|] eqn:E5; [|done].
  intros _. apply strip_prefix_Some in E1, E3, E5.
  exists x, z, s5. split_and!; [by subst|by destruct x|done..].
Qed.

(** Whatever comes before the next [>] is inside the tag. *)
Lemma span_inside w :
  ">"%char ∈ w → ∃ z rest, w = z ++ ">"%char :: rest ∧ forallb inside z = true.
Proof.
  intros Hin. pose proof (span_app inside w) as Happ.
  pose proof (span_all inside w) as Hall. pose proof (span_stops inside w) as Hstop.
  destruct (span inside w) as [z s4]. cbn [fst snd] in *.
  destruct s4 as [|c s4].
  - rewrite app_nil_r in Happ. subst z.
    rewrite forallb_forall in Hall. apply list_elem_of_In, Hall in Hin. done.
  - simpl in Hstop. exists z, s4. split; [|done].
    assert (c = ">"%char) as <-; [|done].
    unfold inside, mem, elem in Hstop. cbn [existsb] in Hstop.
    rewrite orb_false_r in Hstop. apply negb_false_iff in Hstop.
    by apply Ascii.eqb_eq in Hstop.
Qed.

(** When the image pattern matches at the start of a text. *)
Lemma qr_head s :
  is_Some (match_here false qr_pattern s)
  ↔ ∃ x w, s = tag_open ++ x ++ tag_alt ++ w
           ∧ x ≠ [] ∧ forallb unquoted x = true ∧ ">"%char ∈ w.
Proof.
  split.
  - intros [[n g] E]. destruct (qr_found _ _ _ E) as (x & z & rest & -> & Hx & Hall & _).
    exists x, (z ++ ">"%char :: rest). split_and!; try done. set_solver.
  - intros (x & w & -> & Hx & Hall & Hw).
    destruct (span_inside _ Hw) as (z & rest & -> & Hz).
    by rewrite qr_hit.
Qed.

Lemma qr_advance s g : match_here false qr_pattern s ≠ Some (0%nat, g).
Proof.
  intros E. destruct (qr_found _ _ _ E) as (x & z & rest & -> & Hx & Hux & Hz).
  rewrite (qr_hit _ _ _ Hx Hux Hz) in E. simplify_eq.
Qed.

(** Two texts that agree up to their first double quote. *)
Lemma first_quote a b r r' :
  forallb unquoted a = true → forallb unquoted b = true →
  a ++ Str.dquote :: r = b ++ Str.dquote :: r' → a = b ∧ r = r'.
Proof.
  revert b. induction a as [|c a IH]; intros [|d b] Ha Hb E; simpl in *.
  - by simplify_eq.
  - by simplify_eq.
  - by simplify_eq.
  - apply andb_true_iff in Ha as [_ Ha]. apply andb_true_iff in Hb as [_ Hb].
    injection E as -> E. destruct (IH _ Ha Hb E) as [-> ->]. done.
Qed.

Lemma unquoted_app a b :
  forallb unquoted (a ++ b) = true
  ↔ forallb unquoted a = true ∧ forallb unquoted b = true.
Proof. rewrite forallb_app. apply andb_true_iff. Qed.

(** The opening of the tag starts nowhere inside itself, nor inside the
    attribute that follows the source. *)
Lemma tag_open_apart p k w w' :
  p ≠ [] → tag_open = p ++ k → tag_open ++ w = k ++ w' → k = [].
Proof.
  intros Hp Ho E. destruct k as [|b k]; [done|]. exfalso.
  destruct p as [|a p]; [done|].
  assert (b = "<"%char) as -> by (by injection E as <- _).
  assert (Hin : "<"%char ∈ tl tag_open) by (rewrite Ho; set_solver).
  apply list_elem_of_In in Hin. vm_compute in Hin. intuition discriminate.
Qed.

Lemma tag_alt_apart p k w w' :
  tag_alt = p ++ k → tag_open ++ w = k ++ w' → k = [].
Proof.
  intros Ho E. destruct k as [|b k]; [done|]. exfalso.
  assert (b = "<"%char) as -> by (by injection E as <- _).
  assert (Hin : "<"%char ∈ tag_alt) by (rewrite Ho; set_solver).
  apply list_elem_of_In in Hin. vm_compute in Hin. intuition discriminate.
Qed.

(** After a source, the attribute does not start over. *)
Lemma tag_alt_once y w w' :
  y ≠ [] → forallb unquoted y = true →
  tl tag_alt ++ w ≠ y ++ tag_alt ++ w'.
Proof.
  intros Hy Hall E.
  change (tl tag_alt) with (chars " alt=" ++ Str.dquote :: chars "MessageDict QR Code" ++ [Str.dquote]) in E.
  change tag_alt with (Str.dquote :: chars " alt=" ++ Str.dquote :: chars "MessageDict QR Code" ++ [Str.dquote]) in E.
  rewrite <- !(assoc_L (++)) in E. cbn [app] in E.
  apply first_quote in E as [<- E]; [|done..].
  discriminate E.
Qed.

(** A match that starts before a tag does not depend on the source the
    tag has. *)
Lemma qr_swap p x y w :
  x ≠ [] → forallb unquoted x = true →
  y ≠ [] → forallb unquoted y = true →
  ">"%char ∈ w →
  is_Some (match_here false qr_pattern (p ++ tag_open ++ y ++ tag_alt ++ w)) →
  is_Some (match_here false qr_pattern (p ++ tag_open ++ x ++ tag_alt ++ w)).
Proof.
  intros Hx Hux Hy Huy Hw (x1 & w1 & E & Hx1 & Hux1 & Hw1)%qr_head.
  apply qr_head.
  destruct p as [|a p]; [by exists x, w|].
  assert (∃ k, a :: p = tag_open ++ k
               ∧ x1 ++ tag_alt ++ w1 = k ++ tag_open ++ y ++ tag_alt ++ w)
    as (k & -> & E').
  { apply app_eq_inv in E as [(k & Hp & E)|(k & Ho & E)]; [by exists k|].
    pose proof (tag_open_apart (a :: p) k _ _ ltac:(done) Ho E) as ->.
    rewrite app_nil_r in Ho. exists []. by rewrite <- Ho. }
  clear E. apply app_eq_inv in E' as [(k2 & -> & E)|(k2 & -> & E)].
  - (* the source of the match runs into the tag *)
    exfalso. apply unquoted_app in Hux1 as [_ Hk2].
    change tag_open with (chars "<img src=" ++ [Str.dquote]) in E.
    change tag_alt with (Str.dquote :: tl tag_alt) in E at 2.
    rewrite <- !(assoc_L (++)) in E. cbn [app] in E.
    apply first_quote in E as [_ E]; [|done..].
    symmetry in E. by apply tag_alt_once in E.
  - (* the source of the match ends before the tag *)
    assert (∃ k3, k2 = tag_alt ++ k3) as (k3 & ->).
    { apply app_eq_inv in E as [(k3 & Ha & E)|(k3 & Hk & E)]; [|by exists k3].
      pose proof (tag_alt_apart _ _ _ _ Ha E) as ->.
      rewrite app_nil_r in Ha. exists []. by rewrite app_nil_r. }
    exists x1, (k3 ++ tag_open ++ x ++ tag_alt ++ w).
    split_and!; [by rewrite <- !(assoc_L (++))|done..|].
    rewrite !elem_of_app. auto.
Qed.

(** What a match of the image pattern consists of. *)
Lemma qr_matched s n g :
  match_here false qr_pattern s = Some (S n, g) →
  ∃ x z rest, s = tag_open ++ x ++ tag_alt ++ z ++ ">"%char :: rest
              ∧ x ≠ [] ∧ forallb unquoted x = true ∧ forallb inside z = true
              ∧ take (S n) s = tag_open ++ x ++ tag_alt ++ z ++ [">"%char]
              ∧ drop (S n) s = rest
              ∧ g = <[0%nat := tag_open ++ x ++ tag_alt ++ z ++ [">"%char]]>
                      (<[2%nat := tag_alt ++ z ++ [">"%char]]>
                         (<[1%nat := tag_open]> ∅)).
Proof.
  intros E. destruct (qr_found _ _ _ E) as (x & z & rest & -> & Hx & Hux & Hz).
  rewrite (qr_hit _ _ _ Hx Hux Hz) in E. simplify_eq.
  replace (tag_open ++ x ++ tag_alt ++ z ++ ">"%char :: rest)
    with ((tag_open ++ x ++ tag_alt ++ z ++ [">"%char]) ++ rest)
    by (by rewrite <- !(assoc_L (++))).
  assert (Hlen : length (tag_open ++ x ++ tag_alt ++ z ++ [">"%char])
                 = S (37 + length x + length z)).
  { rewrite !length_app. change (length tag_open) with 10%nat.
    change (length tag_alt) with 27%nat. simpl. lia. }
  exists x, z, rest. split_and!; try done.
  - by rewrite <- !app_assoc.
  - apply take_app_length'. lia.
  - apply drop_app_length'. lia.
Qed.

(** A match does not end in a line feed. *)
Lemma qr_ends_inside s n g :
  match_here false qr_pattern s = Some (S n, g) →
  last (take (S n) s) ≠ Some Str.LF.
Proof.
  intros (x & z & rest & _ & _ & _ & _ & -> & _)%qr_matched.
  by rewrite !(assoc_L (++)), last_snoc.
Qed.

Section Image.
Context (new : list ascii).
#[local] Abbreviation ps := (PGroup 1 :: (PLit <$> new) ++ [PGroup 2]).
#[local] Abbreviation f := (subx qr_pattern ps 0).

Lemma qr_expand x y :
  expand ps (<[0%nat := x]> (<[2%nat := y]> (<[1%nat := tag_open]> ∅)))
  = tag_open ++ new ++ y.
Proof.
  rewrite expand_cons, expand_app, expand_lits.
  f_equal. f_equal. apply app_nil_r.
Qed.

(** A match and what becomes of it. *)
Lemma qr_subx_hit s n g :
  match_here false qr_pattern s = Some (S n, g) →
  ∃ x z rest, s = tag_open ++ x ++ tag_alt ++ z ++ ">"%char :: rest
              ∧ x ≠ [] ∧ forallb unquoted x = true ∧ forallb inside z = true
              ∧ take (S n) s = tag_open ++ x ++ tag_alt ++ z ++ [">"%char]
              ∧ drop (S n) s = rest
              ∧ expand ps g = tag_open ++ new ++ tag_alt ++ z ++ [">"%char].
Proof.
  intros (x & z & rest & ? & ? & ? & ? & ? & ? & ->)%qr_matched.
  exists x, z, rest. split_and!; try done. apply qr_expand.
Qed.

Hypothesis new_source : new ≠ [] ∧ forallb unquoted new = true.

(** No match appears where the text had none. *)
Lemma qr_stable u : ∀ p,
  is_Some (match_here false qr_pattern (p ++ f u)) →
  is_Some (match_here false qr_pattern (p ++ u)).
Proof.
  destruct new_source as [Hnew Hunew].
  induction u as [|c u E IH|u n g E Hn IH] using (subx_ind _ ps qr_advance);
    intros p.
  - by rewrite subx_nil by apply qr_advance.
  - rewrite (subx_miss _ _ _ _ E).
    rewrite (cons_middle c p), (cons_middle c p u), !(assoc_L (++)). apply IH.
  - rewrite (subx_hit _ _ _ _ _ E).
    destruct (qr_subx_hit _ _ _ E) as (x & z & rest & -> & Hx & Hux & Hz & _ & Hd & ->).
    rewrite Hd in *. intros H. rewrite (assoc_L (++)) in H. apply IH in H.
    rewrite <- !(assoc_L (++)) in H. cbn [app] in H.
    apply (qr_swap p x new (z ++ ">"%char :: rest)); try done.
    rewrite elem_of_app, elem_of_cons. auto.
Qed.

Lemma qr_no_new_match c s :
  match_here false qr_pattern (c :: s) = None →
  match_here false qr_pattern (c :: f s) = None.
Proof.
  intros E. apply eq_None_not_Some. intros H.
  apply (qr_stable s [c]) in H. cbn [app] in H. rewrite E in H. by destruct H.
Qed.

Lemma qr_rematch s n g :
  match_here false qr_pattern s = Some (S n, g) →
  ∃ m g', match_here false qr_pattern (expand ps g ++ f (drop (S n) s))
          = Some (S m, g')
         ∧ S m = length (expand ps g)
         ∧ expand ps g' = expand ps g.
Proof.
  intros E. destruct new_source as [Hnew Hunew].
  destruct (qr_subx_hit _ _ _ E) as (x & z & rest & -> & _ & _ & Hz & _ & -> & ->).
  exists (37 + length new + length z)%nat. eexists. split_and!.
  - rewrite <- !(assoc_L (++)). cbn [app]. by apply qr_hit.
  - rewrite !length_app. change (length tag_open) with 10%nat.
    change (length tag_alt) with 27%nat. simpl. lia.
  - apply qr_expand.
Qed.

Lemma qr_twice s : f (f s) = f s.
Proof.
  apply subx_twice.
  - apply qr_advance.
  - apply qr_no_new_match.
  - intros ? ? ? E _. by apply qr_rematch.
Qed.
End Image.

(** *** Substitution in a line of a file *)

Section Lines.
Context (r : regex) (ps : list piece).
#[local] Abbreviation f := (subx r ps 0).

Hypothesis advance : ∀ s g, match_here false r s ≠ Some (0%nat, g).

(** A replacement brings in no line feed, a match does not end in one,
    and no match is replaced with nothing. *)
Hypothesis keeps_lf_out : ∀ s n g,
  match_here false r s = Some (S n, g) →
  Str.LF ∉ take (S n) s → Str.LF ∉ expand ps g.
Hypothesis ends_inside : ∀ s n g,
  match_here false r s = Some (S n, g) → last (take (S n) s) ≠ Some Str.LF.
Hypothesis expands : ∀ s n g,
  match_here false r s = Some (S n, g) → expand ps g ≠ [].

Lemma subx_lf_free s : Str.LF ∉ s → Str.LF ∉ f s.
Proof.
  induction s as [|c s E IH|s n g E Hn IH] using (subx_ind _ ps advance).
  - by rewrite subx_nil.
  - rewrite (subx_miss _ _ _ _ E), !not_elem_of_cons. intros [? ?]. auto.
  - rewrite (subx_hit _ _ _ _ _ E). rewrite <- (take_drop (S n) s) at 1.
    rewrite !not_elem_of_app. intros [? ?]. eauto.
Qed.

Lemma subx_nonempty s : s ≠ [] → f s ≠ [].
Proof.
  destruct (subx_cases _ ps advance s)
    as [[-> _]|[(c & s' & -> & E & ->)|(n & g & E & Hn & ->)]]; [done..|].
  intros _ [He _]%app_eq_nil. by apply expands in E.
Qed.

Lemma subx_closed s : ∀ body,
  s = body ++ [Str.LF] → Str.LF ∉ body →
  ∃ body', f s = body' ++ [Str.LF] ∧ Str.LF ∉ body'.
Proof.
  induction s as [|c s E IH|s n g E Hn IH] using (subx_ind _ ps advance);
    intros body Hs Hbody.
  - by destruct body.
  - rewrite (subx_miss _ _ _ _ E). destruct body as [|b body].
    + injection Hs as -> ->. exists []. by rewrite subx_nil.
    + injection Hs as -> ->. apply not_elem_of_cons in Hbody as [Hb Hbody].
      destruct (IH body eq_refl Hbody) as (body' & -> & Hbody').
      exists (b :: body'). split; [done|]. by apply not_elem_of_cons.
  - rewrite (subx_hit _ _ _ _ _ E). subst s.
    assert (S n ≤ length body)%nat as Hle.
    { rewrite length_app in Hn. simpl in Hn.
      destruct (decide (S n = length body + 1)%nat) as [Heq|]; [|lia].
      apply ends_inside in E. rewrite Heq in E.
      rewrite take_ge in E by (rewrite length_app; simpl; lia).
      by rewrite last_snoc in E. }
    destruct (IH (drop (S n) body)) as (body' & -> & Hbody').
    { by apply drop_app_le. }
    { intros Hin. apply Hbody. rewrite <- (take_drop (S n) body).
      apply elem_of_app. by right. }
    exists (expand ps g ++ body'). split; [by rewrite (assoc_L (++))|].
    apply not_elem_of_app. split; [|done].
    apply (keeps_lf_out _ _ _ E). rewrite take_app_le by done.
    intros Hin. apply Hbody. rewrite <- (take_drop (S n) body).
    apply elem_of_app. by left.
Qed.
End Lines.

Lemma text_cons c l : text (c :: l) = String c (text l).
Proof. done. Qed.

Lemma readlines_closed body s :
  Str.LF ∉ body →
  readlines (text (body ++ [Str.LF]) +:+ s)
  = text (body ++ [Str.LF]) :: readlines s.
Proof.
  induction body as [|c body IH]; intros Hbody; [done|].
  apply not_elem_of_cons in Hbody as [Hc Hbody].
  change (readlines (String c (text (body ++ [Str.LF]) +:+ s))
          = String c (text (body ++ [Str.LF])) :: readlines s).
  cbn [readlines]. rewrite (IH Hbody).
  destruct (Ascii.eqb_spec c Str.LF); [by subst|done].
Qed.

Lemma readlines_open body :
  body ≠ [] → Str.LF ∉ body → readlines (text body) = [text body].
Proof.
  induction body as [|c body IH]; intros Hne Hbody; [done|].
  apply not_elem_of_cons in Hbody as [Hc Hbody].
  rewrite text_cons. cbn [readlines].
  destruct (Ascii.eqb_spec c Str.LF); [by subst|].
  destruct body as [|d body]; [done|]. by rewrite IH.
Qed.

Lemma readlines_file_lines s : file_lines (readlines s).
Proof.
  induction s as [|c s IH]; [constructor|]. cbn [readlines].
  destruct (Ascii.eqb_spec c Str.LF) as [->|Hc].
  - apply (file_lines_closed []); [by apply not_elem_of_nil|done].
  - inversion IH as [|body Hne Hbody Hl|body ls Hbody Hls Hl].
    + apply (file_lines_open [c]); [done|].
      apply not_elem_of_cons. split; [done|apply not_elem_of_nil].
    + apply (file_lines_open (c :: body)); [done|].
      by apply not_elem_of_cons.
    + apply (file_lines_closed (c :: body)); [|done].
      by apply not_elem_of_cons.
Qed.

Lemma append_nil_r s : s +:+ "" = s.
Proof.
  induction s as [|c s IH]; [done|].
  change (String c (s +:+ "") = String c s). by rewrite IH.
Qed.

(** Reading back what was written gives the lines that were written. *)
Lemma readlines_writelines ls : file_lines ls → readlines (writelines ls) = ls.
Proof.
  unfold writelines. induction 1 as [|body Hne Hbody|body ls Hbody Hls IH].
  - done.
  - rewrite join_cons. change (Str.join []) with "". rewrite append_nil_r.
    by apply readlines_open.
  - rewrite join_cons, readlines_closed, IH; done.
Qed.

(** Replacing a line with one of the same kind keeps the lines those of a
    file. *)
Lemma file_lines_insert (g : list ascii → list ascii) ls i l :
  (∀ body, body ≠ [] → Str.LF ∉ body → g body ≠ [] ∧ Str.LF ∉ g body) →
  (∀ body, Str.LF ∉ body →
           ∃ body', g (body ++ [Str.LF]) = body' ++ [Str.LF] ∧ Str.LF ∉ body') →
  file_lines ls → ls !! i = Some l →
  file_lines (<[i := text (g (chars l))]> ls).
Proof.
  intros Hopen Hclosed Hls. revert i.
  induction Hls as [|body Hne Hbody|body ls Hbody Hls IH]; intros i Hi.
  - done.
  - destruct i; [|done]. simpl in Hi. injection Hi as <-.
    rewrite chars_text. simpl. apply file_lines_open; by apply Hopen.
  - destruct i as [|i].
    + simpl in Hi. injection Hi as <-. rewrite chars_text. simpl.
      destruct (Hclosed body Hbody) as (body' & -> & Hbody').
      by apply file_lines_closed.
    + simpl. apply file_lines_closed; [done|]. by apply IH.
Qed.

(** *** A patcher run twice *)

Section Patcher.
Context (announce done_msg : string) (pattern : regex) (repl : string)
        (ps : list piece).
#[local] Abbreviation f := (subx pattern ps 0).
#[local] Abbreviation patch := (patcher announce done_msg pattern repl).

Hypothesis template : parse_template (groups pattern) (chars repl) = inr ps.
Hypothesis twice : ∀ s, f (f s) = f s.
Hypothesis open_line : ∀ body,
  body ≠ [] → Str.LF ∉ body → f body ≠ [] ∧ Str.LF ∉ f body.
Hypothesis closed_line : ∀ body,
  Str.LF ∉ body →
  ∃ body', f (body ++ [Str.LF]) = body' ++ [Str.LF] ∧ Str.LF ∉ body'.

Lemma sub_template line : sub pattern repl line = inr (text (f (chars line))).
Proof. unfold sub. by rewrite template. Qed.

Lemma patch_lines_twice ln lines :
  file_lines lines →
  ∃ lines', patch_lines pattern repl ln lines = inr lines'
            ∧ file_lines lines'
            ∧ patch_lines pattern repl ln lines' = inr lines'.
Proof.
  intros Hls. rewrite patch_lines_spec.
  destruct (target ln lines) as [[i line]|] eqn:Ht.
  - rewrite sub_template. eexists. split; [done|].
    unfold target in Ht. destruct (1 <=? ln) eqn:Hln; [|done].
    destruct (lines !! Z.to_nat (ln - 1)) as [l|] eqn:Hl; [|done].
    simpl in Ht. injection Ht as <- <-. split.
    + by apply file_lines_insert.
    + rewrite patch_lines_spec. unfold target. rewrite Hln.
      rewrite list_lookup_insert_eq by (by eapply lookup_lt_Some).
      simpl. rewrite sub_template, chars_text, twice.
      by rewrite list_insert_insert_eq.
  - exists lines. split; [done|]. split; [done|].
    by rewrite patch_lines_spec, Ht.
Qed.

(** The second run leaves the files as the first left them. *)
Lemma patcher_twice ln w :
  files (snd (patch ln (snd (patch ln w)))) = files (snd (patch ln w)).
Proof.
  destruct (files w !! README_PATH) as [doc|] eqn:Hf.
  - rewrite (patcher_run _ _ _ _ _ _ _ Hf).
    destruct (patch_lines_twice ln (readlines doc) (readlines_file_lines _))
      as (lines' & -> & Hls & H2).
    cbn [snd]. erewrite patcher_run; [|apply lookup_insert_eq].
    rewrite (readlines_writelines _ Hls), H2. simpl.
    by rewrite insert_insert_eq.
  - assert (Hrun : ∀ w', files w' !! README_PATH = None →
                         files (snd (patch ln w')) = files w').
    { intros w' Hw'.
      unfold patcher, mbind, M_bind, fmap, M_fmap, mbind, M_bind, read_file, print.
      simpl. by rewrite Hw'. }
    rewrite !Hrun; [done..|]. by rewrite Hrun.
Qed.
End Patcher.

Lemma chars_app a b : chars (a +:+ b) = chars a ++ chars b.
Proof.
  induction a as [|c a IH]; [done|].
  change (c :: chars (a +:+ b) = c :: chars a ++ chars b). by rewrite IH.
Qed.

Lemma forallb_elem_of {A} (p : A → bool) l x :
  forallb p l = true → x ∈ l → p x = true.
Proof. rewrite forallb_forall. intros H Hx. apply H. by apply list_elem_of_In. Qed.

Lemma forallb_impl {A} (p q : A → bool) l :
  (∀ x, p x = true → q x = true) → forallb p l = true → forallb q l = true.
Proof. rewrite !forallb_forall. auto. Qed.

Lemma not_elem_of_forallb (p : ascii → bool) l c :
  p c = false → forallb p l = true → c ∉ l.
Proof. intros Hc Hall Hin. by rewrite (forallb_elem_of _ _ _ Hall Hin) in Hc. Qed.

Lemma link_value_spec new :
  link_value new = true →
  (∃ y, chars new = https ++ y ∧ y ≠ [] ∧ forallb nonspace y = true)
  ∧ forallb unescaped (chars new) = true
  ∧ starts_plain (chars new) = true
  ∧ Str.LF ∉ chars new.
Proof.
  unfold link_value. fold https.
  destruct (strip_prefix https (chars new)) as [[|c y]|] eqn:E; [done| |done].
  apply strip_prefix_Some in E. intros Hall. split_and!.
  - exists (c :: y). split_and!; [done..|].
    rewrite E, forallb_app in Hall. apply andb_true_iff in Hall as [_ Hall].
    revert Hall. apply forallb_impl. by intros x [? _]%andb_true_iff.
  - revert Hall. apply forallb_impl. by intros x [_ ?]%andb_true_iff.
  - by rewrite E.
  - revert Hall. by apply not_elem_of_forallb.
Qed.

Lemma source_value_spec new :
  source_value new = true →
  (chars new ≠ [] ∧ forallb unquoted (chars new) = true)
  ∧ forallb unescaped (chars new) = true
  ∧ starts_plain (chars new) = true
  ∧ Str.LF ∉ chars new.
Proof.
  unfold source_value. intros [Hhd Hall]%andb_true_iff. split_and!.
  - by destruct (chars new).
  - revert Hall. apply forallb_impl. intros x [[Hx _]%andb_true_iff _]%andb_true_iff.
    unfold unquoted, mem, elem. cbn [existsb]. by rewrite orb_false_r.
  - revert Hall. apply forallb_impl. by intros x [[_ ?]%andb_true_iff _]%andb_true_iff.
  - by destruct (chars new).
  - revert Hall. by apply not_elem_of_forallb.
Qed.

Lemma plain_value_spec new :
  plain_value new = true →
  forallb unescaped (chars new) = true ∧ starts_plain (chars new) = true.
Proof.
  unfold plain_value. intros [Hhd Hall]%andb_true_iff. split; [done|].
  by destruct (chars new).
Qed.

(** *** The two patchers on a line of a file *)

Section LinkLines.
Context (new : list ascii).
#[local] Abbreviation ps := (PGroup 1 :: (PLit <$> new)).
#[local] Abbreviation f := (subx link_pattern ps 0).
Hypothesis new_lf : Str.LF ∉ new.

Lemma link_keeps_lf_out s n g :
  match_here false link_pattern s = Some (S n, g) →
  Str.LF ∉ take (S n) s → Str.LF ∉ expand ps g.
Proof.
  intros E _. destruct (link_subx_hit new _ _ _ E) as (x & rest & _ & _ & _ & _ & _ & _ & ->).
  apply not_elem_of_app. split; [|done].
  intros Hin%list_elem_of_In. vm_compute in Hin. intuition discriminate.
Qed.

Lemma link_expands s n g :
  match_here false link_pattern s = Some (S n, g) → expand ps g ≠ [].
Proof.
  intros E. by destruct (link_subx_hit new _ _ _ E) as (x & rest & _ & _ & _ & _ & _ & _ & ->).
Qed.
End LinkLines.

Section ImageLines.
Context (new : list ascii).
#[local] Abbreviation ps := (PGroup 1 :: (PLit <$> new) ++ [PGroup 2]).
#[local] Abbreviation f := (subx qr_pattern ps 0).
Hypothesis new_lf : Str.LF ∉ new.

Lemma qr_keeps_lf_out s n g :
  match_here false qr_pattern s = Some (S n, g) →
  Str.LF ∉ take (S n) s → Str.LF ∉ expand ps g.
Proof.
  intros E. destruct (qr_subx_hit new _ _ _ E)
    as (x & z & rest & _ & _ & _ & _ & -> & _ & ->).
  rewrite !not_elem_of_app. tauto.
Qed.

Lemma qr_expands s n g :
  match_here false qr_pattern s = Some (S n, g) → expand ps g ≠ [].
Proof.
  intros E. by destruct (qr_subx_hit new _ _ _ E)
    as (x & z & rest & _ & _ & _ & _ & _ & _ & ->).
Qed.
End ImageLines.

Lemma search_None r line :
  Re.search r line = None → Re.search_from r 0 (Re.chars line) = None.
Proof. unfold Re.search. by destruct (Re.search_from _ _ _) as [[[? ?] ?]|]. Qed.

(** Where the targeted line has no match, a patcher leaves the files as
    they are, and ends well when the template is well formed. *)
Lemma unmatched_line_kept announce done_msg pat repl ln w doc i line :
  files w !! README_PATH = Some doc →
  target ln (readlines doc) = Some (i, line) →
  Re.search pat line = None →
  files (snd (patcher announce done_msg pat repl ln w)) = files w
  ∧ ∀ ps, Re.parse_template (Re.groups pat) (Re.chars repl) = inr ps →
          fst (patcher announce done_msg pat repl ln w) = Ret tt.
Proof.
  intros Hf Ht Hs. rewrite (patcher_run _ _ _ _ _ _ _ Hf), patch_lines_spec, Ht.
  unfold Re.sub.
  destruct (Re.parse_template _ _) as [e|ps]; [done|].
  rewrite (subx_not_found _ _ _ _ (search_None _ _ Hs)), text_chars.
  split; [|done]. simpl.
  unfold target in Ht. destruct (1 <=? ln); [|done].
  destruct (readlines doc !! Z.to_nat (ln - 1)) eqn:Hl; [|done].
  simpl in Ht. injection Ht as <- <-.
  by rewrite list_insert_id, writelines_readlines, insert_id.
Qed.

End Substitution.

(** ** The document patcher: lines without a match, and a second run *)







(** ** Running a computation path by path *)

Ltac head_destruct t :=
  lazymatch t with
  | match ?x with _ => _ end => head_destruct x
  | (match ?x with _ => _ end) _ => head_destruct x
  | _ => destruct t eqn:?
  end.

(** Splits the run in [H : m w = (res, w')] at whatever decides its next
    step, until every goal is one path to the end. *)
Ltac exec_in H :=
  repeat (
    lazymatch type of H with
    | (_, _) = (_, _) => fail
    | ?lhs = _ => head_destruct lhs; simpl in H
    end).

Ltac unfold_upload H :=
  unfold upload_qr_to_github in H;
  unfold mbind, M_bind, try_bare, run_command, subprocess_run, print, fmap,
    M_fmap, mbind, M_bind, read_file, requests_send, mret, M_ret,
    response_json, json_get, unpack2, raise in H;
  simpl in H.

Ltac tidy_log :=
  simpl log; rewrite <- ?app_assoc; simpl app;
  rewrite ?drop_app_length, ?drop_all.

Ltac zify_eqb :=
  repeat match goal with
         | H : (_ =? _) = true |- _ => apply Z.eqb_eq in H
         | H : (_ =? _) = false |- _ => apply Z.eqb_neq in H
         end.

Ltac unnegb :=
  repeat match goal with
         | H : negb _ = true |- _ => rewrite negb_true_iff in H
         | H : negb _ = false |- _ => rewrite negb_false_iff in H
         end.

(** ** The remote asset publisher *)

(** C6: when the lookup [GET] of [upload_qr_to_github] is answered, the
    [PUT] that follows goes to the same address; it carries [sha = H1]
    when the answer was 200 with the content hash [H1], and no [sha] field
    when the answer was not 200 (nothing stored there yet). *)
Theorem upload_put_carries_sha (repo : string) (token : option string)
    (qr_path branch : string) (w : world) (greq : request)
    (gresp : response) :
  EHttp greq (inr gresp)
  ∈ events_of (upload_qr_to_github repo token qr_path branch) w →
  req_method greq = GET →
  (status_code gresp = 200 →
   ∀ o H1, body_json gresp = Some (JObj o) →
           o !! "sha" = Some (JStr H1) → H1 ≠ "" →
   ∃ presult data,
     EHttp (Request PUT (req_url greq) (req_headers greq) (JsonPayload data))
       presult
     ∈ events_of (upload_qr_to_github repo token qr_path branch) w
     ∧ data !! "sha" = Some (JStr H1))
  ∧ (status_code gresp ≠ 200 →
     ∃ presult data,
       EHttp (Request PUT (req_url greq) (req_headers greq)
                (JsonPayload data)) presult
       ∈ events_of (upload_qr_to_github repo token qr_path branch) w
       ∧ data !! "sha" = None).
Proof.
  unfold events_of.
  destruct (upload_qr_to_github repo token qr_path branch w)
    as [res w'] eqn:Hrun.
  unfold_upload Hrun. exec_in Hrun.
  all: inversion Hrun; subst; clear Hrun; tidy_log.
  all: intros Hin Hm; apply list_elem_of_In in Hin; simpl in Hin.
  all: repeat match goal with H : _ ∨ _ |- _ => destruct H end;
    try done; simplify_eq.
  all: try (simpl in Hm; discriminate Hm).
  all: simpl req_url; simpl req_headers.
  all: zify_eqb.
  all: split; [intros Hs obj hash Hb Ho Hne | intros Hs]; try done;
    simplify_eq.
  all: try (rewrite Ho in *; simpl in *).
  all: try match goal with
           | H : Str.truthy ?h = false, Hn : ?h ≠ "" |- _ => by destruct h
           end.
  all: try match goal with
           | Hn : ?h ≠ "" |- _ =>
               destruct h as [|? ?]; [done|];
               simpl Str.truthy in *; cbv iota in *
           end.
  all: try (eexists _, _; split;
            [apply list_elem_of_In; simpl; eauto 10|];
            first [ apply lookup_insert_eq | reflexivity ]).
Qed.

(** The asset is already stored under [Sample.sha1]: the upload names it. *)
Lemma upload_put_carries_sha_witness :
  ∃ presult data,
    EHttp (Request PUT
             "https://api.github.com/repos/acme/widget/contents/assets/message_dict_qr_0.png"
             (api_headers "ghp_token") (JsonPayload data)) presult
    ∈ events_of (upload_qr_to_github "acme/widget" (Some "ghp_token")
                   "/tmp/message_dict_qr_0.png" "main") (Sample.github [])
    ∧ data !! "sha" = Some (JStr Sample.sha1).
Proof.
  destruct (upload_put_carries_sha "acme/widget" (Some "ghp_token")
              "/tmp/message_dict_qr_0.png" "main" (Sample.github [])
              (Request GET
                 "https://api.github.com/repos/acme/widget/contents/assets/message_dict_qr_0.png"
                 (api_headers "ghp_token") NoPayload)
              (Response 200 "" "shortcut"
                 (Some (JObj {[ "sha" := JStr Sample.sha1 ]}))))
    as [Hstored _].
  - apply list_elem_of_In. vm_compute. auto.
  - reflexivity.
  - apply (Hstored eq_refl {[ "sha" := JStr Sample.sha1 ]} Sample.sha1);
      [reflexivity | reflexivity | discriminate].
Defined.

(** C7: a URL that [upload_qr_to_github] returns is [raw_url] of the two
    parts of the repository identifier, the detected branch and
    [assets/] followed by the base name of the file.  Nothing of it comes
    from the server: with any other server, a URL that is returned is the
    same one. *)
Theorem upload_url_is_constructed (repo : string) (token : option string)
    (qr_path branch : string) (w : world) (url : string) :
  fst (upload_qr_to_github repo token qr_path branch w) = Ret (Some url) →
  (∃ owner repo_name,
     Str.split "/" repo = [owner; repo_name]
     ∧ url = raw_url owner repo_name (detected_branch w branch)
               ("assets/" +:+ basename qr_path))
  ∧ ∀ srv url',
      fst (upload_qr_to_github repo token qr_path branch (set_server srv w))
      = Ret (Some url') →
      url' = url.
Proof.
  assert (∀ w url,
    fst (upload_qr_to_github repo token qr_path branch w) = Ret (Some url) →
    ∃ owner repo_name,
     Str.split "/" repo = [owner; repo_name]
     ∧ url = raw_url owner repo_name (detected_branch w branch)
               ("assets/" +:+ basename qr_path)) as Hform.
  { clear. intros w url.
    destruct (upload_qr_to_github repo token qr_path branch w)
      as [res w'] eqn:Hrun.
    unfold_upload Hrun. exec_in Hrun.
    all: inversion Hrun; subst; clear Hrun; simpl; intros Hres;
      try discriminate Hres.
    all: injection Hres as <-; unfold detected_branch.
    all: repeat match goal with
                | H : shell _ _ _ _ = _ |- _ => rewrite H; clear H
                end.
    all: unnegb.
    all: repeat match goal with
                | H : Str.truthy _ = _ |- _ => rewrite H; clear H
                end.
    all: match goal with
         | |- ∃ _ _, [?a; ?b] = _ ∧ _ => exists a, b; split; reflexivity
         end. }
  intros Hres. split; [by apply Hform|].
  intros srv url' Hres'.
  apply Hform in Hres as (o1 & n1 & Hs1 & ->).
  apply Hform in Hres' as (o2 & n2 & Hs2 & ->).
  rewrite Hs1 in Hs2. by simplify_eq.
Qed.

Lemma upload_url_is_constructed_witness :
  ∃ owner repo_name,
    Str.split "/" "acme/widget" = [owner; repo_name]
    ∧ "https://raw.githubusercontent.com/acme/widget/main/assets/message_dict_qr_0.png"
      = raw_url owner repo_name (detected_branch (Sample.github []) "main")
          ("assets/" +:+ basename "/tmp/message_dict_qr_0.png").
Proof.
  apply (upload_url_is_constructed "acme/widget" (Some "ghp_token")
           "/tmp/message_dict_qr_0.png" "main" (Sample.github [])).
  vm_compute. reflexivity.
Defined.



Lemma sample_github_answered typed : answered (Sample.github typed).
Proof.
  intros l req. simpl. unfold Sample.github_server.
  destruct (req_method req); eexists; (split; [reflexivity|]);
    split; simpl; intros; eauto; discriminate.
Qed.

Lemma sample_github_readable typed :
  readable (Sample.github typed) "/tmp/message_dict_qr_0.png".
Proof.
  split; [by eexists|]. intros l cmd p fs' H. simpl in H.
  destruct (String.eqb cmd _); injection H as _ <-; by eexists.
Qed.


(** ** What a run adds to the log *)

Section Emits.
Context (P : event → Prop).

Lemma emits_ret {A} (a : A) : emits P (mret a).
Proof. intros w. exists []. simpl. by rewrite app_nil_r. Qed.

Lemma emits_raise {A} e : emits P (@raise A e).
Proof. intros w. exists []. simpl. by rewrite app_nil_r. Qed.

Lemma emits_sys_exit {A} c : emits P (@sys_exit A c).
Proof. intros w. exists []. simpl. by rewrite app_nil_r. Qed.

Lemma emits_bind {A B} (m : M A) (k : A → M B) :
  emits P m → (∀ a, emits P (k a)) → emits P (m ≫= k).
Proof.
  intros Hm Hk w. destruct (Hm w) as (evs1 & Hl1 & HP1).
  unfold mbind, M_bind. destruct (m w) as [[a|e|c] w1]; simpl in *.
  - destruct (Hk a w1) as (evs2 & Hl2 & HP2).
    exists (evs1 ++ evs2). rewrite Hl2, Hl1, app_assoc. split; [done|].
    by apply Forall_app.
  - by exists evs1.
  - by exists evs1.
Qed.

Lemma emits_fmap {A B} (f : A → B) (m : M A) : emits P m → emits P (f <$> m).
Proof. intros Hm. apply emits_bind; [done|]. intros a. apply emits_ret. Qed.

Lemma emits_try_except {A} (m : M A) h :
  emits P m → (∀ e, emits P (h e)) → emits P (try_except m h).
Proof.
  intros Hm Hh w. destruct (Hm w) as (evs1 & Hl1 & HP1).
  unfold try_except. destruct (m w) as [[a|e|c] w1]; simpl in *.
  - by exists evs1.
  - destruct (Hh e w1) as (evs2 & Hl2 & HP2).
    exists (evs1 ++ evs2). rewrite Hl2, Hl1, app_assoc. split; [done|].
    by apply Forall_app.
  - by exists evs1.
Qed.

Lemma emits_try_bare {A} (m : M A) h :
  emits P m → emits P h → emits P (try_bare m h).
Proof.
  intros Hm Hh w. destruct (Hm w) as (evs1 & Hl1 & HP1).
  unfold try_bare. destruct (m w) as [[a|e|c] w1]; simpl in *.
  - by exists evs1.
  - destruct (Hh w1) as (evs2 & Hl2 & HP2).
    exists (evs1 ++ evs2). rewrite Hl2, Hl1, app_assoc. split; [done|].
    by apply Forall_app.
  - destruct (Hh w1) as (evs2 & Hl2 & HP2).
    exists (evs1 ++ evs2). rewrite Hl2, Hl1, app_assoc. split; [done|].
    by apply Forall_app.
Qed.

Lemma emits_print s : P (EPrint s) → emits P (print s).
Proof. intros H w. exists [EPrint s]. split; [done|]. by constructor. Qed.

Lemma emits_input p : (∀ r, P (EInput p r)) → emits P (input p).
Proof.
  intros H w. unfold input. destruct (stdin w); simpl.
  - exists [EInput p None]. split; [done|]. by constructor.
  - exists [EInput p (Some s)]. split; [done|]. by constructor.
Qed.

Lemma emits_subprocess_run cmd :
  (∀ r, P (ERun cmd r)) → emits P (subprocess_run cmd).
Proof.
  intros H w. unfold subprocess_run.
  destruct (shell w _ _ _) as [e|[p fs]]; simpl.
  - exists [ERun cmd (inl e)]. split; [done|]. by constructor.
  - exists [ERun cmd (inr p)]. split; [done|]. by constructor.
Qed.

Lemma emits_requests_send req :
  (∀ r, P (EHttp req r)) → emits P (requests_send req).
Proof.
  intros H w. unfold requests_send. destruct (server w _ _) as [e|r]; simpl.
  - exists [EHttp req (inl e)]. split; [done|]. by constructor.
  - exists [EHttp req (inr r)]. split; [done|]. by constructor.
Qed.

(** A step that leaves the log alone. *)
Lemma emits_silent {A} (m : M A) : (∀ w, log (snd (m w)) = log w) → emits P m.
Proof. intros H w. exists []. rewrite H, app_nil_r. done. Qed.

Lemma emits_at {A} (f : world → M A) :
  (∀ w0, emits P (f w0)) → emits P (λ w, f w w).
Proof. intros H w. apply (H w w). Qed.
End Emits.

Lemma emits_mono (P Q : event → Prop) {A} (m : M A) :
  (∀ e, P e → Q e) → emits P m → emits Q m.
Proof.
  intros HPQ Hm w. destruct (Hm w) as (evs & Hl & HP). exists evs. split; [done|].
  eapply Forall_impl; eauto.
Qed.

Ltac silent :=
  apply emits_silent; intros ?;
  unfold read_file, write_file, path_exists, os_remove, named_temporary_file,
    qr_make_image; simpl;
  repeat match goal with |- context [match ?x with _ => _ end] => destruct x end;
  reflexivity.

Ltac emits_step :=
  lazymatch goal with
  | |- emits _ (mbind _ _) => apply emits_bind; [|intros ?]
  | |- emits _ (fmap _ _) => apply emits_fmap
  | |- emits _ (mret _) => apply emits_ret
  | |- emits _ (raise _) => apply emits_raise
  | |- emits _ (sys_exit _) => apply emits_sys_exit
  | |- emits _ (print _) => apply emits_print
  | |- emits _ (input _) => apply emits_input; intros ?
  | |- emits _ (subprocess_run _) => apply emits_subprocess_run; intros ?
  | |- emits _ (requests_send _) => apply emits_requests_send; intros ?
  | |- emits _ (try_except _ _) => apply emits_try_except; [|intros ?]
  | |- emits _ (try_bare _ _) => apply emits_try_bare
  | |- emits _ (lift ?r) => destruct r; simpl
  | |- emits _ (read_file _) => silent
  | |- emits _ (write_file _ _) => silent
  | |- emits _ (path_exists _) => silent
  | |- emits _ (os_remove _) => silent
  | |- emits _ (named_temporary_file) => silent
  | |- emits _ (qr_make_image _) => silent
  | |- emits _ (if ?b then _ else _) => destruct b
  | |- emits _ (match ?x with _ => _ end) => destruct x
  | |- emits _ (run_command _ _) => unfold run_command
  | |- emits _ (response_json _) => unfold response_json
  | |- emits _ (json_get _ _) => unfold json_get
  | |- emits _ (json_index _ _) => unfold json_index
  | |- emits _ (before_brace _) => unfold before_brace
  | |- emits _ (unpack2 _) => unfold unpack2
  | |- emits _ (raise_for_status _) => unfold raise_for_status
  end.

Ltac quiet_side :=
  simpl; try exact I; try reflexivity; try (split; discriminate); try (intros ? [=]); try done.



Lemma tags_with_none full e : tags_with None e → tags_with full e.
Proof.
  destruct e; simpl; try done.
  - intros H Hc. destruct (H Hc) as (f & [=] & _).
  - intros H j Hj. destruct (H j Hj) as (f & [=] & _).
Qed.

Lemma emits_tags_none full {A} (m : M A) : emits (tags_with None) m → emits (tags_with full) m.
Proof. apply emits_mono, tags_with_none. Qed.

Ltac side :=
  simpl; try exact I; try (split; discriminate); try done;
  try (intros ? ?; unfold tag_name_of in *; simpl in *; repeat case_match;
       by simplify_map_eq).

Ltac emits_auto := repeat emits_step; side.

Lemma validate_url_quiet up url : emits (tags_with None) (validate_url up url).
Proof. unfold validate_url. emits_auto. Qed.

Lemma pull_latest_quiet : emits (tags_with None) pull_latest.
Proof. unfold pull_latest. emits_auto. Qed.

Lemma download_file_quiet url out : emits (tags_with None) (download_file url out).
Proof. unfold download_file. emits_auto. Qed.

Lemma replace_readme_link_quiet new ln : emits (tags_with None) (replace_readme_link new ln).
Proof. unfold replace_readme_link. emits_auto. Qed.

Lemma replace_readme_qr_code_quiet new ln : emits (tags_with None) (replace_readme_qr_code new ln).
Proof. unfold replace_readme_qr_code. emits_auto. Qed.

Lemma generate_qr_code_quiet url out : emits (tags_with None) (generate_qr_code url out).
Proof. unfold generate_qr_code. emits_auto. Qed.

Lemma get_github_repo_quiet : emits (tags_with None) get_github_repo.
Proof. unfold get_github_repo. emits_auto. Qed.

Lemma upload_qr_to_github_quiet repo tok path br :
  emits (tags_with None) (upload_qr_to_github repo tok path br).
Proof. unfold upload_qr_to_github. emits_auto. Qed.

Lemma commit_and_push_quiet c : emits (tags_with None) (commit_and_push c).
Proof. unfold commit_and_push. emits_auto. Qed.

Lemma create_tag_tags full : emits (tags_with (Some full)) (create_tag full).
Proof.
  unfold create_tag. emits_auto.
  all: intros _; exists full; auto.
Qed.

Lemma create_github_release_tags repo full body tok ap :
  emits (tags_with (Some full)) (create_github_release repo full full body tok ap).
Proof.
  unfold create_github_release. emits_auto.
  all: intros j Hj; unfold tag_name_of in Hj; simpl in Hj; simplify_map_eq; eauto.
Qed.

Lemma ask_shortcut_url_quiet up n : emits (tags_with None) (ask_shortcut_url up n).
Proof.
  induction n as [|n IH]; simpl; [apply emits_raise|].
  repeat first [ apply IH | apply validate_url_quiet | emits_step ]; side.
Qed.

Lemma bind_print {B} s (k : unit → M B) w :
  (print s ≫= k) w = k tt (record (EPrint s) w).
Proof. reflexivity. Qed.

Lemma bind_strip_input {B} p (k : string → M B) w :
  ((Str.strip <$> input p) ≫= k) w
  = match stdin w with
    | l :: rest => k (Str.strip l) (record (EInput p (Some l)) (set_stdin rest w))
    | [] => (Raise (Exn EOFError "EOF when reading a line"),
             record (EInput p None) w)
    end.
Proof.
  unfold fmap, M_fmap, mbind, M_bind, input. destruct (stdin w); reflexivity.
Qed.

(** What [main_release] adds to the log: without three lines of input it
    stops before any tagging; with them, everything after the questions
    tags with the version name and the tag that were typed. *)
Lemma main_release_trace tok repo path w :
  ∃ evs, log (snd (main_release tok repo path w)) = log w ++ evs
    ∧ (Forall no_tagging evs ∧ length (reply_to version_prompt evs) ≤ 1
         ∧ length (reply_to tag_prompt evs) ≤ 1
       ∨ ∃ v t post,
           evs = EPrint (Str.NL +:+ "📋 Version Information:")
                 :: EInput version_prompt (Some v) :: EInput tag_prompt (Some t)
                 :: post
           ∧ Forall (tags_with (Some (full_tag v t))) post)%nat.
Proof.
  unfold main_release. rewrite bind_print, bind_strip_input. simpl stdin.
  destruct (stdin w) as [|v rest] eqn:Hin.
  { eexists. simpl. rewrite <- app_assoc. split; [done|]. left.
    split; [repeat constructor|]. split; vm_compute; lia. }
  rewrite bind_strip_input. simpl stdin.
  destruct rest as [|t rest].
  { eexists. simpl. rewrite <- !app_assoc. split; [done|]. left.
    split; [repeat constructor|]. split; vm_compute; lia. }
  rewrite bind_strip_input. simpl stdin.
  destruct rest as [|c rest].
  { eexists. simpl. rewrite <- !app_assoc. split; [done|]. left.
    split; [repeat constructor|]. split; vm_compute; lia. }
  match goal with |- context [log (snd (?m ?w1))] =>
    assert (emits (tags_with (Some (full_tag v t))) m) as Hm
  end.
  { repeat first
      [ apply emits_tags_none, commit_and_push_quiet
      | apply create_tag_tags
      | apply create_github_release_tags
      | emits_step ]; side. }
  match goal with |- context [log (snd (?m ?w1))] =>
    destruct (Hm w1) as (post & Hl & HP)
  end.
  rewrite Hl. simpl log. rewrite <- !app_assoc. simpl app.
  eexists. split; [done|]. right. exists v, t, (EInput changes_prompt (Some c) :: post).
  split; [done|]. constructor; [|done]. simpl. split; discriminate.
Qed.

Lemma tags_with_no_tagging e : tags_with None e → no_tagging e.
Proof.
  destruct e; simpl; try done.
  - intros H. destruct (tag_command cmd); [|done]. destruct H as (? & [=] & _); done.
  - intros H. destruct (tag_name_of req) as [j|]; [|done].
    destruct (H j eq_refl) as (? & [=] & _).
Qed.

Lemma reply_to_cons p e evs :
  reply_to p (e :: evs)
  = match e with
    | EInput q r => if String.eqb q p then r :: reply_to p evs else reply_to p evs
    | _ => reply_to p evs
    end.
Proof. destruct e; try reflexivity. unfold reply_to. simpl. by destruct (String.eqb _ _). Qed.

Lemma reply_to_quiet full p evs :
  p = version_prompt ∨ p = tag_prompt →
  Forall (tags_with full) evs → reply_to p evs = [].
Proof.
  intros Hp. induction 1 as [|e evs He _ IH]; [done|].
  rewrite reply_to_cons, IH.
  destruct e; simpl in *; try done.
  destruct (String.eqb_spec prompt p) as [->|]; [|done].
  destruct He, Hp; congruence.
Qed.

Lemma reply_to_app p a b : reply_to p (a ++ b) = reply_to p a ++ reply_to p b.
Proof. apply omap_app. Qed.

Lemma tag_trace_quiet evs : Forall (tags_with None) evs → tag_trace evs.
Proof.
  intros H. left. split.
  - eapply Forall_impl; [exact H|]. apply tags_with_no_tagging.
  - rewrite !(reply_to_quiet None); simpl; auto.
Qed.

Lemma tag_trace_app pre evs :
  Forall (tags_with None) pre → tag_trace evs → tag_trace (pre ++ evs).
Proof.
  intros Hpre [(Hn & Hv & Ht)|(pre' & v & t & post & -> & Hp & Hpost)].
  - left. split.
    + apply Forall_app. split; [|done].
      eapply Forall_impl; [exact Hpre|]. apply tags_with_no_tagging.
    + rewrite !reply_to_app, !(reply_to_quiet None _ pre); simpl; auto.
  - right. exists (pre ++ pre'), v, t, post. rewrite <- app_assoc.
    split; [done|]. split; [by apply Forall_app|done].
Qed.

Lemma traces_bind {A B} (m : M A) (k : A → M B) :
  emits (tags_with None) m → (∀ a, traces tag_trace (k a)) →
  traces tag_trace (m ≫= k).
Proof.
  intros Hm Hk w. destruct (Hm w) as (evs1 & Hl1 & HP1).
  unfold mbind, M_bind. destruct (m w) as [[a|e|c] w1]; simpl in *.
  - destruct (Hk a w1) as (evs2 & Hl2 & HP2).
    exists (evs1 ++ evs2). rewrite Hl2, Hl1, app_assoc. split; [done|].
    by apply tag_trace_app.
  - exists evs1. split; [done|]. by apply tag_trace_quiet.
  - exists evs1. split; [done|]. by apply tag_trace_quiet.
Qed.

Lemma main_release_traces tok repo path :
  traces tag_trace (main_release tok repo path).
Proof.
  intros w. destruct (main_release_trace tok repo path w) as (evs & Hl & H).
  exists evs. split; [done|].
  destruct H as [H|(v & t & post & -> & Hpost)]; [by left|].
  right. exists [EPrint (Str.NL +:+ "📋 Version Information:")], v, t, post.
  split; [done|]. split; [|done]. by repeat constructor.
Qed.

Lemma main_traces up tok : traces tag_trace (main up tok).
Proof.
  unfold main.
  repeat first
    [ apply main_release_traces
    | apply traces_bind; [|intros ?] ].
  all: repeat first
    [ apply pull_latest_quiet
    | apply download_file_quiet
    | apply replace_readme_link_quiet
    | apply replace_readme_qr_code_quiet
    | apply generate_qr_code_quiet
    | apply get_github_repo_quiet
    | apply upload_qr_to_github_quiet
    | apply (emits_at _ (λ w0, ask_shortcut_url up (S (length (stdin w0))))); intros ?; apply ask_shortcut_url_quiet
    | emits_step ]; side.
Qed.

Lemma events_of_traces {A} T (m : M A) w : traces T m → T (events_of m w).
Proof.
  intros H. destruct (H w) as (evs & Hl & HT). unfold events_of.
  by rewrite Hl, drop_app_length.
Qed.

Lemma tag_trace_replies evs pre v t post :
  evs = pre ++ EInput version_prompt (Some v) :: EInput tag_prompt (Some t) :: post →
  Forall (tags_with None) pre → Forall (tags_with (Some (full_tag v t))) post →
  reply_to version_prompt evs = [Some v] ∧ reply_to tag_prompt evs = [Some t].
Proof.
  intros -> Hpre Hpost.
  rewrite !reply_to_app, !(reply_to_quiet None _ pre) by auto.
  change (reply_to ?p (?a :: ?b :: post)) with (reply_to p [a; b] ++ reply_to p post).
  rewrite !(reply_to_quiet (Some (full_tag v t)) _ post) by auto. done.
Qed.

(** C10: in every run of [main], a command that creates or pushes a tag
    is [git tag -a] or [git push origin] of the version name and the tag
    that were typed, stripped and joined by one space, and a request that
    carries a [tag_name] carries that same name; each of the two
    questions was answered exactly once. *)
Theorem main_tags_with_version_and_tag
    (up : string → exn + ParseResult) (tok : option string) (w : world) :
  (∀ cmd r, ERun cmd r ∈ events_of (main up tok) w → tag_command cmd = true →
     ∃ v t, reply_to version_prompt (events_of (main up tok) w) = [Some v]
       ∧ reply_to tag_prompt (events_of (main up tok) w) = [Some t]
       ∧ (cmd = git_tag_cmd (full_tag v t) ∨ cmd = git_push_tag_cmd (full_tag v t)))
  ∧ (∀ req r j, EHttp req r ∈ events_of (main up tok) w → tag_name_of req = Some j →
     ∃ v t, reply_to version_prompt (events_of (main up tok) w) = [Some v]
       ∧ reply_to tag_prompt (events_of (main up tok) w) = [Some t]
       ∧ j = JStr (full_tag v t)).
Proof.
  pose proof (events_of_traces _ _ w (main_traces up tok)) as H.
  destruct H as [(Hn & _)|(pre & v & t & post & Heq & Hpre & Hpost)].
  - rewrite Forall_forall in Hn. split.
    + intros cmd r Hin Hc. apply Hn in Hin. simpl in Hin. congruence.
    + intros req r j Hin Hj. apply Hn in Hin. simpl in Hin. congruence.
  - destruct (tag_trace_replies _ _ _ _ _ Heq Hpre Hpost) as [Hv Ht].
    rewrite Hv, Ht. rewrite Heq. rewrite Forall_forall in Hpre, Hpost. split.
    + intros cmd r Hin Hc. exists v, t. split; [done|]. split; [done|].
      apply elem_of_app in Hin as [Hin|Hin].
      { apply Hpre in Hin. destruct (Hin Hc) as (? & [=] & _). }
      apply elem_of_cons in Hin as [[=]|Hin].
      apply elem_of_cons in Hin as [[=]|Hin].
      apply Hpost in Hin. destruct (Hin Hc) as (f & [= <-] & Hf). done.
    + intros req r j Hin Hj. exists v, t. split; [done|]. split; [done|].
      apply elem_of_app in Hin as [Hin|Hin].
      { apply Hpre in Hin. destruct (Hin j Hj) as (? & [=] & _). }
      apply elem_of_cons in Hin as [[=]|Hin].
      apply elem_of_cons in Hin as [[=]|Hin].
      apply Hpost in Hin. destruct (Hin j Hj) as (f & [= <-] & Hf). done.
Qed.

Lemma length_append a b :
  String.length (a +:+ b) = (String.length a + String.length b)%nat.
Proof.
  induction a as [|c a IH]; [done|].
  change (String c a +:+ b) with (String c (a +:+ b)). simpl. by rewrite IH.
Qed.

(** The tag name is never the tag alone. *)
Lemma full_tag_not_tag v t : full_tag v t ≠ Str.strip t.
Proof.
  unfold full_tag. intros H. apply (f_equal String.length) in H.
  rewrite !length_append in H. simpl in H. lia.
Qed.

(** A run that reaches the tagging step: the commands it issues. *)
Lemma main_commands_sample :
  commands (events_of (main Sample.urlparse (Some "ghp_token"))
              (Sample.github ["https://www.icloud.com/shortcuts/abc";
                              " 2.1 "; "stable"; "New words"]))
  = ["git fetch origin";
     "git branch --show-current";
     "git symbolic-ref refs/remotes/origin/HEAD 2>/dev/null | sed 's@^refs/remotes/origin/@@'";
     "git rev-list HEAD..origin/main 2>/dev/null | wc -l";
     "git remote get-url origin";
     default_branch_cmd;
     "git add .";
     "git commit -m " +:+ Str.DQ +:+ "New words" +:+ Str.DQ;
     "git push origin main || git push origin master";
     git_tag_cmd "2.1 stable";
     git_push_tag_cmd "2.1 stable"].
Proof. vm_compute. reflexivity. Qed.

(** * The rest of the script *)

(** ** [load_secrets] *)

Lemma startswith_app s p : Str.startswith s p = true → ∃ r, s = p +:+ r.
Proof.
  unfold Str.startswith. revert s. induction p as [|a p IH]; intros s H.
  - by exists s.
  - destruct s as [|b s]; [done|]. simpl in H.
    destruct (ascii_dec a b) as [->|]; [|done].
    destruct (IH _ H) as [r ->]. by exists r.
Qed.

Lemma scan_secrets_no_failure lines token :
  snd (scan_secrets lines token) = None.
Proof.
  revert token. induction lines as [|line lines IH]; intros token; [done|].
  cbn [scan_secrets].
  destruct (negb _ || _); [apply IH|].
  destruct (Str.startswith (Str.strip line) "GITHUB_TOKEN=") eqn:Hs; [|apply IH].
  apply startswith_app in Hs as [v ->].
  change (split_once "=" ("GITHUB_TOKEN=" +:+ v) !! 1%nat) with (Some v).
  cbv iota. destruct (Str.truthy (Str.strip v)); [done|apply IH].
Qed.

(** Where the loop finds a token, a line of the file assigns it. *)
Lemma scan_secrets_found lines token t :
  fst (scan_secrets lines token) = Some t → Str.truthy t = true →
  token = Some t
  ∨ ∃ line v, line ∈ lines ∧ Str.strip line = "GITHUB_TOKEN=" +:+ v
              ∧ Str.strip v = t.
Proof.
  revert token. induction lines as [|line lines IH]; intros token.
  { simpl. auto. }
  cbn [scan_secrets]. intros Hscan Ht.
  assert (Hrest : ∀ tok, fst (scan_secrets lines tok) = Some t →
                         tok = Some t
                         ∨ ∃ line0 v, line0 ∈ line :: lines
                              ∧ Str.strip line0 = "GITHUB_TOKEN=" +:+ v
                              ∧ Str.strip v = t).
  { intros tok H. destruct (IH _ H Ht) as [?|(l & v & ? & ? & ?)]; [by left|].
    right. exists l, v. split; [by apply elem_of_cons; right|done]. }
  destruct (negb _ || _); [by apply Hrest|].
  destruct (Str.startswith (Str.strip line) "GITHUB_TOKEN=") eqn:Hs;
    [|by apply Hrest].
  apply startswith_app in Hs as [v Hv]. rewrite Hv in Hscan.
  change (split_once "=" ("GITHUB_TOKEN=" +:+ v) !! 1%nat) with (Some v) in Hscan.
  cbv iota in Hscan. right.
  destruct (Str.truthy (Str.strip v)) eqn:Hv'.
  - simpl in Hscan. exists line, v. split; [by apply elem_of_cons; left|].
    split; [done|congruence].
  - destruct (Hrest _ Hscan) as [[= H]|H]; [|done].
    rewrite H, Ht in Hv'. done.
Qed.

(** What [load_secrets] does, case by case. *)
Lemma load_secrets_run environ w :
  load_secrets environ w
  = let token :=
      if truthy_opt (environ !! "GITHUB_TOKEN") then environ !! "GITHUB_TOKEN"
      else match files w !! SECRETS_FILE with
           | Some doc =>
               fst (scan_secrets (readlines doc) (environ !! "GITHUB_TOKEN"))
           | None => environ !! "GITHUB_TOKEN"
           end in
    if truthy_opt token && negb (usual_token (default "" token))
    then (Ret token,
          record (EPrint "   Expected format: ghp_... or github_pat_...")
            (record (EPrint "⚠️  Warning: GitHub token format looks unusual.")
               w))
    else (Ret token, w).
Proof.
  unfold load_secrets.
  destruct (truthy_opt (environ !! "GITHUB_TOKEN")) eqn:Henv.
  { unfold mbind, M_bind, mret, M_ret, print. simpl. rewrite Henv. simpl.
    by destruct (usual_token _). }
  unfold mbind, M_bind, mret, M_ret, print, path_exists, try_except, read_file.
  simpl.
  destruct (files w !! SECRETS_FILE) as [doc|] eqn:Hf; simpl.
  - rewrite Hf. simpl.
    pose proof (scan_secrets_no_failure (readlines doc) (environ !! "GITHUB_TOKEN")) as Hno.
    destruct (scan_secrets _ _) as [token failure]. simpl in Hno. subst failure.
    simpl. by destruct (truthy_opt token && _).
  - rewrite Henv. done.
Qed.

(** X1: a non-empty [GITHUB_TOKEN] of the environment is the token
    [load_secrets] returns, whatever the secrets file holds, and no file
    is touched. *)
Theorem load_secrets_environment_first (environ : gmap string string)
    (w : world) (t : string) :
  environ !! "GITHUB_TOKEN" = Some t → t ≠ "" →
  fst (load_secrets environ w) = Ret (Some t)
  ∧ files (snd (load_secrets environ w)) = files w.
Proof.
  intros Henv Ht. rewrite load_secrets_run, Henv.
  assert (truthy_opt (Some t) = true) as -> by (by destruct t).
  cbv zeta. by destruct (_ && _).
Qed.

(** The environment wins over a secrets file that names another token. *)
Lemma load_secrets_environment_first_witness :
  fst (load_secrets {[ "GITHUB_TOKEN" := "ghp_environment" ]}
         (set_files {[ SECRETS_FILE := "GITHUB_TOKEN=ghp_file" ]}
            (Sample.quiet [])))
  = Ret (Some "ghp_environment")
  ∧ files (snd (load_secrets {[ "GITHUB_TOKEN" := "ghp_environment" ]}
                  (set_files {[ SECRETS_FILE := "GITHUB_TOKEN=ghp_file" ]}
                     (Sample.quiet []))))
    = files (set_files {[ SECRETS_FILE := "GITHUB_TOKEN=ghp_file" ]}
               (Sample.quiet [])).
Proof.
  apply (load_secrets_environment_first _ _ "ghp_environment");
    [reflexivity|discriminate].
Defined.





(** ** [run_command] *)

(** X5: [run_command] ends the script, with exit status 1, exactly when
    it is called with [check] and the command ran and returned a status
    other than zero. *)
Theorem run_command_exits_on_failure (cmd : string) (check : bool)
    (w : world) (code : Z) :
  fst (run_command cmd check w) = Exit code
  ↔ code = 1 ∧ check = true
    ∧ ∃ p fs, shell w (log w) (files w) cmd = inr (p, fs)
              ∧ returncode p ≠ 0.
Proof.
  unfold run_command, mbind, M_bind, subprocess_run.
  destruct (shell w (log w) (files w) cmd) as [e|[p fs]] eqn:Hsh; simpl.
  - split; [intros [=]|]. by intros (_ & _ & ? & ? & [=] & _).
  - destruct check; simpl.
    + destruct (Z.eqb_spec (returncode p) 0) as [Hz|Hz]; simpl.
      * split; [intros [=]|]. intros (_ & _ & ? & ? & [= <- <-] & ?). done.
      * split; [|by intros (-> & _)].
        intros [= <-]. split_and!; try done. by exists p, fs.
    + split; [intros [=]|]. by intros (_ & [=] & _).
Qed.

(** ** [get_github_repo] *)

(** X6: when [git remote get-url origin] prints nothing but white
    space, [get_github_repo] prints that no remote is found and exits
    with status 1, having run that one command. *)
Theorem get_github_repo_without_remote (w : world) (p : CompletedProcess)
    (fs : gmap string string) :
  shell w (log w) (files w) "git remote get-url origin" = inr (p, fs) →
  Str.strip (stdout p) = "" →
  fst (get_github_repo w) = Exit 1
  ∧ events_of get_github_repo w
    = [ERun "git remote get-url origin" (inr p);
       EPrint "Error: No git remote found. Please set up git remote."].
Proof.
  intros Hsh Hout. unfold events_of.
  unfold get_github_repo, run_command, subprocess_run, mbind, M_bind.
  rewrite Hsh. simpl. unfold mret, M_ret. rewrite Hout. simpl.
  split; [done|]. rewrite <- app_assoc. by rewrite drop_app_length.
Qed.

(** A checkout whose commands print nothing. *)
Lemma get_github_repo_without_remote_witness :
  fst (get_github_repo (Sample.quiet [])) = Exit 1
  ∧ events_of get_github_repo (Sample.quiet [])
    = [ERun "git remote get-url origin" (inr (Completed 0 "" ""));
       EPrint "Error: No git remote found. Please set up git remote."].
Proof.
  apply (get_github_repo_without_remote (Sample.quiet []) (Completed 0 "" "") ∅);
    reflexivity.
Defined.

Section Remote.

Import Re.

(** *** Searching *)

Lemma search_from_None r i s :
  (∀ k, match_here false r (drop k s) = None) → search_from r i s = None.
Proof.
  revert i. induction s as [|c s IH]; intros i H.
  - pose proof (H 0%nat) as H0. simpl in *. by rewrite H0.
  - pose proof (H 0%nat) as H0. simpl in *. rewrite H0.
    apply IH. intros k. apply (H (S k)).
Qed.

Lemma search_from_skip r i c s :
  match_here false r (c :: s) = None →
  search_from r i (c :: s) = search_from r (S i) s.
Proof. intros H. simpl. by rewrite H. Qed.

Lemma search_from_hit r i s n g :
  match_here false r s = Some (n, g) → search_from r i s = Some (i, n, g).
Proof. intros H. destruct s; simpl; by rewrite H. Qed.

Lemma strip_prefix_prefix p s :
  String.prefix p s = false → strip_prefix (chars p) (chars s) = None.
Proof.
  revert s. induction p as [|a p IH]; intros s.
  { destruct s; intros [=]. }
  destruct s as [|b s]; [done|]. simpl.
  destruct (ascii_dec a b) as [->|Hab].
  - rewrite Ascii.eqb_refl. apply IH.
  - intros _. by apply Ascii.eqb_neq in Hab as ->.
Qed.

(** A pattern that starts with a literal is found only where the literal
    is. *)
Lemma search_literal_first l r s :
  Str.contains l s = false → search (Seq (Lit l) r) s = None.
Proof.
  intros Hc. unfold search. rewrite (search_from_None _ _ (chars s)); [done|].
  intros k. unfold match_here. cbn [run].
  replace (strip_prefix (chars l) (drop k (chars s))) with (@None (list ascii));
    [done|].
  symmetry. revert k. induction s as [|c s IH]; intros k.
  - rewrite contains_unfold, orb_false_r in Hc.
    destruct k; by apply (strip_prefix_prefix l "").
  - rewrite contains_unfold in Hc. apply orb_false_iff in Hc as [Hp Hc].
    destruct k as [|k]; [by apply strip_prefix_prefix|].
    apply (IH Hc k).
Qed.

(** *** The matcher, one item at a time *)

Lemma run_Seq {R} r1 r2 s g (k : list ascii → groupmap → option R) :
  run (Seq r1 r2) s g k = run r1 s g (λ s' g', run r2 s' g' k).
Proof. done. Qed.

Lemma run_Lit {R} l s g (k : list ascii → groupmap → option R) :
  run (Lit l) s g k
  = match strip_prefix (chars l) s with Some s' => k s' g | None => None end.
Proof. done. Qed.

Lemma run_In {R} cl s g (k : list ascii → groupmap → option R) :
  run (In cl) s g k
  = match s with
    | c :: s' => if mem cl c then k s' g else None
    | [] => None
    end.
Proof. done. Qed.

Lemma run_Rep {R} cl min greedy s g (k : list ascii → groupmap → option R) :
  run (Rep cl min greedy) s g k = rep cl greedy (λ s', k s' g) min s.
Proof. done. Qed.

Lemma run_Group {R} n r1 s g (k : list ascii → groupmap → option R) :
  run (Group n r1) s g k
  = run r1 s g (λ s' g', k s' (<[n := take (length s - length s') s]> g')).
Proof. done. Qed.

Lemma run_Opt {R} r1 s g (k : list ascii → groupmap → option R) :
  run (Opt r1) s g k
  = match run r1 s g k with Some x => Some x | None => k s g end.
Proof. done. Qed.

(** *** Lazy repetition *)

(** A lazy repetition stops at the first place where what follows
    matches. *)
Lemma rep_lazy_stop {R} cl (k : list ascii → option R) a b x :
  forallb (mem cl) a = true →
  (∀ c a1 a2, a = a1 ++ c :: a2 → k (c :: a2 ++ b) = None) →
  k b = Some x →
  rep cl false k 0 (a ++ b) = Some x.
Proof.
  intros Ha Hfail Hk. induction a as [|c a IH].
  - destruct b; simpl; by rewrite Hk.
  - simpl in Ha. apply andb_true_iff in Ha as [Hc Ha].
    cbn [app rep]. rewrite (Hfail c [] a eq_refl), Hc. cbn [Nat.pred].
    apply IH; [done|]. intros d a1 a2 ->. apply (Hfail d (c :: a1) a2 eq_refl).
Qed.

Lemma rep_lazy_first {R} cl (k : list ascii → option R) c a b x :
  forallb (mem cl) (c :: a) = true →
  (∀ d a1 a2, a = a1 ++ d :: a2 → k (d :: a2 ++ b) = None) →
  k b = Some x →
  rep cl false k 1 (c :: a ++ b) = Some x.
Proof.
  intros Ha Hfail Hk. simpl in Ha. apply andb_true_iff in Ha as [Hc Ha].
  cbn [rep]. rewrite Hc. cbn [Nat.pred]. by apply rep_lazy_stop.
Qed.

(** A lazy repetition fails when what follows matches nowhere. *)
Lemma rep_lazy_None {R} cl (k : list ascii → option R) min s :
  (∀ a b, s = a ++ b → (min ≤ length a)%nat → forallb (mem cl) a = true →
          k b = None) →
  rep cl false k min s = None.
Proof.
  revert min. induction s as [|c s IH]; intros min H.
  - cbn [rep]. destruct min; [|done]. by rewrite (H [] [] eq_refl).
  - cbn [rep].
    assert (match min with O => k (c :: s) | S _ => None end = None) as ->.
    { destruct min; [|done]. by apply (H [] (c :: s)); [|simpl; lia|]. }
    destruct (mem cl c) eqn:Hc; [|done].
    apply IH. intros a b -> Hlen Ha. apply (H (c :: a) b eq_refl).
    + simpl. lia.
    + simpl. by rewrite Hc.
Qed.

(** *** The two patterns of [get_github_repo] *)

Lemma name_char_no_slash c : name_char c = true → no_slash c = true.
Proof.
  unfold name_char, no_slash, mem, elem. cbn [existsb].
  rewrite orb_false_r. by intros [[? _]%andb_true_iff _]%andb_true_iff.
Qed.

Lemma no_slash_stops w : stops no_slash ("/"%char :: w).
Proof. done. Qed.

Lemma name_char_spec c :
  name_char c = true →
  Ascii.eqb "/" c = false ∧ Ascii.eqb "." c = false
  ∧ Ascii.eqb c Str.LF = false.
Proof.
  unfold name_char. rewrite !andb_true_iff, !negb_true_iff.
  rewrite (Ascii.eqb_sym "/"), (Ascii.eqb_sym "."). tauto.
Qed.

Section Shape.

Context (tail : list regex) (suffix : list ascii).

(** What follows the name in the pattern does not match before the name
    is over, and matches once it is. *)
Hypothesis not_before : ∀ {R} c a2 g (k : list ascii → groupmap → option R),
  name_char c = true →
  run (seq (Opt (Lit ".git") :: tail)) (c :: a2 ++ suffix) g k = None.

Hypothesis at_end : ∀ {R} g (k : list ascii → groupmap → option R) x,
  k [] g = Some x →
  run (seq (Opt (Lit ".git") :: tail)) suffix g k = Some x.

Lemma repo_hit sep owner name :
  elem sep [":"; "/"]%char = true →
  owner ≠ [] → forallb no_slash owner = true →
  name ≠ [] → forallb name_char name = true →
  ∃ n whole,
    match_here false (seq (repo_pattern_head ++ tail))
      (chars "github.com" ++ sep :: owner ++ "/"%char :: name ++ suffix)
    = Some (n, <[0%nat := whole]> (<[2%nat := name]> (<[1%nat := owner]> ∅))).
Proof.
  intros Hsep Ho Hao Hn Han. destruct name as [|c name]; [done|].
  unfold match_here, repo_pattern_head. cbn [seq app foldr run].
  assert (E1 : strip_prefix (chars "github.com")
                 (chars "github.com"
                  ++ sep :: owner ++ "/"%char :: c :: name ++ suffix)
               = Some (sep :: owner ++ "/"%char :: c :: name ++ suffix))
    by by apply strip_prefix_Some.
  rewrite E1. change (mem (OneOf [":"; "/"]%char) sep) with (elem sep [":"; "/"]%char).
  rewrite Hsep.
  eexists _, _. erewrite rep_greedy_longest; [reflexivity| |];
    change (mem (NoneOf ["/"%char])) with no_slash;
    rewrite (span_run _ _ _ Hao (no_slash_stops _)).
  - destruct owner; [done|simpl; lia].
  - cbn [snd chars list_ascii_of_string strip_prefix Ascii.eqb Bool.eqb].
    cbn [app]. erewrite rep_lazy_first; [reflexivity| | |].
    + revert Han. apply forallb_impl, name_char_no_slash.
    + intros d a1 a2 ->. apply not_before.
      simpl in Han. apply andb_true_iff in Han as [_ Han].
      rewrite forallb_app in Han. apply andb_true_iff in Han as [_ Han].
      simpl in Han. by apply andb_true_iff in Han as [? _].
    + apply at_end. cbn [andb].
      replace (take (length (c :: name ++ suffix) - length suffix)
                 (c :: name ++ suffix))
        with (c :: name)
        by (symmetry; apply (take_consumed (c :: name) suffix)).
      rewrite (take_consumed owner ("/"%char :: c :: name ++ suffix)).
      reflexivity.
Qed.

End Shape.

Lemma last_after p r (c : ascii) :
  last (p ++ r) = Some c → last p ≠ Some c → last r = Some c.
Proof. rewrite last_app. by destruct (last r). Qed.

Lemma eos_slash {R} r g (k : list ascii → groupmap → option R) :
  last r = Some "/"%char → run (Seq Eos (Lit "")) r g k = None.
Proof.
  destruct r as [|c [|d r]]; [done| |done].
  intros [= ->]. done.
Qed.

Lemma opt_git_eos_slash {R} b g (k : list ascii → groupmap → option R) :
  last b = Some "/"%char →
  run (Seq (Opt (Lit ".git")) (Seq Eos (Lit ""))) b g k = None.
Proof.
  intros Hb.
  change (match
            match strip_prefix (chars ".git") b with
            | Some s' => run (Seq Eos (Lit "")) s' g k
            | None => None
            end
          with
          | Some x => Some x
          | None => run (Seq Eos (Lit "")) b g k
          end = None).
  rewrite (eos_slash b g k Hb).
  destruct (strip_prefix (chars ".git") b) as [r|] eqn:E4; [|done].
  apply strip_prefix_Some in E4. subst b.
  apply last_after in Hb; [|done]. by rewrite eos_slash.
Qed.

(** The first pattern matches no text that ends with a slash. *)
Lemma repo_first_miss s :
  last s = Some "/"%char →
  match_here false (seq (repo_pattern_head ++ [Eos])) s = None.
Proof.
  intros Hlast. unfold match_here, repo_pattern_head. cbn [seq app foldr].
  rewrite run_Seq, run_Lit.
  destruct (strip_prefix (chars "github.com") s) as [s1|] eqn:E1; [|done].
  apply strip_prefix_Some in E1. subst s.
  apply last_after in Hlast; [|done].
  rewrite run_Seq, run_In.
  destruct s1 as [|sep s2]; [done|]. destruct (mem _ sep); [|done].
  rewrite last_cons in Hlast.
  rewrite run_Seq, run_Group, run_Rep, rep_greedy_only.
  2:{ intros c t Hc. cbv beta. rewrite run_Seq, run_Lit.
      cbn [chars list_ascii_of_string].
      rewrite strip_prefix_head; [done|].
      unfold mem, elem in Hc. cbn [existsb] in Hc. rewrite orb_false_r in Hc.
      apply negb_true_iff in Hc. by rewrite Ascii.eqb_sym. }
  change (mem (NoneOf ["/"%char])) with no_slash.
  pose proof (span_app no_slash s2) as Happ.
  pose proof (span_all no_slash s2) as Hall.
  destruct (span no_slash s2) as [x rest]. cbn [fst snd] in *.
  destruct (1 <=? length x)%nat; [|done].
  rewrite run_Seq, run_Lit.
  destruct (strip_prefix (chars "/") rest) as [s3|] eqn:E3; [|done].
  apply strip_prefix_Some in E3. cbn [chars list_ascii_of_string app] in E3.
  subst rest s2.
  rewrite run_Seq, run_Group, run_Rep.
  apply rep_lazy_None. intros a b -> Hlen Ha.
  assert (Hb : last b = Some "/"%char).
  { destruct (last (x ++ "/"%char :: a ++ b)) as [y|] eqn:Hy;
      [|by (apply last_None in Hy; destruct x)].
    injection Hlast as ->. rewrite last_app, last_cons, last_app in Hy.
    destruct (last b) as [z|]; [done|].
    destruct (last a) as [z|] eqn:Hz;
      [|by (apply last_None in Hz; subst a; simpl in Hlen; lia)].
    injection Hy as ->. apply last_Some in Hz as [a' ->].
    rewrite forallb_app in Ha. by apply andb_true_iff in Ha as [_ Ha]. }
  by apply opt_git_eos_slash.
Qed.

Lemma eos_more {R} c t g (k : list ascii → groupmap → option R) :
  Ascii.eqb c Str.LF = false → run (Seq Eos (Lit "")) (c :: t) g k = None.
Proof. intros Hc. destruct t; cbn [run]; [by rewrite Hc|done]. Qed.

(** Both patterns refuse to end the name early. *)
Lemma first_not_before {R} suffix c a2 g
    (k : list ascii → groupmap → option R) :
  name_char c = true →
  run (seq [Opt (Lit ".git"); Eos]) (c :: a2 ++ suffix) g k = None.
Proof.
  intros (_ & Hdot & Hlf)%name_char_spec. cbn [seq foldr].
  rewrite run_Seq, run_Opt, run_Lit. cbn [chars list_ascii_of_string].
  rewrite strip_prefix_head by done. by apply eos_more.
Qed.

Lemma second_not_before {R} suffix c a2 g
    (k : list ascii → groupmap → option R) :
  name_char c = true →
  run (seq [Opt (Lit ".git"); Opt (Lit "/"); Eos]) (c :: a2 ++ suffix) g k
  = None.
Proof.
  intros (Hslash & Hdot & Hlf)%name_char_spec. cbn [seq foldr].
  rewrite run_Seq, run_Opt, run_Lit. cbn [chars list_ascii_of_string].
  rewrite strip_prefix_head by done.
  rewrite run_Seq, run_Opt, run_Lit. cbn [chars list_ascii_of_string].
  rewrite strip_prefix_head by done. by apply eos_more.
Qed.

(** Before [github.com], in the remotes the patterns are written for, no
    match starts. *)
Lemma search_from_prefix r2 pre i s :
  pre ∈ remote_prefixes →
  search_from (Seq (Lit "github.com") r2) i (chars pre ++ s)
  = search_from (Seq (Lit "github.com") r2) (i + length (chars pre)) s.
Proof.
  assert (Hmiss : ∀ t, strip_prefix (chars "github.com") t = None →
                       match_here false (Seq (Lit "github.com") r2) t = None).
  { intros t Ht. unfold match_here. by rewrite run_Seq, run_Lit, Ht. }
  intros Hpre. unfold remote_prefixes in Hpre.
  repeat (apply elem_of_cons in Hpre as [->|Hpre]);
    [..|by apply elem_of_nil in Hpre];
    cbn [chars list_ascii_of_string app length];
    repeat (rewrite search_from_skip by (by apply Hmiss));
    f_equal; lia.
Qed.

Lemma repo_search tail suffix pre sep owner name :
  (∀ {R} c a2 g (k : list ascii → groupmap → option R),
     name_char c = true →
     run (seq (Opt (Lit ".git") :: tail)) (c :: a2 ++ chars suffix) g k = None) →
  (∀ {R} g (k : list ascii → groupmap → option R) x,
     k [] g = Some x →
     run (seq (Opt (Lit ".git") :: tail)) (chars suffix) g k = Some x) →
  pre ∈ remote_prefixes → sep ∈ [":"; "/"] →
  owner_text owner = true → name_text name = true →
  ∃ m, search (seq (repo_pattern_head ++ tail))
         (pre +:+ "github.com" +:+ sep +:+ owner +:+ "/" +:+ name +:+ suffix)
       = Some m
       ∧ group m 1 = Some owner ∧ group m 2 = Some name.
Proof.
  intros Hnb Hend Hpre Hsep [Ho Hao]%andb_true_iff [Hn Han]%andb_true_iff.
  destruct (repo_hit tail (chars suffix) (@Hnb) (@Hend)
              (match sep with String c _ => c | _ => "/"%char end)
              (chars owner) (chars name))
    as (n & whole & Hm); try done.
  { repeat (apply elem_of_cons in Hsep as [->|Hsep]); try done.
    by apply elem_of_nil in Hsep. }
  { by destruct owner. }
  { by destruct name. }
  exists (<[0%nat := whole]>
            (<[2%nat := chars name]> (<[1%nat := chars owner]> ∅))).
  unfold search. rewrite !chars_app.
  change (seq (repo_pattern_head ++ tail))
    with (Seq (Lit "github.com") (seq (tl repo_pattern_head ++ tail))).
  rewrite search_from_prefix by done.
  erewrite search_from_hit.
  - split; [done|]. unfold group.
    rewrite lookup_insert_ne, lookup_insert_ne, lookup_insert_eq by done.
    rewrite lookup_insert_ne, lookup_insert_eq by done.
    simpl. by rewrite !text_chars.
  - rewrite <- Hm. f_equal.
    repeat (apply elem_of_cons in Hsep as [->|Hsep]); try done.
    by apply elem_of_nil in Hsep.
Qed.

End Remote.

Lemma append_assoc a b c : (a +:+ b) +:+ c = a +:+ b +:+ c.
Proof.
  induction a as [|x a IH]; [done|].
  change (String x ((a +:+ b) +:+ c) = String x (a +:+ b +:+ c)).
  by rewrite IH.
Qed.

Lemma truthy_app_r a b : Str.truthy b = true → Str.truthy (a +:+ b) = true.
Proof. by destruct a, b. Qed.

Lemma search_ends_slash l :
  Re.search (Re.seq (repo_pattern_head ++ [Re.Eos])) (l +:+ "/") = None.
Proof.
  unfold Re.search. rewrite (search_from_None _ _ (Re.chars (l +:+ "/"))); [done|].
  intros k. rewrite chars_app.
  destruct (decide (k ≤ length (Re.chars l))%nat) as [Hk|Hk].
  - rewrite drop_app_le by done. apply repo_first_miss.
    apply (last_snoc "/"%char).
  - rewrite drop_ge; [done|]. rewrite length_app. simpl. lia.
Qed.

(** What [get_github_repo] returns when the shell prints a remote. *)
Lemma get_github_repo_run w p fs remote repo :
  shell w (log w) (files w) "git remote get-url origin" = inr (p, fs) →
  Str.strip (stdout p) = remote → Str.truthy remote = true →
  first_match patterns remote = Some repo →
  fst (get_github_repo w) = Ret repo.
Proof.
  intros Hsh Hout Ht Hfm.
  unfold get_github_repo, run_command, subprocess_run, mbind, M_bind.
  rewrite Hsh. cbv beta iota. cbn [andb]. unfold mret, M_ret.
  rewrite Hout, Ht. cbn [negb]. by rewrite Hfm.
Qed.

(** X7: [get_github_repo] returns [owner/name] for every remote of the
    shape prefix, [github.com], a colon or a slash, owner, slash, name,
    suffix, where the prefix is one of [git@], [https://], [ssh://git@],
    [http://], [git://] or nothing, the suffix is nothing, [.git], a
    slash or [.git/], the owner is not empty and has no slash, and the
    name is not empty and has no slash, dot or line feed. *)
Theorem get_github_repo_shapes (w : world) (p : CompletedProcess)
    (fs : gmap string string) (pre sep owner name suffix : string) :
  shell w (log w) (files w) "git remote get-url origin" = inr (p, fs) →
  Str.strip (stdout p)
  = pre +:+ "github.com" +:+ sep +:+ owner +:+ "/" +:+ name +:+ suffix →
  pre ∈ remote_prefixes → sep ∈ [":"; "/"] → suffix ∈ remote_suffixes →
  owner_text owner = true → name_text name = true →
  fst (get_github_repo w) = Ret (owner +:+ "/" +:+ name).
Proof.
  intros Hsh Hout Hpre Hsep Hsuf Ho Hn.
  apply (get_github_repo_run _ _ _ _ _ Hsh Hout); [by apply truthy_app_r|].
  assert (Hfirst : ∀ tail rest m,
            Re.search (Re.seq (repo_pattern_head ++ tail))
              (pre +:+ "github.com" +:+ sep +:+ owner +:+ "/" +:+ name
               +:+ suffix) = Some m →
            Re.group m 1 = Some owner → Re.group m 2 = Some name →
            first_match (Re.seq (repo_pattern_head ++ tail) :: rest)
              (pre +:+ "github.com" +:+ sep +:+ owner +:+ "/" +:+ name
               +:+ suffix)
            = Some (owner +:+ "/" +:+ name)).
  { intros tail rest m Hm H1 H2. cbn [first_match]. by rewrite Hm, H1, H2. }
  unfold remote_suffixes in Hsuf. unfold patterns.
  repeat (apply elem_of_cons in Hsuf as [->|Hsuf]);
    [..|by apply elem_of_nil in Hsuf].
  - destruct (repo_search [Re.Eos] "" pre sep owner name) as (m & Hm & H1 & H2);
      [intros; by apply first_not_before
                            |intros R g k x Hk; cbn; by rewrite Hk
                            |done..|].
    erewrite Hfirst; done.
  - destruct (repo_search [Re.Eos] ".git" pre sep owner name)
      as (m & Hm & H1 & H2); [intros; by apply first_not_before
                            |intros R g k x Hk; cbn; by rewrite Hk
                            |done..|].
    erewrite Hfirst; done.
  - destruct (repo_search [Re.Opt (Re.Lit "/"); Re.Eos] "/" pre sep owner name)
      as (m & Hm & H1 & H2); [intros; by apply second_not_before
                            |intros R g k x Hk; cbn; by rewrite Hk
                            |done..|].
    cbn [first_match].
    replace (pre +:+ "github.com" +:+ sep +:+ owner +:+ "/" +:+ name +:+ "/")
      with ((pre +:+ "github.com" +:+ sep +:+ owner +:+ "/" +:+ name) +:+ "/")
      at 1 by (by rewrite !append_assoc).
    rewrite search_ends_slash. by rewrite Hm, H1, H2.
  - destruct (repo_search [Re.Opt (Re.Lit "/"); Re.Eos] ".git/" pre sep owner
                name) as (m & Hm & H1 & H2); [intros; by apply second_not_before
                            |intros R g k x Hk; cbn; by rewrite Hk
                            |done..|].
    cbn [first_match].
    replace (pre +:+ "github.com" +:+ sep +:+ owner +:+ "/" +:+ name
             +:+ ".git/")
      with ((pre +:+ "github.com" +:+ sep +:+ owner +:+ "/" +:+ name
             +:+ ".git") +:+ "/") at 1.
    2:{ by rewrite !append_assoc. }
    rewrite search_ends_slash. by rewrite Hm, H1, H2.
Qed.

(** A remote over HTTPS that ends with [.git/]: the second pattern
    matches it. *)
Lemma get_github_repo_shapes_witness :
  fst (get_github_repo (Sample.https_checkout [])) = Ret "acme/widget".
Proof.
  apply (get_github_repo_shapes (Sample.https_checkout [])
           (Completed 0 ("https://github.com/acme/widget.git/" +:+ Str.NL) "")
           ∅ "https://" "/" "acme" "widget" ".git/");
    try reflexivity.
  all: apply list_elem_of_In; simpl; auto 10.
Defined.

(** X8: when the remote does not contain [github.com],
    [get_github_repo] prints that it could not parse the remote, with the
    remote, and exits with status 1. *)
Theorem get_github_repo_foreign_remote (w : world) (p : CompletedProcess)
    (fs : gmap string string) :
  shell w (log w) (files w) "git remote get-url origin" = inr (p, fs) →
  Str.strip (stdout p) ≠ "" →
  Str.contains "github.com" (Str.strip (stdout p)) = false →
  fst (get_github_repo w) = Exit 1
  ∧ events_of get_github_repo w
    = [ERun "git remote get-url origin" (inr p);
       EPrint ("Error: Could not parse GitHub repo from remote: "
               +:+ Str.strip (stdout p))].
Proof.
  intros Hsh Hne Hc. unfold events_of.
  unfold get_github_repo, run_command, subprocess_run, mbind, M_bind.
  rewrite Hsh. simpl. unfold mret, M_ret.
  destruct (Str.strip (stdout p)) as [|c remote] eqn:Hout; [done|].
  cbn [Str.truthy negb].
  unfold first_match, patterns.
  rewrite !search_literal_first by done. simpl.
  split; [done|]. rewrite <- app_assoc. by rewrite drop_app_length.
Qed.

(** A remote on another host. *)
Lemma get_github_repo_foreign_remote_witness :
  fst (get_github_repo (Sample.elsewhere [])) = Exit 1
  ∧ events_of get_github_repo (Sample.elsewhere [])
    = [ERun "git remote get-url origin"
         (inr (Completed 0 ("git@gitlab.com:acme/widget.git" +:+ Str.NL) ""));
       EPrint ("Error: Could not parse GitHub repo from remote: "
               +:+ "git@gitlab.com:acme/widget.git")].
Proof.
  apply (get_github_repo_foreign_remote (Sample.elsewhere [])
           (Completed 0 ("git@gitlab.com:acme/widget.git" +:+ Str.NL) "") ∅);
    [reflexivity|discriminate|reflexivity].
Defined.

(** ** [validate_url] *)

Ltac unfold_validate H :=
  unfold validate_url, try_except, lift, mbind, M_bind, mret, M_ret, raise,
    print, input in H;
  simpl in H.

Lemma validate_url_accepting up url w msg :
  fst (validate_url up url w) = Ret (true, msg) → acceptable up url.
Proof.
  destruct (validate_url up url w) as [res w'] eqn:Hrun.
  unfold_validate Hrun. exec_in Hrun.
  all: inversion Hrun; subst; simpl; intros [= <-]; subst.
  all: repeat match goal with
         | H : _ || _ = false |- _ => apply orb_false_iff in H as [? ?]
         | H : negb _ = false |- _ => apply negb_false_iff in H
         end.
  all: split_and!; try done; try (by intros ->); eexists; split_and!;
    try done; intros Hs; rewrite Hs in *; done.
Qed.

(** X9: [validate_url] always returns a pair, never raises and never
    exits, whatever [urlparse] does; the pair carries a message exactly
    when the link is rejected. *)
Theorem validate_url_verdict (up : string → exn + ParseResult)
    (url : string) (w : world) :
  ∃ ok msg, fst (validate_url up url w) = Ret (ok, msg)
            ∧ (ok = true ↔ msg = None).
Proof.
  destruct (validate_url up url w) as [res w'] eqn:Hrun.
  unfold_validate Hrun. exec_in Hrun.
  all: inversion Hrun; subst; simpl; eexists _, _; split; [reflexivity|done].
Qed.

(** X10: a link [validate_url] accepts is not empty, starts with
    neither token prefix, and [urlparse] gives it a scheme and a host
    that are not empty. *)
Theorem validate_url_sound (up : string → exn + ParseResult) (url : string)
    (w : world) (msg : option string) :
  fst (validate_url up url w) = Ret (true, msg) →
  url ≠ ""
  ∧ Str.startswith url "github_pat_" = false
  ∧ Str.startswith url "ghp_" = false
  ∧ ∃ parsed, up url = inr parsed
              ∧ scheme parsed ≠ "" ∧ netloc parsed ≠ "".
Proof. intros H. exact (validate_url_accepting up url w msg H). Qed.

(** The link of the README's example. *)
Lemma validate_url_sound_witness :
  "https://www.icloud.com/shortcuts/abc" ≠ ""
  ∧ Str.startswith "https://www.icloud.com/shortcuts/abc" "github_pat_" = false
  ∧ Str.startswith "https://www.icloud.com/shortcuts/abc" "ghp_" = false
  ∧ ∃ parsed, Sample.urlparse "https://www.icloud.com/shortcuts/abc"
              = inr parsed
              ∧ scheme parsed ≠ "" ∧ netloc parsed ≠ "".
Proof.
  apply (validate_url_sound Sample.urlparse
           "https://www.icloud.com/shortcuts/abc" (Sample.quiet []) None).
  reflexivity.
Defined.

Lemma events_of_emits {A} P (m : M A) w : emits P m → Forall P (events_of m w).
Proof.
  intros H. destruct (H w) as (evs & Hl & HP). unfold events_of.
  by rewrite Hl, drop_app_length.
Qed.

(** X11: [validate_url] only prints and asks: it runs no command,
    sends no request and leaves every file as it is. *)
Theorem validate_url_on_terminal (up : string → exn + ParseResult)
    (url : string) (w : world) :
  Forall on_terminal (events_of (validate_url up url) w)
  ∧ files (snd (validate_url up url w)) = files w.
Proof.
  split.
  - apply events_of_emits. unfold validate_url. repeat emits_step; done.
  - destruct (validate_url up url w) as [res w'] eqn:Hrun.
    unfold_validate Hrun. exec_in Hrun.
    all: by inversion Hrun.
Qed.

(** ** The loop of [main] that asks for the link *)

Lemma validate_url_stdin up url w :
  (length (stdin (snd (validate_url up url w))) ≤ length (stdin w))%nat.
Proof.
  destruct (validate_url up url w) as [res w'] eqn:Hrun.
  unfold_validate Hrun. exec_in Hrun.
  all: inversion Hrun; subst; simpl; try lia.
  all: match goal with H : stdin _ = _ |- _ => rewrite H; simpl; lia end.
Qed.

(** One round of the loop that asks for the link. *)
Lemma ask_shortcut_url_round up n w :
  ask_shortcut_url up (S n) w
  = match stdin w with
    | [] => (Raise (Exn EOFError "EOF when reading a line"),
             record (EInput (Str.NL +:+ "🔗 Enter the new shortcut URL: ") None)
               w)
    | l :: rest =>
        let w1 := record (EInput (Str.NL +:+ "🔗 Enter the new shortcut URL: ")
                            (Some l)) (set_stdin rest w) in
        if negb (Str.truthy (Str.strip l))
        then ask_shortcut_url up n (record (EPrint "Error: No URL provided.") w1)
        else
          match validate_url up (Str.strip l) w1 with
          | (Ret (true, _), w2) => (Ret (Str.strip l), w2)
          | (Ret (false, error_msg), w2) =>
              ask_shortcut_url up n
                (record (EPrint ("   Please try again." +:+ Str.NL))
                   (record (EPrint ("❌ " +:+ fstr_opt error_msg)) w2))
          | (Raise e, w2) => (Raise e, w2)
          | (Exit c, w2) => (Exit c, w2)
          end
    end.
Proof.
  cbn [ask_shortcut_url]. rewrite bind_strip_input.
  destruct (stdin w) as [|l rest]; [done|]. cbv zeta.
  destruct (negb (Str.truthy (Str.strip l))); [done|].
  unfold mbind at 1. unfold M_bind at 1.
  destruct (validate_url up (Str.strip l) _) as [[[[] msg]|e|c] w2]; done.
Qed.

Lemma ask_shortcut_url_accepting up n : ∀ w url,
  fst (ask_shortcut_url up n w) = Ret url → acceptable up url.
Proof.
  induction n as [|n IH]; intros w url; [done|].
  rewrite ask_shortcut_url_round.
  destruct (stdin w) as [|l rest]; [done|]. cbv zeta.
  destruct (negb (Str.truthy (Str.strip l))); [apply IH|].
  destruct (validate_url up (Str.strip l) _) as [[[[] msg]|e|c] w2] eqn:Hv;
    [|apply IH|done..].
  intros [= <-]. eapply (validate_url_accepting up _ _ msg).
  by erewrite Hv.
Qed.

(** The loop does not run out of rounds: with more rounds than lines left
    to read, any number of rounds gives the same run. *)
Lemma ask_shortcut_url_rounds up n : ∀ m w,
  (length (stdin w) < n)%nat → (length (stdin w) < m)%nat →
  ask_shortcut_url up n w = ask_shortcut_url up m w.
Proof.
  induction n as [|n IH]; intros m w Hn Hm; [lia|].
  destruct m as [|m]; [lia|]. rewrite !ask_shortcut_url_round.
  destruct (stdin w) as [|l rest] eqn:Hin; [done|]. cbv zeta.
  simpl in Hn, Hm.
  destruct (negb (Str.truthy (Str.strip l))).
  { apply IH; simpl; lia. }
  match goal with |- context [validate_url up ?u ?w1] =>
    pose proof (validate_url_stdin up u w1) as Hlen;
    destruct (validate_url up u w1) as [[[[] msg]|e|c] w2]
  end; try done.
  simpl in Hlen. apply IH; simpl; lia.
Qed.

(** X12: the link the loop of [main] hands on to the download is one
    [validate_url] accepted: not empty, without a token prefix, with a
    scheme and a host. *)
Theorem ask_shortcut_url_returns_acceptable
    (up : string → exn + ParseResult) (rounds : nat) (w : world)
    (url : string) :
  fst (ask_shortcut_url up rounds w) = Ret url →
  url ≠ ""
  ∧ Str.startswith url "github_pat_" = false
  ∧ Str.startswith url "ghp_" = false
  ∧ ∃ parsed, up url = inr parsed
              ∧ scheme parsed ≠ "" ∧ netloc parsed ≠ "".
Proof. apply ask_shortcut_url_accepting. Qed.

(** A token typed first is asked for again; the link typed next, with
    blanks around it, is handed on stripped. *)
Lemma ask_shortcut_url_returns_acceptable_witness :
  "https://www.icloud.com/shortcuts/abc" ≠ ""
  ∧ Str.startswith "https://www.icloud.com/shortcuts/abc" "github_pat_" = false
  ∧ Str.startswith "https://www.icloud.com/shortcuts/abc" "ghp_" = false
  ∧ ∃ parsed, Sample.urlparse "https://www.icloud.com/shortcuts/abc"
              = inr parsed
              ∧ scheme parsed ≠ "" ∧ netloc parsed ≠ "".
Proof.
  apply (ask_shortcut_url_returns_acceptable Sample.urlparse 3
           (Sample.quiet ["ghp_token"; " https://www.icloud.com/shortcuts/abc "])).
  vm_compute. reflexivity.
Defined.

(** X13: the loop is bounded by the input: every round reads a line, so
    with more rounds than lines left to read the run is the one of one
    round more than lines left, the bound [main] gives the loop. *)
Theorem ask_shortcut_url_enough_rounds (up : string → exn + ParseResult)
    (rounds : nat) (w : world) :
  (length (stdin w) < rounds)%nat →
  ask_shortcut_url up rounds w
  = ask_shortcut_url up (S (length (stdin w))) w.
Proof. intros H. apply ask_shortcut_url_rounds; lia. Qed.

Lemma ask_shortcut_url_enough_rounds_witness :
  ask_shortcut_url Sample.urlparse 7 (Sample.quiet ["ghp_token"; ""])
  = ask_shortcut_url Sample.urlparse 3 (Sample.quiet ["ghp_token"; ""]).
Proof.
  apply (ask_shortcut_url_enough_rounds Sample.urlparse 7
           (Sample.quiet ["ghp_token"; ""])).
  simpl. lia.
Defined.

(** ** [pull_latest] *)

Ltac unfold_git H :=
  unfold commit_and_push, create_tag, run_command, subprocess_run, mbind,
    M_bind, mret, M_ret, print, sys_exit in H;
  simpl in H.

Ltac in_log H :=
  apply list_elem_of_In in H; simpl in H;
  repeat match type of H with
         | _ ∨ _ => destruct H as [H|H]
         end;
  try done; simplify_eq.

(** X14: [pull_latest] runs a [git pull] only in a run in which it
    asked whether to pull and the reply, stripped and in lower case, was
    [y]. *)
Theorem pull_latest_asks_first (w : world) (cmd : string)
    (r : exn + CompletedProcess) :
  ERun cmd r ∈ events_of pull_latest w →
  Str.startswith cmd "git pull" = true →
  ∃ reply, EInput pull_prompt (Some reply) ∈ events_of pull_latest w
           ∧ Str.lower (Str.strip reply) = "y".
Proof.
  unfold events_of.
  destruct (pull_latest w) as [res w'] eqn:Hrun.
  unfold pull_latest, run_command, subprocess_run, mbind, M_bind, mret, M_ret,
    print, sys_exit, input, lift, raise in Hrun.
  simpl in Hrun. exec_in Hrun.
  all: inversion Hrun; subst; clear Hrun; tidy_log.
  all: intros Hin Hcmd; in_log Hin.
  all: try (simpl in Hcmd; discriminate Hcmd).
  all: match goal with
       | H : String.eqb _ "y" = true |- _ => apply String.eqb_eq in H
       end.
  all: eexists; split; [apply list_elem_of_In; simpl; eauto 20|done].
Qed.

(** Three commits behind, and the user agrees. *)
Lemma pull_latest_asks_first_witness :
  ∃ reply, EInput pull_prompt (Some reply)
           ∈ events_of pull_latest (Sample.behind ["y"])
           ∧ Str.lower (Str.strip reply) = "y".
Proof.
  apply (pull_latest_asks_first (Sample.behind ["y"]) "git pull origin main"
           (inr (Completed 0 "" ""))).
  - apply list_elem_of_In. vm_compute. auto 10.
  - reflexivity.
Defined.

(** ** [download_file] *)

(** X15: when the server answers the download with a status from 400
    to 599, [download_file] raises [HTTPError] and writes no file. *)
Theorem download_file_error_status (url output_path : string) (w : world)
    (resp : response) :
  server w (log w ++ [EPrint ("📥 Downloading file from " +:+ url +:+ "...")])
    (Request GET url ∅ NoPayload) = inr resp →
  400 ≤ status_code resp < 600 →
  fst (download_file url output_path w)
  = Raise (Exn HTTPError (str_of_int (status_code resp) +:+ " Error"))
  ∧ files (snd (download_file url output_path w)) = files w.
Proof.
  intros Hsrv [Hlo Hhi].
  unfold download_file, mbind, M_bind, print, requests_send, raise_for_status.
  simpl. rewrite Hsrv. simpl.
  destruct (Z.leb_spec 400 (status_code resp)); [|lia].
  destruct (Z.ltb_spec (status_code resp) 600); [|lia]. done.
Qed.

Lemma download_file_error_status_witness :
  fst (download_file "https://www.icloud.com/shortcuts/abc" SHORTCUT_PATH
         (Sample.refusing []))
  = Raise (Exn HTTPError "404 Error")
  ∧ files (snd (download_file "https://www.icloud.com/shortcuts/abc"
                  SHORTCUT_PATH (Sample.refusing [])))
    = files (Sample.refusing []).
Proof.
  apply (download_file_error_status _ _ (Sample.refusing [])
           (Response 404 "Not Found" "" None)); [reflexivity|simpl; lia].
Defined.

(** X16: with any other status, [download_file] writes the body of
    the response to the output path and returns. *)
Theorem download_file_saves (url output_path : string) (w : world)
    (resp : response) :
  server w (log w ++ [EPrint ("📥 Downloading file from " +:+ url +:+ "...")])
    (Request GET url ∅ NoPayload) = inr resp →
  status_code resp < 400 ∨ 600 ≤ status_code resp →
  fst (download_file url output_path w) = Ret tt
  ∧ files (snd (download_file url output_path w))
    = <[output_path := content resp]> (files w).
Proof.
  intros Hsrv Hst.
  unfold download_file, mbind, M_bind, print, requests_send, raise_for_status.
  simpl. rewrite Hsrv. simpl.
  destruct (Z.leb_spec 400 (status_code resp)),
    (Z.ltb_spec (status_code resp) 600); simpl; try done; lia.
Qed.

Lemma download_file_saves_witness :
  fst (download_file "https://www.icloud.com/shortcuts/abc" SHORTCUT_PATH
         (Sample.github [])) = Ret tt
  ∧ files (snd (download_file "https://www.icloud.com/shortcuts/abc"
                  SHORTCUT_PATH (Sample.github [])))
    = <[SHORTCUT_PATH := "shortcut"]> (files (Sample.github [])).
Proof.
  apply (download_file_saves _ _ (Sample.github [])
           (Response 200 "" "shortcut"
              (Some (JObj {[ "sha" := JStr Sample.sha1 ]}))));
    [reflexivity|simpl; lia].
Defined.

(** ** [generate_qr_code] *)

(** X17: [generate_qr_code] only prints, reads no input, and touches no
    file but the one at its output path. *)
Theorem generate_qr_code_effect (url output_path : string) (w : world) :
  Forall on_terminal (events_of (generate_qr_code url output_path) w)
  ∧ stdin (snd (generate_qr_code url output_path w)) = stdin w
  ∧ ∀ path, path ≠ output_path →
            files (snd (generate_qr_code url output_path w)) !! path
            = files w !! path.
Proof.
  split; [|split].
  - apply events_of_emits. unfold generate_qr_code. repeat emits_step; done.
  - unfold generate_qr_code, mbind, M_bind, print, qr_make_image. simpl.
    by destruct (qr_image w url).
  - intros path Hpath.
    unfold generate_qr_code, mbind, M_bind, print, qr_make_image. simpl.
    destruct (qr_image w url); simpl; [done|]. by rewrite lookup_insert_ne.
Qed.

(** ** The two patchers *)

(** X18: without a [README.md] both patchers raise [FileNotFoundError]
    and leave the files as they are. *)
Theorem patcher_without_readme (new : string) (ln : Z) (w : world) :
  files w !! README_PATH = None →
  (∃ e, fst (replace_readme_link new ln w) = Raise e
        ∧ exn_class_of e = FileNotFoundError
        ∧ files (snd (replace_readme_link new ln w)) = files w)
  ∧ (∃ e, fst (replace_readme_qr_code new ln w) = Raise e
          ∧ exn_class_of e = FileNotFoundError
          ∧ files (snd (replace_readme_qr_code new ln w)) = files w).
Proof.
  intros Hf. split.
  - unfold replace_readme_link, mbind, M_bind, fmap, M_fmap, mbind, M_bind,
      read_file, print. simpl. rewrite Hf. simpl. eexists. done.
  - unfold replace_readme_qr_code, mbind, M_bind, fmap, M_fmap, mbind, M_bind,
      read_file, print. simpl. rewrite Hf. simpl. eexists. done.
Qed.

Lemma patcher_without_readme_witness :
  (∃ e, fst (replace_readme_link "https://new.example/y" 57 (Sample.quiet []))
        = Raise e
        ∧ exn_class_of e = FileNotFoundError
        ∧ files (snd (replace_readme_link "https://new.example/y" 57
                        (Sample.quiet []))) = files (Sample.quiet []))
  ∧ (∃ e, fst (replace_readme_qr_code "https://new.example/y" 57
                 (Sample.quiet [])) = Raise e
          ∧ exn_class_of e = FileNotFoundError
          ∧ files (snd (replace_readme_qr_code "https://new.example/y" 57
                          (Sample.quiet []))) = files (Sample.quiet [])).
Proof. apply patcher_without_readme. reflexivity. Defined.



Lemma text_app a b : Re.text (a ++ b) = Re.text a +:+ Re.text b.
Proof.
  induction a as [|c a IH]; [done|].
  change (String c (Re.text (a ++ b)) = String c (Re.text a +:+ Re.text b)).
  by rewrite IH.
Qed.

(** [re.sub] on a line that starts with the label and a link. *)
Lemma sub_link new x rest :
  plain_value new = true →
  x ≠ "" → forallb nonspace (Re.chars x) = true →
  stops nonspace (Re.chars rest) →
  Re.search link_pattern rest = None →
  Re.sub link_pattern (Str.BS +:+ "1" +:+ new)
    ("**Install MessageDict:** https://" +:+ x +:+ rest)
  = inr ("**Install MessageDict:** " +:+ new +:+ rest).
Proof.
  intros [Hesc Hplain]%plain_value_spec Hx Hall Hstop Hrest.
  unfold Re.sub.
  change (Re.chars (Str.BS +:+ "1" +:+ new))
    with (Str.backslash :: "1"%char :: Re.chars new).
  rewrite link_template by done. f_equal.
  change ("**Install MessageDict:** https://" +:+ x +:+ rest)
    with ("**Install MessageDict:** " +:+ "https://" +:+ x +:+ rest).
  rewrite !chars_app. fold link_label. fold https.
  assert (Hx' : Re.chars x ≠ []) by (by destruct x).
  rewrite (subx_hit _ _ _ (32 + length (Re.chars x)) _
             (link_hit (Re.chars x) (Re.chars rest) Hx' Hall Hstop)).
  rewrite link_expand.
  replace (drop (S (32 + length (Re.chars x)))
             (link_label ++ https ++ Re.chars x ++ Re.chars rest))
    with (Re.chars rest).
  2:{ symmetry. rewrite !(assoc_L (++)). apply drop_app_length'.
      rewrite !length_app. change (length link_label) with 25%nat.
      change (length https) with 8%nat. lia. }
  rewrite (subx_not_found _ _ _ _ (search_None _ _ Hrest)).
  by rewrite !text_app, !text_chars.
Qed.



(** ** [upload_qr_to_github] and [create_github_release] *)

(** X21: without a token, absent or empty, neither function reaches the
    network: the upload returns [None] in silence, the release returns
    [None] after one line of warning. *)
Theorem github_api_needs_token (repo qr_path branch tag name body : string)
    (asset_path token : option string) (w : world) :
  token = None ∨ token = Some "" →
  upload_qr_to_github repo token qr_path branch w = (Ret None, w)
  ∧ create_github_release repo tag name body token asset_path w
    = (Ret JNull,
       record
         (EPrint "⚠️  GITHUB_TOKEN not set. Skipping GitHub release creation.")
         w).
Proof. by intros [-> | ->]. Qed.

Lemma github_api_needs_token_witness :
  upload_qr_to_github "acme/widget" (Some "") "/tmp/message_dict_qr_0.png"
    "main" (Sample.github [])
  = (Ret None, Sample.github [])
  ∧ create_github_release "acme/widget" "2.1 stable" "2.1 stable" "New words"
      (Some "") (Some "/tmp/message_dict_qr_0.png") (Sample.github [])
    = (Ret JNull,
       record
         (EPrint "⚠️  GITHUB_TOKEN not set. Skipping GitHub release creation.")
         (Sample.github [])).
Proof. apply github_api_needs_token. right. reflexivity. Defined.

(** X22: every request of [upload_qr_to_github] carries the token as
    bearer and goes to the contents address of the asset,
    [assets/] and the base name of the file, in the repository. *)
Theorem upload_requests_are_authorized (repo token qr_path branch : string)
    (w : world) :
  Forall (authorized token)
    (events_of (upload_qr_to_github repo (Some token) qr_path branch) w)
  ∧ ∀ req, req ∈ requests
                   (events_of (upload_qr_to_github repo (Some token) qr_path
                                 branch) w) →
           req_url req
           = "https://api.github.com/repos/" +:+ repo +:+ "/contents/assets/"
             +:+ basename qr_path.
Proof.
  assert (He : emits (λ e, authorized token e
                           ∧ ∀ req r, e = EHttp req r →
                               req_url req
                               = "https://api.github.com/repos/" +:+ repo
                                 +:+ "/contents/assets/" +:+ basename qr_path)
                 (upload_qr_to_github repo (Some token) qr_path branch)).
  { unfold upload_qr_to_github. repeat emits_step.
    all: split; [done|]; intros ? ? [=]; subst; try done. }
  apply (events_of_emits _ _ w) in He. split.
  - eapply Forall_impl; [exact He|]. by intros e [? _].
  - intros req Hreq. unfold requests in Hreq.
    apply list_elem_of_omap in Hreq as (e & He' & Hreq).
    rewrite Forall_forall in He. destruct (He e He') as [_ Hurl].
    destruct e; try done. injection Hreq as ->. by eapply Hurl.
Qed.

(** X23: when GitHub answers the creation of the release with a status
    other than 201, [create_github_release] returns [None] after that
    one request: no asset is uploaded and no file is touched. *)
Theorem release_refused_returns_none (repo tag name body token : string)
    (asset_path : option string) (w : world) (resp : response) :
  token ≠ "" →
  server w (log w ++ [EPrint ("📦 Creating GitHub release: " +:+ tag +:+ "...")])
    (Request POST ("https://api.github.com/repos/" +:+ repo +:+ "/releases")
       (api_headers token)
       (JsonPayload {[ "tag_name" := JStr tag; "name" := JStr name;
                       "body" := JStr body; "draft" := JBool false;
                       "prerelease" := JBool false ]}))
  = inr resp →
  status_code resp ≠ 201 →
  fst (create_github_release repo tag name body (Some token) asset_path w)
  = Ret JNull
  ∧ length (requests (events_of (create_github_release repo tag name body
                                   (Some token) asset_path) w)) = 1%nat
  ∧ files (snd (create_github_release repo tag name body (Some token)
                  asset_path w)) = files w.
Proof.
  intros Htok Hsrv Hst. unfold events_of.
  unfold create_github_release.
  assert (truthy_opt (Some token) = true) as -> by (by destruct token).
  cbn [negb]. unfold mbind, M_bind, print, requests_send.
  simpl. rewrite Hsrv. simpl.
  destruct (Z.eqb_spec (status_code resp) 201) as [|_]; [done|].
  destruct (status_code resp =? 422); simpl;
    rewrite <- ?app_assoc, drop_app_length; done.
Qed.

Lemma release_refused_returns_none_witness :
  fst (create_github_release "acme/widget" "2.1 stable" "2.1 stable"
         "New words" (Some "ghp_token") (Some "/tmp/message_dict_qr_0.png")
         (Sample.refusing [])) = Ret JNull
  ∧ length (requests
              (events_of (create_github_release "acme/widget" "2.1 stable"
                            "2.1 stable" "New words" (Some "ghp_token")
                            (Some "/tmp/message_dict_qr_0.png"))
                 (Sample.refusing []))) = 1%nat
  ∧ files (snd (create_github_release "acme/widget" "2.1 stable" "2.1 stable"
                  "New words" (Some "ghp_token")
                  (Some "/tmp/message_dict_qr_0.png") (Sample.refusing [])))
    = files (Sample.refusing []).
Proof.
  apply (release_refused_returns_none _ _ _ _ _ _ _
           (Response 404 "Not Found" "" None));
    [discriminate|reflexivity|discriminate].
Defined.

(** X24: every request of [create_github_release] is a [POST] that
    carries the token as bearer. *)
Theorem release_requests_are_authorized (repo tag name body token : string)
    (asset_path : option string) (w : world) :
  Forall (authorized token)
    (events_of (create_github_release repo tag name body (Some token)
                  asset_path) w)
  ∧ Forall (λ req, req_method req = POST)
      (requests (events_of (create_github_release repo tag name body
                              (Some token) asset_path) w)).
Proof.
  assert (He : emits (λ e, authorized token e
                           ∧ ∀ req r, e = EHttp req r → req_method req = POST)
                 (create_github_release repo tag name body (Some token)
                    asset_path)).
  { unfold create_github_release. repeat emits_step.
    all: split; [done|]; intros ? ? [=]; subst; try done. }
  apply (events_of_emits _ _ w) in He. split.
  - eapply Forall_impl; [exact He|]. by intros e [? _].
  - apply Forall_forall. intros req Hreq. unfold requests in Hreq.
    apply list_elem_of_omap in Hreq as (e & He' & Hreq).
    rewrite Forall_forall in He. destruct (He e He') as [_ Hm].
    destruct e; try done. injection Hreq as ->. by eapply Hm.
Qed.

(** ** [commit_and_push] and [create_tag] *)

(** X25: when [commit_and_push] returns it ran [git add], [git commit]
    with the message and [git push], in this order and nothing else; a
    command that returns a status other than zero is the last one run,
    and the script exits with status 1. *)
Theorem commit_and_push_stops_at_failure (commit_message : string)
    (w : world) :
  (fst (commit_and_push commit_message w) = Ret tt →
   commands (events_of (commit_and_push commit_message) w)
   = ["git add .";
      "git commit -m " +:+ Str.DQ +:+ commit_message +:+ Str.DQ;
      "git push origin main || git push origin master"])
  ∧ (∀ cmd p,
       ERun cmd (inr p) ∈ events_of (commit_and_push commit_message) w →
       returncode p ≠ 0 →
       fst (commit_and_push commit_message w) = Exit 1
       ∧ last (commands (events_of (commit_and_push commit_message) w))
         = Some cmd).
Proof.
  unfold events_of.
  destruct (commit_and_push commit_message w) as [res w'] eqn:Hrun.
  unfold_git Hrun. exec_in Hrun.
  all: inversion Hrun; subst; clear Hrun; tidy_log; unnegb; zify_eqb.
  all: split; [try (intros [=]); try done|].
  all: intros cmd q Hin Hq; in_log Hin.
  all: try lia.
  all: split; reflexivity.
Qed.

(** X26: [create_tag] runs the push of the tag only in a run in which
    [git tag] for it was run and returned status zero. *)
Theorem create_tag_pushes_what_it_created (tag_name : string) (w : world)
    (r : exn + CompletedProcess) :
  ERun (git_push_tag_cmd tag_name) r ∈ events_of (create_tag tag_name) w →
  ∃ p, ERun (git_tag_cmd tag_name) (inr p) ∈ events_of (create_tag tag_name) w
       ∧ returncode p = 0.
Proof.
  unfold events_of.
  destruct (create_tag tag_name w) as [res w'] eqn:Hrun.
  unfold_git Hrun. exec_in Hrun.
  all: inversion Hrun; subst; clear Hrun; tidy_log; unnegb; zify_eqb.
  all: intros Hin; in_log Hin.
  all: eexists; split; [apply list_elem_of_In; simpl; eauto 10|done].
Qed.

Lemma create_tag_pushes_what_it_created_witness :
  ∃ p, ERun (git_tag_cmd "2.1 stable") (inr p)
       ∈ events_of (create_tag "2.1 stable") (Sample.github [])
       ∧ returncode p = 0.
Proof.
  apply (create_tag_pushes_what_it_created "2.1 stable" (Sample.github [])
           (inr (Completed 0 "" ""))).
  apply list_elem_of_In. vm_compute. auto.
Defined.

(** ** The end of [main] *)

(** X27: when the version name, the tag or the changes are blank, the
    script exits with status 1 before it runs a command, sends a request
    or touches a file. *)
Theorem main_release_requires_answers (tok : option string)
    (repo path : string) (w : world) (v t c : string) (rest : list string) :
  stdin w = v :: t :: c :: rest →
  Str.strip v = "" ∨ Str.strip t = "" ∨ Str.strip c = "" →
  fst (main_release tok repo path w) = Exit 1
  ∧ commands (events_of (main_release tok repo path) w) = []
  ∧ requests (events_of (main_release tok repo path) w) = []
  ∧ files (snd (main_release tok repo path w)) = files w.
Proof.
  intros Hin Hblank. unfold events_of, main_release.
  rewrite bind_print, bind_strip_input. simpl stdin. rewrite Hin.
  cbv beta iota.
  rewrite bind_strip_input. simpl stdin. cbv beta iota.
  rewrite bind_strip_input. simpl stdin. cbv beta iota.
  assert (negb (Str.truthy (Str.strip v)) || negb (Str.truthy (Str.strip t))
          || negb (Str.truthy (Str.strip c)) = true) as ->.
  { destruct Hblank as [-> | [-> | ->]]; simpl; by rewrite ?orb_true_r. }
  simpl. split; [done|]. rewrite <- !app_assoc. rewrite drop_app_length. done.
Qed.

(** A tag of blanks only. *)
Lemma main_release_requires_answers_witness :
  fst (main_release (Some "ghp_token") "acme/widget"
         "/tmp/message_dict_qr_0.png" (Sample.github ["2.1"; "  "; "New words"]))
  = Exit 1
  ∧ commands (events_of (main_release (Some "ghp_token") "acme/widget"
                           "/tmp/message_dict_qr_0.png")
                (Sample.github ["2.1"; "  "; "New words"])) = []
  ∧ requests (events_of (main_release (Some "ghp_token") "acme/widget"
                           "/tmp/message_dict_qr_0.png")
                (Sample.github ["2.1"; "  "; "New words"])) = []
  ∧ files (snd (main_release (Some "ghp_token") "acme/widget"
                  "/tmp/message_dict_qr_0.png"
                  (Sample.github ["2.1"; "  "; "New words"])))
    = files (Sample.github ["2.1"; "  "; "New words"]).
Proof.
  apply (main_release_requires_answers _ _ _ _ "2.1" "  " "New words" []);
    [reflexivity|]. right. left. reflexivity.
Defined.

Section Ensures.

Context (Q : world → Prop).

Lemma ensures_bind {A B} (m : M A) (k : A → M B) :
  (∀ a, ensures (k a) Q) → ensures (m ≫= k) Q.
Proof.
  intros Hk w b. unfold mbind, M_bind.
  destruct (m w) as [[a|e|c] w1]; simpl; [apply Hk|done..].
Qed.

Lemma ensures_exit {A} c : ensures (@sys_exit A c) Q.
Proof. by intros w a. Qed.

Lemma ensures_raise {A} e : ensures (@raise A e) Q.
Proof. by intros w a. Qed.

End Ensures.

(** The last two steps of [main]: the temporary file is gone after them. *)
Lemma cleanup_removes path :
  ensures
    (try_except
       (present ← path_exists path;
        if present : bool then
          os_remove path;;
          print "🧹 Cleaned up temporary QR code file"
        else mret tt)
       (λ e, print ("⚠️  Warning: Could not delete temporary QR code file: "
                    +:+ exn_str e));;
     print (Str.NL +:+ "✅ Upload process completed!"))
    (λ w, files w !! path = None).
Proof.
  intros w a _.
  unfold try_except, mbind, M_bind, path_exists, os_remove, print, mret, M_ret.
  simpl. destruct (files w !! path) eqn:Hf; simpl.
  - apply lookup_delete_eq.
  - done.
Qed.



(** ** The script as a whole *)

Ltac emits_plain := repeat emits_step; try done.

Lemma ask_shortcut_url_anonymous up n : emits anonymous (ask_shortcut_url up n).
Proof.
  induction n as [|n IH]; simpl; [apply emits_raise|].
  assert (∀ url, emits anonymous (validate_url up url)) as Hv.
  { intros url. unfold validate_url. emits_plain. }
  repeat first [ apply IH | apply Hv | emits_step ]; done.
Qed.

Lemma main_anonymous up : emits anonymous (main up None).
Proof.
  unfold main, main_release. cbn [truthy_opt].
  repeat first
    [ apply (emits_at _ (λ w0, ask_shortcut_url up (S (length (stdin w0)))));
      intros ?; apply ask_shortcut_url_anonymous
    | match goal with
      | |- emits _ pull_latest => unfold pull_latest
      | |- emits _ (download_file _ _) => unfold download_file
      | |- emits _ (replace_readme_link _ _) => unfold replace_readme_link
      | |- emits _ (generate_qr_code _ _) => unfold generate_qr_code
      | |- emits _ get_github_repo => unfold get_github_repo
      | |- emits _ (commit_and_push _) => unfold commit_and_push
      | |- emits _ (create_tag _) => unfold create_tag
      end
    | emits_step ]; done.
Qed.

(** X29: with no token in the environment and no secrets file, the
    script sends nothing on behalf of a token: every request of the run
    is a [GET] without headers. *)
Theorem program_without_token_is_anonymous
    (up : string → exn + ParseResult) (environ : gmap string string)
    (w : world) :
  environ !! "GITHUB_TOKEN" = None → files w !! SECRETS_FILE = None →
  Forall anonymous (events_of (program up environ) w).
Proof.
  intros Henv Hf. unfold events_of, program, mbind, M_bind.
  rewrite load_secrets_run, Henv, Hf. simpl.
  apply (events_of_emits _ _ w (main_anonymous up)).
Qed.

Lemma program_without_token_is_anonymous_witness :
  Forall anonymous
    (events_of (program Sample.urlparse ∅)
       (Sample.github ["https://www.icloud.com/shortcuts/abc";
                       "2.1"; "stable"; "New words"])).
Proof.
  apply program_without_token_is_anonymous; reflexivity.
Defined.
